(** * Block lexers of robot.parsing.lexer (blocklexers.py)

    A shallow embedding of the composite lexers that route statements to
    child lexers, together with the properties of the dispatch, of the block
    depth counter, of the inline IF splitter and of priority lexing. *)

From Stdlib Require Import ZArith Ascii String List Bool Lia.
From stdpp Require Import base option list gmap strings.

Open Scope string_scope.
Open Scope list_scope.

(** ** Tokens and statements *)

(** The type tags this file assigns ([Token.TESTCASE_NAME],
    [Token.KEYWORD_NAME]), the placeholder [NotImplemented] that
    [TestOrKeywordLexer.name_type] holds, and any other tag. *)
Inductive TokenType :=
  | TESTCASE_NAME
  | KEYWORD_NAME
  | NotImplemented
  | OtherType (name : string).

(** A token object: its text, its type ([None] is Python's [None]) and the
    two requests for an end-of-statement token next to it. *)
Record Token := mkToken {
  value : string;
  type : option TokenType;
  _add_eos_before : bool;
  _add_eos_after : bool
}.

(** Tokens are mutable objects with an identity: a statement holds
    references, the store holds the objects. *)
Definition TokenRef := nat.
Definition Statement := list TokenRef.

Definition fresh_token : Token := mkToken "" None false false.

(** The object behind a reference. A reference the store does not hold yet
    reads as a fresh token, with empty text and nothing set. *)
Definition deref (h : gmap nat Token) (t : TokenRef) : Token :=
  default fresh_token (h !! t).

Definition set_type (ty : option TokenType) (tk : Token) : Token :=
  mkToken (value tk) ty (_add_eos_before tk) (_add_eos_after tk).

Definition set_add_eos_before (tk : Token) : Token :=
  mkToken (value tk) (type tk) true (_add_eos_after tk).

Definition set_add_eos_after (tk : Token) : Token :=
  mkToken (value tk) (type tk) (_add_eos_before tk) true.

(** [token.attr = ...] on the object behind the reference [t]. *)
Definition update (f : Token -> Token) (t : TokenRef) (h : gmap nat Token)
  : gmap nat Token :=
  <[t := f (deref h t)]> h.

(** Python's [s.startswith('*')] is [String.prefix "*" s]. *)
Definition startswith_star (s : string) : bool := String.prefix "*" s.

(** Truthiness of a string: the empty string is false. *)
Definition truthy (s : string) : bool :=
  match s with EmptyString => false | String _ _ => true end.

(** ** Classes *)

(** The statement lexers imported from statementlexers.py. *)
Inductive StatementClass :=
  | SettingSectionHeaderLexer | SettingLexer
  | VariableSectionHeaderLexer | VariableLexer
  | TestCaseSectionHeaderLexer
  | TaskSectionHeaderLexer
  | KeywordSectionHeaderLexer
  | CommentSectionHeaderLexer | CommentLexer | ImplicitCommentLexer
  | ErrorSectionHeaderLexer
  | TestOrKeywordSettingLexer
  | KeywordCallLexer
  | IfHeaderLexer | ElseIfHeaderLexer | ElseHeaderLexer
  | InlineIfHeaderLexer | EndLexer
  | TryHeaderLexer | ExceptHeaderLexer | FinallyHeaderLexer
  | ForHeaderLexer | WhileHeaderLexer
  | ContinueLexer | BreakLexer | ReturnLexer.

(** The classes blocklexers.py defines. *)
Inductive BlockClass :=
  | BlockLexer
  | FileLexer
  | SectionLexer
  | SettingSectionLexer | VariableSectionLexer
  | TestCaseSectionLexer | TaskSectionLexer
  | KeywordSectionLexer | CommentSectionLexer
  | ImplicitCommentSectionLexer | ErrorSectionLexer
  | TestOrKeywordLexer | TestCaseLexer | KeywordLexer
  | NestedBlockLexer
  | ForLexer | WhileLexer | TryLexer | IfLexer
  | InlineIfLexer.

Inductive Class :=
  | Stmt (c : StatementClass)
  | Blk (c : BlockClass).

#[global] Instance StatementClass_eq_dec : EqDecision StatementClass.
Proof. solve_decision. Defined.
#[global] Instance BlockClass_eq_dec : EqDecision BlockClass.
Proof. solve_decision. Defined.
#[global] Instance Class_eq_dec : EqDecision Class.
Proof. solve_decision. Defined.

(** The base class written in each [class X(Base)] header; [None] is the
    imported base [Lexer]. *)
Definition base (c : BlockClass) : option BlockClass :=
  match c with
  | BlockLexer => None
  | FileLexer => Some BlockLexer
  | SectionLexer => Some BlockLexer
  | SettingSectionLexer => Some SectionLexer
  | VariableSectionLexer => Some SectionLexer
  | TestCaseSectionLexer => Some SectionLexer
  | TaskSectionLexer => Some SectionLexer
  | KeywordSectionLexer => Some SettingSectionLexer
  | CommentSectionLexer => Some SectionLexer
  | ImplicitCommentSectionLexer => Some SectionLexer
  | ErrorSectionLexer => Some SectionLexer
  | TestOrKeywordLexer => Some BlockLexer
  | TestCaseLexer => Some TestOrKeywordLexer
  | KeywordLexer => Some TestOrKeywordLexer
  | NestedBlockLexer => Some BlockLexer
  | ForLexer => Some NestedBlockLexer
  | WhileLexer => Some NestedBlockLexer
  | TryLexer => Some NestedBlockLexer
  | IfLexer => Some NestedBlockLexer
  | InlineIfLexer => Some BlockLexer
  end.

(** The method resolution order of a class of this file: the class, then
    its chain of bases (the longest chain has four classes). *)
Fixpoint mro_from (n : nat) (c : BlockClass) : list BlockClass :=
  c :: match n with
       | O => []
       | S n => match base c with Some b => mro_from n b | None => [] end
       end.

Definition mro (c : BlockClass) : list BlockClass := mro_from 4 c.

(** [type(self).__name__]. *)
Definition __name__ (c : BlockClass) : string :=
  match c with
  | BlockLexer => "BlockLexer"
  | FileLexer => "FileLexer"
  | SectionLexer => "SectionLexer"
  | SettingSectionLexer => "SettingSectionLexer"
  | VariableSectionLexer => "VariableSectionLexer"
  | TestCaseSectionLexer => "TestCaseSectionLexer"
  | TaskSectionLexer => "TaskSectionLexer"
  | KeywordSectionLexer => "KeywordSectionLexer"
  | CommentSectionLexer => "CommentSectionLexer"
  | ImplicitCommentSectionLexer => "ImplicitCommentSectionLexer"
  | ErrorSectionLexer => "ErrorSectionLexer"
  | TestOrKeywordLexer => "TestOrKeywordLexer"
  | TestCaseLexer => "TestCaseLexer"
  | KeywordLexer => "KeywordLexer"
  | NestedBlockLexer => "NestedBlockLexer"
  | ForLexer => "ForLexer"
  | WhileLexer => "WhileLexer"
  | TryLexer => "TryLexer"
  | IfLexer => "IfLexer"
  | InlineIfLexer => "InlineIfLexer"
  end.

(** ** Results of a call *)

(** The exceptions the code of this file can raise: the [TypeError] of
    [lexer_for], whose message is built from the name of the composite's
    class and from the statement, and the [IndexError] of [statement[0]]
    and [statement.pop(0)] on an empty statement. *)
Inductive Exception :=
  | TypeError (type_name : string) (statement : Statement)
  | IndexError.

Inductive Result (A : Type) :=
  | Ok (a : A)
  | Raise (e : Exception)
  | OutOfFuel.

Arguments Ok {A} a.
Arguments Raise {A} e.
Arguments OutOfFuel {A}.

Definition bind {A B : Type} (m : Result A) (k : A -> Result B) : Result B :=
  match m with
  | Ok a => k a
  | Raise e => Raise e
  | OutOfFuel => OutOfFuel
  end.

Notation "'do' x <- m ; k" := (bind m (fun x => k))
  (at level 10, x name, m at level 100, k at level 200).
Notation "'do' ' p <- m ; k" := (bind m (fun x => match x with p => k end))
  (at level 10, p pattern, m at level 100, k at level 200).

(** What a call of [input] hands back: nothing, the receiver itself, or the
    child that is last in the receiver's [lexers] when the call returns. *)
Inductive Returned :=
  | RetNone
  | RetSelf
  | RetLastChild.

(** ** The collaborators outside this file *)

(** Modelled from the spec: statementlexers.py, context.py and robot.utils
    are not part of the sources at hand. The statement lexers are the
    opaque leaf units of the capability contract, the contexts answer the
    section queries and produce the narrower contexts, and
    [normalize_whitespace] collapses white space. Each is taken as it comes:
    nothing is assumed of them here. *)
Record Collaborators (LexingContext : Type) := mkCollaborators {
  (** [handles] of the statement lexer classes *)
  statement_handles :
    StatementClass -> gmap nat Token -> Statement -> LexingContext -> bool;
  (** [Lexer.handles], inherited by the classes of this file that define none *)
  Lexer_handles :
    BlockClass -> gmap nat Token -> Statement -> LexingContext -> bool;
  (** [accepts_more] of a statement lexer that owns [statements] *)
  statement_accepts_more :
    StatementClass -> LexingContext -> list Statement ->
    gmap nat Token -> Statement -> bool;
  setting_section : LexingContext -> gmap nat Token -> Statement -> bool;
  variable_section : LexingContext -> gmap nat Token -> Statement -> bool;
  test_case_section : LexingContext -> gmap nat Token -> Statement -> bool;
  task_section : LexingContext -> gmap nat Token -> Statement -> bool;
  keyword_section : LexingContext -> gmap nat Token -> Statement -> bool;
  comment_section : LexingContext -> gmap nat Token -> Statement -> bool;
  test_case_context : LexingContext -> LexingContext;
  keyword_context : LexingContext -> LexingContext;
  normalize_whitespace : string -> string
}.

Arguments statement_handles {LexingContext}.
Arguments Lexer_handles {LexingContext}.
Arguments statement_accepts_more {LexingContext}.
Arguments setting_section {LexingContext}.
Arguments variable_section {LexingContext}.
Arguments test_case_section {LexingContext}.
Arguments task_section {LexingContext}.
Arguments keyword_section {LexingContext}.
Arguments comment_section {LexingContext}.
Arguments test_case_context {LexingContext}.
Arguments keyword_context {LexingContext}.
Arguments normalize_whitespace {LexingContext}.

(** ** Lexer objects *)

Section Model.

Context {LexingContext : Type} (E : Collaborators LexingContext).

(** The attributes of an instance of a class of this file. [_name_seen] is
    the class attribute of [TestOrKeywordLexer] until an instance sets it;
    [_block_level] is set by [NestedBlockLexer.__init__] only and stays [0]
    elsewhere, where nothing reads it. *)
Record BlockState (L : Type) := mkBlock {
  cls : BlockClass;
  ctx : LexingContext;
  lexers : list L;
  _name_seen : bool;
  _block_level : Z
}.

Arguments mkBlock {L}.
Arguments cls {L}.
Arguments ctx {L}.
Arguments lexers {L}.
Arguments _name_seen {L}.
Arguments _block_level {L}.

(** A lexer is a statement lexer, which records the statements handed to
    its [input], or an instance of a class of this file, which owns its
    children: no lexer is the child of two parents. *)
#[warnings="-register-all"]
Inductive Lexer :=
  | StatementNode (c : StatementClass) (sctx : LexingContext)
                  (statements : list Statement)
  | BlockNode (b : BlockState Lexer).

Definition with_lexers (self : BlockState Lexer) (ls : list Lexer)
  : BlockState Lexer :=
  mkBlock (cls self) (ctx self) ls (_name_seen self) (_block_level self).

Definition with_name_seen (self : BlockState Lexer) (b : bool)
  : BlockState Lexer :=
  mkBlock (cls self) (ctx self) (lexers self) b (_block_level self).

Definition with_block_level (self : BlockState Lexer) (n : Z)
  : BlockState Lexer :=
  mkBlock (cls self) (ctx self) (lexers self) (_name_seen self) n.

(** *** Method resolution *)

(** The first class of the resolution order that defines the method. *)
Definition resolve (defines : BlockClass -> bool) (c : BlockClass)
  : option BlockClass :=
  List.find defines (mro c).

Definition defines_accepts_more (c : BlockClass) : bool :=
  match c with
  | BlockLexer | SectionLexer | TestOrKeywordLexer | NestedBlockLexer
  | InlineIfLexer => true
  | _ => false
  end.

Definition defines_input (c : BlockClass) : bool :=
  match c with
  | BlockLexer | TestOrKeywordLexer | NestedBlockLexer | InlineIfLexer => true
  | _ => false
  end.

Definition defines_lex (c : BlockClass) : bool :=
  match c with
  | BlockLexer | FileLexer | TestCaseLexer => true
  | _ => false
  end.

Definition defines_lexer_classes (c : BlockClass) : bool :=
  match c with
  | SectionLexer | TestCaseLexer | KeywordLexer | NestedBlockLexer => false
  | _ => true
  end.

Definition defines_init (c : BlockClass) : bool :=
  match c with
  | BlockLexer | TestCaseLexer | KeywordLexer | NestedBlockLexer => true
  | _ => false
  end.

(** [isinstance(lexer, k)]. A class of this file is an instance of the
    classes of its resolution order. Modelled from the spec: the statement
    lexers are leaf units of distinct kinds, so a statement lexer is an
    instance of its own class only, and of no class of this file. *)
Definition isinstance (lexer : Lexer) (k : Class) : bool :=
  match lexer, k with
  | StatementNode c _ _, Stmt k => bool_decide (c = k)
  | BlockNode b, Blk k => existsb (fun c => bool_decide (c = k)) (mro (cls b))
  | _, _ => false
  end.

(** *** handles *)

(** The class method [handles]: the body the class defines here, and
    [Lexer.handles] for a class of this file that defines none. *)
Definition handles (c : Class) (h : gmap nat Token) (statement : Statement)
    (ctx : LexingContext) : bool :=
  match c with
  | Stmt s => statement_handles E s h statement ctx
  | Blk SettingSectionLexer => setting_section E ctx h statement
  | Blk VariableSectionLexer => variable_section E ctx h statement
  | Blk TestCaseSectionLexer => test_case_section E ctx h statement
  | Blk TaskSectionLexer => task_section E ctx h statement
  | Blk KeywordSectionLexer => keyword_section E ctx h statement
  | Blk CommentSectionLexer => comment_section E ctx h statement
  | Blk ImplicitCommentSectionLexer => true
  | Blk ErrorSectionLexer =>
      match statement with
      | [] => false
      | t :: _ => startswith_star (value (deref h t))
      end
  | Blk ForLexer => statement_handles E ForHeaderLexer h statement ctx
  | Blk WhileLexer => statement_handles E WhileHeaderLexer h statement ctx
  | Blk TryLexer => statement_handles E TryHeaderLexer h statement ctx
  | Blk IfLexer => statement_handles E IfHeaderLexer h statement ctx
  | Blk InlineIfLexer =>
      if (length statement <=? 2)%nat then false
      else statement_handles E InlineIfHeaderLexer h statement ctx
  | Blk b => Lexer_handles E b h statement ctx
  end.

(** *** lexer_classes *)

Definition lexer_classes (c : BlockClass) : list Class :=
  match resolve defines_lexer_classes c with
  | Some FileLexer =>
      [Blk SettingSectionLexer; Blk VariableSectionLexer;
       Blk TestCaseSectionLexer; Blk TaskSectionLexer;
       Blk KeywordSectionLexer; Blk CommentSectionLexer;
       Blk ErrorSectionLexer; Blk ImplicitCommentSectionLexer]
  | Some SettingSectionLexer => [Stmt SettingSectionHeaderLexer; Stmt SettingLexer]
  | Some VariableSectionLexer =>
      [Stmt VariableSectionHeaderLexer; Stmt VariableLexer]
  | Some TestCaseSectionLexer =>
      [Stmt TestCaseSectionHeaderLexer; Blk TestCaseLexer]
  | Some TaskSectionLexer => [Stmt TaskSectionHeaderLexer; Blk TestCaseLexer]
  | Some KeywordSectionLexer =>
      [Stmt KeywordSectionHeaderLexer; Blk KeywordLexer]
  | Some CommentSectionLexer => [Stmt CommentSectionHeaderLexer; Stmt CommentLexer]
  | Some ImplicitCommentSectionLexer => [Stmt ImplicitCommentLexer]
  | Some ErrorSectionLexer => [Stmt ErrorSectionHeaderLexer; Stmt CommentLexer]
  | Some TestOrKeywordLexer =>
      [Stmt TestOrKeywordSettingLexer; Stmt BreakLexer; Stmt ContinueLexer;
       Blk ForLexer; Blk InlineIfLexer; Blk IfLexer; Stmt ReturnLexer;
       Blk TryLexer; Blk WhileLexer; Stmt KeywordCallLexer]
  | Some ForLexer =>
      [Stmt ForHeaderLexer; Blk InlineIfLexer; Blk IfLexer; Blk TryLexer;
       Blk WhileLexer; Stmt EndLexer; Stmt ReturnLexer; Stmt ContinueLexer;
       Stmt BreakLexer; Stmt KeywordCallLexer]
  | Some WhileLexer =>
      [Stmt WhileHeaderLexer; Blk ForLexer; Blk InlineIfLexer; Blk IfLexer;
       Blk TryLexer; Stmt EndLexer; Stmt ReturnLexer; Stmt ContinueLexer;
       Stmt BreakLexer; Stmt KeywordCallLexer]
  | Some TryLexer =>
      [Stmt TryHeaderLexer; Stmt ExceptHeaderLexer; Stmt ElseHeaderLexer;
       Stmt FinallyHeaderLexer; Blk ForLexer; Blk InlineIfLexer; Blk IfLexer;
       Blk WhileLexer; Stmt EndLexer; Stmt ReturnLexer; Stmt BreakLexer;
       Stmt ContinueLexer; Stmt KeywordCallLexer]
  | Some IfLexer =>
      [Blk InlineIfLexer; Stmt IfHeaderLexer; Stmt ElseIfHeaderLexer;
       Stmt ElseHeaderLexer; Blk ForLexer; Blk TryLexer; Blk WhileLexer;
       Stmt EndLexer; Stmt ReturnLexer; Stmt ContinueLexer; Stmt BreakLexer;
       Stmt KeywordCallLexer]
  | Some InlineIfLexer =>
      [Stmt InlineIfHeaderLexer; Stmt ElseIfHeaderLexer; Stmt ElseHeaderLexer;
       Stmt ReturnLexer; Stmt ContinueLexer; Stmt BreakLexer;
       Stmt KeywordCallLexer]
  | _ => []
  end.

(** *** Construction *)

(** [cls(ctx)]: a statement lexer owns nothing yet; a class of this file
    starts with no children, and [TestCaseLexer] and [KeywordLexer] narrow
    the context they are given. *)
Definition construct (c : Class) (ctx : LexingContext) : Lexer :=
  match c with
  | Stmt s => StatementNode s ctx []
  | Blk b =>
      let ctx' :=
        match resolve defines_init b with
        | Some TestCaseLexer => test_case_context E ctx
        | Some KeywordLexer => keyword_context E ctx
        | _ => ctx
        end in
      BlockNode (mkBlock b ctx' [] false 0%Z)
  end.

(** *** accepts_more *)

Definition accepts_more (lexer : Lexer) (h : gmap nat Token)
    (statement : Statement) : Result bool :=
  match lexer with
  | StatementNode c sctx statements =>
      Ok (statement_accepts_more E c sctx statements h statement)
  | BlockNode self =>
      match resolve defines_accepts_more (cls self) with
      | Some SectionLexer =>
          match statement with
          | [] => Raise IndexError
          | t :: _ => Ok (negb (startswith_star (value (deref h t))))
          end
      | Some TestOrKeywordLexer =>
          match statement with
          | [] => Raise IndexError
          | t :: _ => Ok (negb (truthy (value (deref h t))))
          end
      | Some NestedBlockLexer => Ok (0 <? _block_level self)%Z
      | Some InlineIfLexer => Ok false
      | _ => Ok true
      end
  end.

(** *** lexer_for *)

(** The [for cls in self.lexer_classes()] loop: the first class that
    handles the statement. *)
Fixpoint first_handling (classes : list Class) (h : gmap nat Token)
    (statement : Statement) (ctx : LexingContext) : option Class :=
  match classes with
  | [] => None
  | c :: rest =>
      if handles c h statement ctx then Some c
      else first_handling rest h statement ctx
  end.

Definition lexer_for (self : BlockState Lexer) (h : gmap nat Token)
    (statement : Statement) : Result Lexer :=
  match first_handling (lexer_classes (cls self)) h statement (ctx self) with
  | Some c => Ok (construct c (ctx self))
  | None => Raise (TypeError (__name__ (cls self)) statement)
  end.

(** *** BlockLexer.input *)

(** [self.lexers[-1]] together with the children before it. *)
Fixpoint split_last {A : Type} (l : list A) : option (list A * A) :=
  match l with
  | [] => None
  | x :: l' =>
      match split_last l' with
      | None => Some ([], x)
      | Some (before, y) => Some (x :: before, y)
      end
  end.

(** The lexer a call of [input] returned, read in the receiver as the call
    left it. *)
Definition returned_lexer (self : BlockState Lexer) (r : Returned)
  : option Lexer :=
  match r with
  | RetNone => None
  | RetSelf => Some (BlockNode self)
  | RetLastChild => snd <$> split_last (lexers self)
  end.

Section Methods.

(** The dynamically dispatched [lexer.input(statement)] on a child. *)
Variable input : Lexer -> Statement -> gmap nat Token ->
                 Result (Lexer * gmap nat Token * Returned).

(** The child that takes the statement is the last one when it accepts
    more, and a new one from [lexer_for], appended, otherwise; the child's
    [input] then runs on the child in place. *)
Definition BlockLexer_input (self : BlockState Lexer) (statement : Statement)
    (h : gmap nat Token)
  : Result (BlockState Lexer * gmap nat Token * Returned) :=
  do '(before, lexer) <-
    match split_last (lexers self) with
    | Some (before, last) =>
        do more <- accepts_more last h statement;
        if more then Ok (before, last)
        else do lexer <- lexer_for self h statement; Ok (lexers self, lexer)
    | None => do lexer <- lexer_for self h statement; Ok (lexers self, lexer)
    end;
  do '(lexer', h', _) <- input lexer statement h;
  Ok (with_lexers self (before ++ [lexer']), h', RetLastChild).

(** *** TestOrKeywordLexer *)

Definition name_type (c : BlockClass) : TokenType :=
  match c with
  | TestCaseLexer => TESTCASE_NAME
  | KeywordLexer => KEYWORD_NAME
  | _ => NotImplemented
  end.

(** [while statement and not statement[0].value: statement.pop(0).type = None] *)
Fixpoint skip_indentation (statement : Statement) (h : gmap nat Token)
  : Statement * gmap nat Token :=
  match statement with
  | [] => ([], h)
  | t :: rest =>
      if truthy (value (deref h t)) then (statement, h)
      else skip_indentation rest (update (set_type None) t h)
  end.

(** The statement is a list the method changes in place: the result holds
    what is left of it. *)
Definition _handle_name_or_indentation (self : BlockState Lexer)
    (statement : Statement) (h : gmap nat Token)
  : Result (BlockState Lexer * Statement * gmap nat Token) :=
  if negb (_name_seen self) then
    match statement with
    | [] => Raise IndexError
    | token :: rest =>
        let h1 := update (set_type (Some (name_type (cls self)))) token h in
        let h2 := match rest with
                  | [] => h1
                  | _ :: _ => update set_add_eos_after token h1
                  end in
        Ok (with_name_seen self true, rest, h2)
    end
  else
    let '(rest, h') := skip_indentation statement h in
    Ok (self, rest, h').

Definition TestOrKeywordLexer_input (self : BlockState Lexer)
    (statement : Statement) (h : gmap nat Token)
  : Result (BlockState Lexer * gmap nat Token * Returned) :=
  do '(self, statement, h) <- _handle_name_or_indentation self statement h;
  match statement with
  | [] => Ok (self, h, RetNone)
  | _ :: _ =>
      do '(self, h, _) <- BlockLexer_input self statement h;
      Ok (self, h, RetNone)
  end.

(** *** NestedBlockLexer *)

Definition is_block_header (lexer : option Lexer) : bool :=
  match lexer with
  | Some l =>
      isinstance l (Stmt ForHeaderLexer) || isinstance l (Stmt IfHeaderLexer)
      || isinstance l (Stmt TryHeaderLexer)
      || isinstance l (Stmt WhileHeaderLexer)
  | None => false
  end.

Definition is_end (lexer : option Lexer) : bool :=
  match lexer with
  | Some l => isinstance l (Stmt EndLexer)
  | None => false
  end.

Definition NestedBlockLexer_input (self : BlockState Lexer)
    (statement : Statement) (h : gmap nat Token)
  : Result (BlockState Lexer * gmap nat Token * Returned) :=
  do '(self, h, r) <- BlockLexer_input self statement h;
  let lexer := returned_lexer self r in
  let self :=
    if is_block_header lexer
    then with_block_level self (_block_level self + 1)%Z else self in
  let self :=
    if is_end lexer
    then with_block_level self (_block_level self - 1)%Z else self in
  Ok (self, h, RetNone).

(** *** InlineIfLexer *)

(** What the generator [_split] does, in order: it sets a marker on a token
    or yields a part; the caller dispatches a part before the generator
    goes on. *)
Inductive SplitEvent :=
  | AddEosBefore (token : TokenRef)
  | AddEosAfter (token : TokenRef)
  | Yield (part : Statement).

(** [token is not statement[-1]] compares the objects. *)
Definition is_not (token last_token : TokenRef) : bool :=
  negb (Nat.eqb token last_token).

(** One round of [for token in statement], from the values of [current]
    and [expect_condition] to the new ones. *)
Definition split_step (h : gmap nat Token) (last_token : TokenRef)
    (st : Statement * bool) (token : TokenRef)
  : list SplitEvent * (Statement * bool) :=
  let '(current, expect_condition) := st in
  if expect_condition then
    ((if is_not token last_token then [AddEosAfter token] else [])
       ++ [Yield (current ++ [token])],
     ([], false))
  else if String.eqb (value (deref h token)) "IF" then
    ([], (current ++ [token], true))
  else if String.eqb (normalize_whitespace E (value (deref h token))) "ELSE IF"
  then
    ([AddEosBefore token; Yield current], ([token], true))
  else if String.eqb (value (deref h token)) "ELSE" then
    ([AddEosBefore token]
       ++ (if is_not token last_token then [AddEosAfter token] else [])
       ++ [Yield current; Yield [token]],
     ([], false))
  else
    ([], (current ++ [token], false)).

Fixpoint split_loop (h : gmap nat Token) (last_token : TokenRef)
    (tokens : list TokenRef) (st : Statement * bool) : list SplitEvent :=
  match tokens with
  | [] => [Yield (fst st)]
  | token :: rest =>
      let '(events, st') := split_step h last_token st token in
      events ++ split_loop h last_token rest st'
  end.

(** The texts of the tokens are never assigned to, so the generator reads
    them as they are when it starts. *)
Definition _split (h : gmap nat Token) (statement : Statement)
  : list SplitEvent :=
  split_loop h (List.last statement 0) statement ([], false).

(** [for part in self._split(statement): if part: super().input(part)] *)
Fixpoint run_split (events : list SplitEvent) (self : BlockState Lexer)
    (h : gmap nat Token) : Result (BlockState Lexer * gmap nat Token) :=
  match events with
  | [] => Ok (self, h)
  | AddEosBefore token :: events =>
      run_split events self (update set_add_eos_before token h)
  | AddEosAfter token :: events =>
      run_split events self (update set_add_eos_after token h)
  | Yield [] :: events => run_split events self h
  | Yield part :: events =>
      do '(self, h, _) <- BlockLexer_input self part h;
      run_split events self h
  end.

Definition InlineIfLexer_input (self : BlockState Lexer)
    (statement : Statement) (h : gmap nat Token)
  : Result (BlockState Lexer * gmap nat Token * Returned) :=
  do '(self, h) <- run_split (_split h statement) self h;
  Ok (self, h, RetSelf).

End Methods.

(** *** input *)

(** [lexer.input(statement)], with the method found along the resolution
    order of the receiver's class. A statement lexer records the statement.
    The recursion follows the calls into the children; [fuel] bounds their
    depth. *)
Fixpoint input (fuel : nat) (lexer : Lexer) (statement : Statement)
    (h : gmap nat Token) : Result (Lexer * gmap nat Token * Returned) :=
  match fuel with
  | O => OutOfFuel
  | S fuel =>
      match lexer with
      | StatementNode c sctx statements =>
          Ok (StatementNode c sctx (statements ++ [statement]), h, RetNone)
      | BlockNode self =>
          do '(self, h, r) <-
            match resolve defines_input (cls self) with
            | Some TestOrKeywordLexer =>
                TestOrKeywordLexer_input (input fuel) self statement h
            | Some NestedBlockLexer =>
                NestedBlockLexer_input (input fuel) self statement h
            | Some InlineIfLexer =>
                InlineIfLexer_input (input fuel) self statement h
            | _ => BlockLexer_input (input fuel) self statement h
            end;
          Ok (BlockNode self, h, r)
      end
  end.

(** *** lex *)

(** A call of [lex()] on a statement lexer, which assigns the types of the
    tokens of the statements it owns. *)
Inductive LexCall :=
  | Lex (c : StatementClass) (sctx : LexingContext)
        (statements : list Statement).

(** [lex()], as the calls it makes on the statement lexers, in order.
    [BlockLexer.lex] walks the children in order; [FileLexer.lex] and
    [TestCaseLexer.lex] are [_lex_with_priority], two walks of the
    children. *)
Fixpoint lex (lexer : Lexer) : list LexCall :=
  match lexer with
  | StatementNode c sctx statements => [Lex c sctx statements]
  | BlockNode self =>
      let _lex_with_priority priority :=
        flat_map (fun lexer => if isinstance lexer priority
                               then lex lexer else []) (lexers self)
        ++ flat_map (fun lexer => if negb (isinstance lexer priority)
                                  then lex lexer else []) (lexers self) in
      match resolve defines_lex (cls self) with
      | Some FileLexer => _lex_with_priority (Blk SettingSectionLexer)
      | Some TestCaseLexer => _lex_with_priority (Stmt TestOrKeywordSettingLexer)
      | _ => flat_map lex (lexers self)
      end
  end.

End Model.

Arguments BlockState : clear implicits.
Arguments mkBlock {LexingContext L}.
Arguments cls {LexingContext L}.
Arguments ctx {LexingContext L}.
Arguments lexers {LexingContext L}.
Arguments _name_seen {LexingContext L}.
Arguments _block_level {LexingContext L}.

(** ** A sample of collaborators *)

(** Concrete collaborators to run the lexers on documents: the statement
    lexers recognise their statements by the text of the first token, the
    context recognises the section headers by their full text, and white
    space is collapsed run by run. *)
Inductive SampleContext :=
  | FileCtx
  | TestCaseCtx
  | KeywordCtx.

Definition is_space (c : ascii) : bool :=
  let n := nat_of_ascii c in
  (Nat.eqb n 32 || (Nat.leb 9 n && Nat.leb n 13))%bool.

Fixpoint collapse_whitespace (s : string) : string :=
  match s with
  | EmptyString => EmptyString
  | String c s' =>
      if is_space c then
        match s' with
        | String c' _ =>
            if is_space c' then collapse_whitespace s'
            else String " "%char (collapse_whitespace s')
        | EmptyString => String " "%char EmptyString
        end
      else String c (collapse_whitespace s')
  end.

Definition first_value (h : gmap nat Token) (statement : Statement) : string :=
  match statement with
  | [] => ""
  | t :: _ => value (deref h t)
  end.

Definition first_is (text : string) (h : gmap nat Token)
    (statement : Statement) : bool :=
  String.eqb (first_value h statement) text.

Definition sample_statement_handles (c : StatementClass) (h : gmap nat Token)
    (statement : Statement) (ctx : SampleContext) : bool :=
  match c with
  | SettingSectionHeaderLexer | VariableSectionHeaderLexer
  | TestCaseSectionHeaderLexer | TaskSectionHeaderLexer
  | KeywordSectionHeaderLexer | CommentSectionHeaderLexer
  | ErrorSectionHeaderLexer => startswith_star (first_value h statement)
  | TestOrKeywordSettingLexer => String.prefix "[" (first_value h statement)
  | ForHeaderLexer => first_is "FOR" h statement
  | IfHeaderLexer => first_is "IF" h statement && (length statement <=? 2)%nat
  | InlineIfHeaderLexer => first_is "IF" h statement
  | ElseIfHeaderLexer =>
      String.eqb (collapse_whitespace (first_value h statement)) "ELSE IF"
  | ElseHeaderLexer => first_is "ELSE" h statement
  | TryHeaderLexer => first_is "TRY" h statement
  | ExceptHeaderLexer => first_is "EXCEPT" h statement
  | FinallyHeaderLexer => first_is "FINALLY" h statement
  | WhileHeaderLexer => first_is "WHILE" h statement
  | EndLexer => first_is "END" h statement
  | ReturnLexer => first_is "RETURN" h statement
  | ContinueLexer => first_is "CONTINUE" h statement
  | BreakLexer => first_is "BREAK" h statement
  | SettingLexer | VariableLexer | CommentLexer | ImplicitCommentLexer
  | KeywordCallLexer => true
  end.

Definition sample_collaborators : Collaborators SampleContext :=
  {| statement_handles := sample_statement_handles;
     Lexer_handles := fun _ _ _ _ => true;
     statement_accepts_more := fun _ _ _ _ _ => false;
     setting_section := fun _ => first_is "*** Settings ***";
     variable_section := fun _ => first_is "*** Variables ***";
     test_case_section := fun _ => first_is "*** Test Cases ***";
     task_section := fun _ => first_is "*** Tasks ***";
     keyword_section := fun _ => first_is "*** Keywords ***";
     comment_section := fun _ => first_is "*** Comments ***";
     test_case_context := fun _ => TestCaseCtx;
     keyword_context := fun _ => KeywordCtx;
     normalize_whitespace := collapse_whitespace |}.

(** The store that holds fresh tokens with the given texts, numbered from
    [start]. *)
Fixpoint tokens_from (start : nat) (texts : list string) : gmap nat Token :=
  match texts with
  | [] => ∅
  | text :: texts =>
      <[start := mkToken text None false false]> (tokens_from (S start) texts)
  end.

(** A driver that feeds the statements, one at a time, to a lexer. *)
Fixpoint feed {LexingContext : Type} (E : Collaborators LexingContext)
    (fuel : nat) (lexer : Lexer) (statements : list Statement)
    (h : gmap nat Token) : Result (Lexer * gmap nat Token) :=
  match statements with
  | [] => Ok (lexer, h)
  | statement :: statements =>
      do '(lexer, h, _) <- input E fuel lexer statement h;
      feed E fuel lexer statements h
  end.

(** ** The loop of [_split], cut at a token *)

(** The values of [current] and [expect_condition] after the loop has gone
    through [tokens], and what the generator did on the way. *)
Fixpoint split_state {LexingContext : Type} (E : Collaborators LexingContext)
    (h : gmap nat Token) (last_token : TokenRef) (tokens : list TokenRef)
    (st : Statement * bool) : Statement * bool :=
  match tokens with
  | [] => st
  | token :: rest =>
      split_state E h last_token rest (snd (split_step E h last_token st token))
  end.

Fixpoint split_events {LexingContext : Type} (E : Collaborators LexingContext)
    (h : gmap nat Token) (last_token : TokenRef) (tokens : list TokenRef)
    (st : Statement * bool) : list SplitEvent :=
  match tokens with
  | [] => []
  | token :: rest =>
      fst (split_step E h last_token st token)
      ++ split_events E h last_token rest
           (snd (split_step E h last_token st token))
  end.

(** ** Priority lexing, as the specification words it *)

(** [lex()] runs first on every child of the priority kind, then on all the
    remaining children, each group in the order of the list. *)
Definition priority_first {LexingContext : Type} (priority : Class)
    (children : list (@Lexer LexingContext)) : list LexCall :=
  flat_map lex (List.filter (fun child => isinstance child priority) children)
  ++ flat_map lex
       (List.filter (fun child => negb (isinstance child priority)) children).

(** ** Fuel *)

(** The depth of the tree of lexers under a lexer. *)
Fixpoint height {LexingContext : Type} (lexer : @Lexer LexingContext) : nat :=
  match lexer with
  | StatementNode _ _ _ => 0
  | BlockNode self => S (list_max (map height (lexers self)))
  end.

Definition is_statement_lexer {LexingContext : Type}
    (lexer : @Lexer LexingContext) : bool :=
  match lexer with
  | StatementNode _ _ _ => true
  | BlockNode _ => false
  end.

(** The trees the lexers build: the children of an [InlineIfLexer] are
    statement lexers, as its [lexer_classes] has no other class. *)
Fixpoint well_formed {LexingContext : Type} (lexer : @Lexer LexingContext)
  : bool :=
  match lexer with
  | StatementNode _ _ _ => true
  | BlockNode self =>
      forallb well_formed (lexers self)
      && (if decide (cls self = InlineIfLexer)
          then forallb is_statement_lexer (lexers self) else true)
  end.

(** The depth of the calls of [input] under a new instance of a class that
    handles the statement it is given. *)
Definition rank_handled (c : Class) : nat :=
  match c with
  | Stmt _ => 1
  | Blk (BlockLexer | SectionLexer | NestedBlockLexer) => 1
  | Blk InlineIfLexer => 2
  | Blk (ForLexer | WhileLexer | TryLexer | IfLexer) => 3
  | Blk (TestOrKeywordLexer | TestCaseLexer | KeywordLexer) => 4
  | Blk FileLexer => 6
  | Blk _ => 5
  end.

(** Fuel that is enough for a call of [input] on a lexer. *)
Definition enough_fuel {LexingContext : Type} (lexer : @Lexer LexingContext)
  : nat :=
  height lexer + 5.

(** [r1] is the result [r2], unless the fuel ran out before. *)
Definition fuel_le {A : Type} (r1 r2 : Result A) : Prop :=
  r1 = OutOfFuel \/ r1 = r2.

(** ** A nested block lexer under composite dispatch *)

(** The states of a FOR, WHILE, TRY or IF lexer that a composite feeds: it
    is constructed for a statement its [handles] accepts and gets that
    statement, and it gets a further statement only when its
    [accepts_more] says yes. *)
Inductive Dispatched {LexingContext : Type} (E : Collaborators LexingContext)
  : BlockState LexingContext (@Lexer LexingContext) -> Prop :=
  | Dispatched_first (c : BlockClass) (ctx0 : LexingContext)
      (statement : Statement) (h : gmap nat Token) (fuel : nat)
      self' h' r :
      c = ForLexer \/ c = WhileLexer \/ c = TryLexer \/ c = IfLexer ->
      handles E (Blk c) h statement ctx0 = true ->
      input E fuel (construct E (Blk c) ctx0) statement h
        = Ok (BlockNode self', h', r) ->
      Dispatched E self'
  | Dispatched_next self (statement : Statement) (h : gmap nat Token)
      (fuel : nat) self' h' r :
      Dispatched E self ->
      accepts_more E (BlockNode self) h statement = Ok true ->
      input E fuel (BlockNode self) statement h = Ok (BlockNode self', h', r) ->
      Dispatched E self'.

(** ** Sample documents *)

(** A document with a test case, an unknown section and a keyword; the
    tokens are numbered in reading order. *)
Definition sample_texts : list string :=
  ["*** Test Cases ***";
   "MyTest"; ""; "Log"; "hi";
   ""; "FOR"; "x"; "IN"; "a";
   ""; "Log"; "x";
   ""; "END";
   ""; "[Tags]"; "t";
   "*** Bogus ***";
   "junk";
   "*** Keywords ***";
   "Kw";
   ""; "IF"; "c"; "Log"; "ELSE  IF"; "d"; "Foo"; "ELSE"; "Bar"].

Definition sample_tokens : gmap nat Token := tokens_from 0 sample_texts.

Definition sample_statements : list Statement :=
  [[0]; [1; 2; 3; 4]; [5; 6; 7; 8; 9]; [10; 11; 12]; [13; 14]; [15; 16; 17];
   [18]; [19]; [20]; [21]; [22; 23; 24; 25; 26; 27; 28; 29; 30]].

Abbreviation SampleBlock := (BlockState SampleContext (@Lexer SampleContext)).

(** A file lexer that has seen nothing yet. *)
Definition sample_file : SampleBlock :=
  mkBlock FileLexer FileCtx [] false 0.

(** The test case section after its header. *)
Definition sample_section : SampleBlock :=
  mkBlock TestCaseSectionLexer FileCtx
          [StatementNode TestCaseSectionHeaderLexer FileCtx [[0]]] false 0.

(** The test case lexer before its first statement and after the whole
    test case. *)
Definition sample_test_new : SampleBlock :=
  mkBlock TestCaseLexer TestCaseCtx [] false 0.

Definition sample_for_closed : SampleBlock :=
  mkBlock ForLexer TestCaseCtx
          [StatementNode ForHeaderLexer TestCaseCtx [[6; 7; 8; 9]];
           StatementNode KeywordCallLexer TestCaseCtx [[11; 12]];
           StatementNode EndLexer TestCaseCtx [[14]]] false 0.

Definition sample_test : SampleBlock :=
  mkBlock TestCaseLexer TestCaseCtx
          [StatementNode KeywordCallLexer TestCaseCtx [[2; 3; 4]];
           BlockNode sample_for_closed;
           StatementNode TestOrKeywordSettingLexer TestCaseCtx [[16; 17]]]
          true 0.

(** The FOR lexer after the header and after the first statement of the
    body. *)
Definition sample_for_header : SampleBlock :=
  mkBlock ForLexer TestCaseCtx
          [StatementNode ForHeaderLexer TestCaseCtx [[6; 7; 8; 9]]] false 1.

Definition sample_for_body : SampleBlock :=
  mkBlock ForLexer TestCaseCtx
          [StatementNode ForHeaderLexer TestCaseCtx [[6; 7; 8; 9]];
           StatementNode KeywordCallLexer TestCaseCtx [[11; 12]]] false 1.

(** A keyword with a call and then a setting. *)
Definition keyword_texts : list string :=
  ["Kw"; ""; "Log"; "hi"; ""; "[Arguments]"; "${x}"].

Definition keyword_tokens : gmap nat Token := tokens_from 0 keyword_texts.

Definition keyword_statements : list Statement :=
  [[0]; [1; 2; 3]; [4; 5; 6]].

Definition sample_keyword : SampleBlock :=
  mkBlock KeywordLexer KeywordCtx
          [StatementNode KeywordCallLexer KeywordCtx [[2; 3]];
           StatementNode TestOrKeywordSettingLexer KeywordCtx [[5; 6]]]
          true 0.

(** An inline IF inside a FOR block: the statement [IF c Log hi] comes
    after the header [FOR x IN a]. *)
Definition inline_texts : list string :=
  ["FOR"; "x"; "IN"; "a"; "IF"; "c"; "Log"; "hi"].

Definition inline_tokens : gmap nat Token := tokens_from 0 inline_texts.

Definition inline_for_header : SampleBlock :=
  mkBlock ForLexer TestCaseCtx
          [StatementNode ForHeaderLexer TestCaseCtx [[0; 1; 2; 3]]] false 1.

Definition inline_if : SampleBlock :=
  mkBlock InlineIfLexer TestCaseCtx
          [StatementNode InlineIfHeaderLexer TestCaseCtx [[4; 5]];
           StatementNode KeywordCallLexer TestCaseCtx [[6; 7]]] false 0.

Definition inline_for_after : SampleBlock :=
  mkBlock ForLexer TestCaseCtx
          [StatementNode ForHeaderLexer TestCaseCtx [[0; 1; 2; 3]];
           BlockNode inline_if] false 1.

(** Collaborators whose classes handle nothing. *)
Definition deaf_collaborators : Collaborators SampleContext :=
  {| statement_handles := fun _ _ _ _ => false;
     Lexer_handles := fun _ _ _ _ => false;
     statement_accepts_more := fun _ _ _ _ _ => false;
     setting_section := fun _ _ _ => false;
     variable_section := fun _ _ _ => false;
     test_case_section := fun _ _ _ => false;
     task_section := fun _ _ _ => false;
     keyword_section := fun _ _ _ => false;
     comment_section := fun _ _ _ => false;
     test_case_context := fun _ => TestCaseCtx;
     keyword_context := fun _ => KeywordCtx;
     normalize_whitespace := collapse_whitespace |}.

Definition sample_comment_section : SampleBlock :=
  mkBlock CommentSectionLexer FileCtx [] false 0.

(** ** What the lexers own *)

(** The parts a run of [_split] yields, in order. *)
Fixpoint yielded (events : list SplitEvent) : list Statement :=
  match events with
  | [] => []
  | Yield part :: events => part :: yielded events
  | _ :: events => yielded events
  end.

(** The tokens of the statements that the statement lexers under a lexer
    have recorded, in the order of the tree. *)
Fixpoint tokens_of {LexingContext : Type} (lexer : @Lexer LexingContext)
  : list TokenRef :=
  match lexer with
  | StatementNode _ _ statements => concat statements
  | BlockNode self => flat_map tokens_of (lexers self)
  end.

(** The statement lexers under a lexer, in the order of the tree, each as
    the call of [lex] it is due. *)
Fixpoint leaves {LexingContext : Type} (lexer : @Lexer LexingContext)
  : list LexCall :=
  match lexer with
  | StatementNode c sctx statements => [Lex c sctx statements]
  | BlockNode self => flat_map leaves (lexers self)
  end.

(** From the store [h] to the store [h'], no token has changed its text,
    and no token outside [statement] has changed at all. *)
Definition touches_only (statement : Statement) (h h' : gmap nat Token)
  : Prop :=
  (forall t, value (deref h' t) = value (deref h t))
  /\ (forall t, ~ In t statement -> deref h' t = deref h t).

(** The token [t] was taken off a statement between the stores [h] and
    [h']: it was given the name type of a class, or it is a blank cell
    whose type was cleared. *)
Definition taken_off (h h' : gmap nat Token) (t : TokenRef) : Prop :=
  (exists c, type (deref h' t) = Some (name_type c))
  \/ (value (deref h t) = "" /\ type (deref h' t) = None).

(** From [h] to [h'] the texts are kept, and a type is changed only on a
    token that was taken off. *)
Definition retypes_taken_only (h h' : gmap nat Token) : Prop :=
  forall t,
    value (deref h' t) = value (deref h t)
    /\ (type (deref h' t) = type (deref h t) \/ taken_off h h' t).

(** The list [l'] is the list [l] with its last element possibly changed
    and with elements possibly added at the end: all elements of [l] but
    the last are where they were, and nothing was removed. *)
Definition appended_to {A : Type} (l l' : list A) : Prop :=
  (exists rest, l' = removelast l ++ rest) /\ length l <= length l'.

(** The parts of a run of [_split] that [InlineIfLexer.input] dispatches:
    the ones that are not empty. *)
Definition dispatched_parts (events : list SplitEvent) : list Statement :=
  List.filter (fun part => match part with [] => false | _ :: _ => true end)
              (yielded events).

(** From the store [h] to the store [h'], no marker that was set has been
    taken back. *)
Definition keeps_markers (h h' : gmap nat Token) : Prop :=
  forall t,
    (_add_eos_before (deref h t) = true -> _add_eos_before (deref h' t) = true)
    /\ (_add_eos_after (deref h t) = true
        -> _add_eos_after (deref h' t) = true).

(** ** More sample states *)

(** The test case lexer after [MyTest  Log  hi], and the store then. *)
Definition sample_test_named : SampleBlock :=
  mkBlock TestCaseLexer TestCaseCtx
          [StatementNode KeywordCallLexer TestCaseCtx [[2; 3; 4]]] true 0.

Definition named_tokens : gmap nat Token :=
  update set_add_eos_after 1
    (update (set_type (Some TESTCASE_NAME)) 1 sample_tokens).

Definition sample_section_after : SampleBlock :=
  mkBlock TestCaseSectionLexer FileCtx
          [StatementNode TestCaseSectionHeaderLexer FileCtx [[0]];
           BlockNode sample_test_named] false 0.

(** A file with a test case section and then a keyword section. *)
Definition sample_keyword_section : SampleBlock :=
  mkBlock KeywordSectionLexer FileCtx
          [StatementNode KeywordSectionHeaderLexer FileCtx [[20]]] false 0.

Definition sample_file_two : SampleBlock :=
  mkBlock FileLexer FileCtx
          [BlockNode sample_section; BlockNode sample_keyword_section] false 0.

(** The inline IF of the sample keyword, before and after its statement. *)
Definition inline_new : SampleBlock :=
  mkBlock InlineIfLexer KeywordCtx [] false 0.

Definition inline_done : SampleBlock :=
  mkBlock InlineIfLexer KeywordCtx
          [StatementNode InlineIfHeaderLexer KeywordCtx [[23; 24]];
           StatementNode KeywordCallLexer KeywordCtx [[25]];
           StatementNode ElseIfHeaderLexer KeywordCtx [[26; 27]];
           StatementNode KeywordCallLexer KeywordCtx [[28]];
           StatementNode ElseHeaderLexer KeywordCtx [[29]];
           StatementNode KeywordCallLexer KeywordCtx [[30]]] false 0.

Definition inline_done_tokens : gmap nat Token :=
  update set_add_eos_after 29
    (update set_add_eos_before 29
       (update set_add_eos_after 27
          (update set_add_eos_before 26
             (update set_add_eos_after 24 sample_tokens)))).

(** * Properties *)

Section Properties.

Context {LexingContext : Type} (E : Collaborators LexingContext).

Local Abbreviation Block := (BlockState LexingContext (@Lexer LexingContext)).

Implicit Types (self : Block) (lexer : @Lexer LexingContext).
Implicit Types (h : gmap nat Token) (statement : Statement).

(** ** Generalities *)

Lemma split_last_snoc {A : Type} (l : list A) (x : A) :
  split_last (l ++ [x]) = Some (l, x).
Proof.
  induction l as [|y l IH]; simpl; [reflexivity|].
  rewrite IH. reflexivity.
Qed.

Lemma split_last_Some {A : Type} (l before : list A) (x : A) :
  split_last l = Some (before, x) -> l = before ++ [x].
Proof.
  revert before x. induction l as [|y l IH]; intros before x; simpl.
  - discriminate.
  - destruct (split_last l) as [[b z]|] eqn:Hl.
    + intros [= <- <-]. rewrite (IH b z eq_refl). reflexivity.
    + intros [= <- <-]. destruct l as [|w l]; [reflexivity|].
      simpl in Hl. destruct (split_last l) as [[? ?]|]; discriminate.
Qed.

Lemma split_last_None {A : Type} (l : list A) :
  split_last l = None -> l = [].
Proof.
  destruct l as [|x l]; [reflexivity|].
  simpl. destruct (split_last l) as [[? ?]|]; discriminate.
Qed.

Lemma bind_Ok {A B : Type} (m : Result A) (k : A -> Result B) (b : B) :
  bind m k = Ok b -> exists a, m = Ok a /\ k a = Ok b.
Proof. destruct m; simpl; [eauto | discriminate | discriminate]. Qed.

Lemma __name___inj (c1 c2 : BlockClass) : __name__ c1 = __name__ c2 -> c1 = c2.
Proof. destruct c1, c2; simpl; intros H; first [reflexivity | discriminate H]. Qed.

(** The scan of [lexer_for] finds nothing exactly when no class handles
    the statement. *)
Lemma first_handling_None (classes : list Class) h statement
    (ctx0 : LexingContext) :
  first_handling E classes h statement ctx0 = None <->
  Forall (fun c => handles E c h statement ctx0 = false) classes.
Proof.
  induction classes as [|c classes IH]; simpl.
  - split; [constructor | reflexivity].
  - destruct (handles E c h statement ctx0) eqn:Hc.
    + split; [discriminate|]. intros H. inversion H; congruence.
    + rewrite IH. split; [by constructor | by inversion 1].
Qed.

(** It finds the first class that handles the statement. *)
Lemma first_handling_Some (classes : list Class) h statement
    (ctx0 : LexingContext) (c : Class) :
  first_handling E classes h statement ctx0 = Some c <->
  exists skipped rest,
    classes = skipped ++ c :: rest
    /\ Forall (fun k => handles E k h statement ctx0 = false) skipped
    /\ handles E c h statement ctx0 = true.
Proof.
  induction classes as [|k classes IH]; simpl.
  - split; [discriminate|]. intros (skipped & rest & H & _).
    destruct skipped; discriminate.
  - destruct (handles E k h statement ctx0) eqn:Hk.
    + split.
      * intros [= <-]. exists [], classes. by repeat split.
      * intros (skipped & rest & Hcl & Hsk & Hc).
        destruct skipped as [|k' skipped]; simpl in Hcl.
        -- congruence.
        -- injection Hcl as <- _. inversion Hsk; congruence.
    + rewrite IH. split.
      * intros (skipped & rest & -> & Hsk & Hc).
        exists (k :: skipped), rest. repeat split; [by constructor | done].
      * intros (skipped & rest & Hcl & Hsk & Hc).
        destruct skipped as [|k' skipped]; simpl in Hcl.
        -- injection Hcl as <- _. congruence.
        -- injection Hcl as <- ->. exists skipped, rest.
           repeat split; [by inversion Hsk | done].
Qed.

(** ** What a call of input leaves unchanged *)

Section Method_facts.

Variable input : @Lexer LexingContext -> Statement -> gmap nat Token ->
                 Result (@Lexer LexingContext * gmap nat Token * Returned).

(** When [BlockLexer.input] returns, one child has run [input]: the last
    child, which accepted more, or a new one from [lexer_for]. That child
    is last in the result and the rest of the composite is as it was. *)
Lemma BlockLexer_input_Ok self statement h self' h' r :
  BlockLexer_input E input self statement h = Ok (self', h', r) ->
  r = RetLastChild
  /\ cls self' = cls self /\ ctx self' = ctx self
  /\ _name_seen self' = _name_seen self
  /\ _block_level self' = _block_level self
  /\ exists before child child' r',
       lexers self' = before ++ [child']
       /\ input child statement h = Ok (child', h', r')
       /\ ((lexers self = before ++ [child]
            /\ accepts_more E child h statement = Ok true)
           \/ (lexers self = before
               /\ (lexers self = []
                   \/ exists before' last,
                        lexers self = before' ++ [last]
                        /\ accepts_more E last h statement = Ok false)
               /\ lexer_for E self h statement = Ok child)).
Proof.
  intros Hok. unfold BlockLexer_input in Hok.
  destruct (split_last (lexers self)) as [[before last]|] eqn:Hsl.
  - apply split_last_Some in Hsl.
    destruct (accepts_more E last h statement) as [[|]| |] eqn:Hacc;
      simpl in Hok; try discriminate.
    + destruct (input last statement h) as [[[last' h1] r1]| |] eqn:Hi;
        simpl in Hok; try discriminate.
      injection Hok as <- <- <-. repeat split.
      exists before, last, last', r1. simpl. repeat split; [done | by left].
    + destruct (lexer_for E self h statement) as [new| |] eqn:Hfor;
        simpl in Hok; try discriminate.
      destruct (input new statement h) as [[[new' h1] r1]| |] eqn:Hi;
        simpl in Hok; try discriminate.
      injection Hok as <- <- <-. repeat split.
      exists (lexers self), new, new', r1. simpl.
      repeat split; [done|]. right. repeat split. right. eauto.
  - apply split_last_None in Hsl. simpl in Hok.
    destruct (lexer_for E self h statement) as [new| |] eqn:Hfor;
      simpl in Hok; try discriminate.
    destruct (input new statement h) as [[[new' h1] r1]| |] eqn:Hi;
      simpl in Hok; try discriminate.
    injection Hok as <- <- <-. repeat split.
    exists (lexers self), new, new', r1. simpl.
    repeat split; [done|]. right. repeat split. by left.
Qed.

Lemma run_split_Ok (events : list SplitEvent) self h self' h' :
  run_split E input events self h = Ok (self', h') ->
  cls self' = cls self /\ ctx self' = ctx self
  /\ _name_seen self' = _name_seen self
  /\ _block_level self' = _block_level self.
Proof.
  revert self h. induction events as [|ev events IH]; intros self h; simpl.
  - intros [= <- <-]. by repeat split.
  - destruct ev as [t | t | [|t part]]; try apply IH.
    intros Hok. apply bind_Ok in Hok as ([[self1 h1] r1] & H1 & H2).
    apply BlockLexer_input_Ok in H1 as (_ & Hc & Hx & Hn & Hb & _).
    apply IH in H2 as (Hc' & Hx' & Hn' & Hb'). repeat split; congruence.
Qed.

End Method_facts.

(** [input] returns a lexer of the same class, bound to the same context,
    and says what it hands back: [BlockLexer.input] the child,
    [InlineIfLexer.input] the receiver, the others nothing. *)
Lemma input_BlockNode_Ok (fuel : nat) self statement h lexer' h' r :
  input E fuel (BlockNode self) statement h = Ok (lexer', h', r) ->
  exists self',
    lexer' = BlockNode self' /\ cls self' = cls self /\ ctx self' = ctx self
    /\ r = match resolve defines_input (cls self) with
           | Some TestOrKeywordLexer | Some NestedBlockLexer => RetNone
           | Some InlineIfLexer => RetSelf
           | _ => RetLastChild
           end.
Proof.
  destruct fuel as [|fuel]; simpl; [discriminate|].
  intros Hok. apply bind_Ok in Hok as ([[self' h1] r1] & Hm & [= <- <- <-]).
  exists self'. split; [reflexivity|].
  destruct (resolve defines_input (cls self)) as [[]|] eqn:Hres;
    try (apply BlockLexer_input_Ok in Hm as (-> & Hc & Hx & _); by repeat split).
  - unfold TestOrKeywordLexer_input in Hm.
    apply bind_Ok in Hm as ([[self1 st1] h2] & Hn & Hm).
    assert (cls self1 = cls self /\ ctx self1 = ctx self) as [Hc1 Hx1].
    { unfold _handle_name_or_indentation in Hn.
      destruct (negb (_name_seen self)).
      - destruct statement; [discriminate|]. by injection Hn as <- _ _.
      - destruct (skip_indentation statement h). by injection Hn as <- _ _. }
    destruct st1 as [|t st1].
    + injection Hm as <- _ <-. by repeat split.
    + apply bind_Ok in Hm as ([[self2 h3] r2] & Hb & [= <- _ <-]).
      apply BlockLexer_input_Ok in Hb as (_ & Hc & Hx & _).
      repeat split; congruence.
  - unfold NestedBlockLexer_input in Hm.
    apply bind_Ok in Hm as ([[self1 h2] r2] & Hb & [= <- _ <-]).
    apply BlockLexer_input_Ok in Hb as (_ & Hc & Hx & _).
    repeat split;
      destruct (is_block_header _), (is_end _); simpl; congruence.
  - unfold InlineIfLexer_input in Hm.
    apply bind_Ok in Hm as ([self1 h2] & Hr & [= <- _ <-]).
    apply run_split_Ok in Hr as (Hc & Hx & _). by repeat split.
Qed.

(** [NestedBlockLexer.input]: the dispatch of [BlockLexer.input], then the
    block level goes up by one when the child that took the statement is a
    FOR, IF, TRY or WHILE header, and down by one when it is an END. *)
Lemma NestedBlockLexer_input_Ok (fuel : nat) self statement h lexer' h' r :
  resolve defines_input (cls self) = Some NestedBlockLexer ->
  input E fuel (BlockNode self) statement h = Ok (lexer', h', r) ->
  exists self' before child child' r' fuel',
    lexer' = BlockNode self' /\ fuel = S fuel'
    /\ lexers self' = before ++ [child']
    /\ input E fuel' child statement h = Ok (child', h', r')
    /\ ((lexers self = before ++ [child]
         /\ accepts_more E child h statement = Ok true)
        \/ (lexers self = before
            /\ (lexers self = []
                \/ exists before' last,
                     lexers self = before' ++ [last]
                     /\ accepts_more E last h statement = Ok false)
            /\ lexer_for E self h statement = Ok child))
    /\ _block_level self'
       = (_block_level self
          + (if is_block_header (Some child') then 1 else 0)
          - (if is_end (Some child') then 1 else 0))%Z.
Proof.
  intros Hres. destruct fuel as [|fuel]; simpl; [discriminate|].
  rewrite Hres. intros Hok.
  apply bind_Ok in Hok as ([[self1 h1] r1] & Hm & [= <- <- <-]).
  unfold NestedBlockLexer_input in Hm.
  apply bind_Ok in Hm as ([[self2 h2] r2] & Hb & Hm).
  apply BlockLexer_input_Ok in Hb
    as (-> & _ & _ & _ & Hlvl & before & child & child' & r' & Hl & Hi & Hcase).
  cbv beta iota zeta in Hm. unfold returned_lexer in Hm.
  rewrite Hl, split_last_snoc in Hm.
  change (snd <$> Some (before, child')) with (Some child') in Hm.
  destruct (is_block_header (Some child')) eqn:Hh,
           (is_end (Some child')) eqn:He;
    injection Hm as <- <- _;
    eexists _, before, child, child', r', fuel;
    (split; [reflexivity|]); repeat split;
    first [done | simpl; exact Hl
          | simpl in Hh, He; simpl; rewrite Hh, He; simpl; lia].
Qed.

(** ** More fuel changes no result *)

Lemma fuel_le_refl {A : Type} (r : Result A) : fuel_le r r.
Proof. by right. Qed.

Lemma fuel_le_bind {A B : Type} (m1 m2 : Result A) (k1 k2 : A -> Result B) :
  fuel_le m1 m2 -> (forall a, fuel_le (k1 a) (k2 a)) ->
  fuel_le (bind m1 k1) (bind m2 k2).
Proof.
  intros [-> | ->] Hk; [by left|]. destruct m2; simpl; [apply Hk | | ]; by right.
Qed.

Section Fuel_methods.

Variables input1 input2 :
  @Lexer LexingContext -> Statement -> gmap nat Token ->
  Result (@Lexer LexingContext * gmap nat Token * Returned).

Hypothesis input_le :
  forall lexer statement h,
    fuel_le (input1 lexer statement h) (input2 lexer statement h).

Lemma BlockLexer_input_le self statement h :
  fuel_le (BlockLexer_input E input1 self statement h)
          (BlockLexer_input E input2 self statement h).
Proof.
  unfold BlockLexer_input. apply fuel_le_bind; [apply fuel_le_refl|].
  intros [before lexer]. apply fuel_le_bind; [apply input_le|].
  intros [[lexer' h'] r]. apply fuel_le_refl.
Qed.

Lemma TestOrKeywordLexer_input_le self statement h :
  fuel_le (TestOrKeywordLexer_input E input1 self statement h)
          (TestOrKeywordLexer_input E input2 self statement h).
Proof.
  unfold TestOrKeywordLexer_input. apply fuel_le_bind; [apply fuel_le_refl|].
  intros [[self1 statement1] h1]. destruct statement1; [apply fuel_le_refl|].
  apply fuel_le_bind; [apply BlockLexer_input_le|].
  intros [[self2 h2] r]. apply fuel_le_refl.
Qed.

Lemma NestedBlockLexer_input_le self statement h :
  fuel_le (NestedBlockLexer_input E input1 self statement h)
          (NestedBlockLexer_input E input2 self statement h).
Proof.
  unfold NestedBlockLexer_input. apply fuel_le_bind; [apply BlockLexer_input_le|].
  intros [[self1 h1] r]. apply fuel_le_refl.
Qed.

Lemma run_split_le (events : list SplitEvent) self h :
  fuel_le (run_split E input1 events self h) (run_split E input2 events self h).
Proof.
  revert self h. induction events as [|ev events IH]; intros self h; simpl.
  - apply fuel_le_refl.
  - destruct ev as [t | t | [|t part]]; try apply IH.
    apply fuel_le_bind; [apply BlockLexer_input_le|].
    intros [[self1 h1] r]. apply IH.
Qed.

Lemma InlineIfLexer_input_le self statement h :
  fuel_le (InlineIfLexer_input E input1 self statement h)
          (InlineIfLexer_input E input2 self statement h).
Proof.
  unfold InlineIfLexer_input. apply fuel_le_bind; [apply run_split_le|].
  intros [self1 h1]. apply fuel_le_refl.
Qed.

End Fuel_methods.

Lemma input_fuel_S (fuel : nat) lexer statement h :
  fuel_le (input E fuel lexer statement h) (input E (S fuel) lexer statement h).
Proof.
  revert lexer statement h. induction fuel as [|fuel IH];
    intros lexer statement h; [by left|].
  cbn [input]. destruct lexer as [c sctx sts | self]; [apply fuel_le_refl|].
  apply fuel_le_bind; [|intros [[self1 h1] r]; apply fuel_le_refl].
  destruct (resolve defines_input (cls self)) as [[]|];
    first [ by apply BlockLexer_input_le
          | by apply TestOrKeywordLexer_input_le
          | by apply NestedBlockLexer_input_le
          | by apply InlineIfLexer_input_le ].
Qed.

(** A call that ends with some fuel ends the same way with more. *)
Lemma input_fuel_mono (fuel fuel' : nat) lexer statement h :
  fuel <= fuel' ->
  fuel_le (input E fuel lexer statement h) (input E fuel' lexer statement h).
Proof.
  induction 1 as [|fuel' _ IH]; [apply fuel_le_refl|].
  destruct IH as [-> | ->]; [by left | apply input_fuel_S].
Qed.

(** ** Enough fuel *)

Lemma bind_ends {A B : Type} (m : Result A) (k : A -> Result B) :
  m <> OutOfFuel -> (forall a, m = Ok a -> k a <> OutOfFuel) ->
  bind m k <> OutOfFuel.
Proof. destruct m; simpl; [by auto | discriminate | done]. Qed.

Lemma accepts_more_ends lexer h statement :
  accepts_more E lexer h statement <> OutOfFuel.
Proof.
  destruct lexer as [c sctx sts | self]; simpl; [discriminate|].
  destruct (resolve defines_accepts_more (cls self)) as [[]|];
    try discriminate; destruct statement; discriminate.
Qed.

Lemma first_handling_In (classes : list Class) h statement
    (ctx0 : LexingContext) (c : Class) :
  first_handling E classes h statement ctx0 = Some c ->
  In c classes /\ handles E c h statement ctx0 = true.
Proof.
  intros H. apply first_handling_Some in H as (skipped & rest & -> & _ & Hc).
  split; [|exact Hc]. apply in_or_app. right. by left.
Qed.

(** What [lexer_for] returns is a new instance of a class of the list. *)
Lemma lexer_for_Ok self h statement new :
  lexer_for E self h statement = Ok new ->
  exists c, In c (lexer_classes (cls self))
            /\ handles E c h statement (ctx self) = true
            /\ new = construct E c (ctx self).
Proof.
  unfold lexer_for.
  destruct (first_handling E (lexer_classes (cls self)) h statement (ctx self))
    as [c|] eqn:Hf; [|discriminate].
  intros [= <-]. apply first_handling_In in Hf as [Hin Hc]. eauto.
Qed.

Lemma lexer_for_ends self h statement :
  lexer_for E self h statement <> OutOfFuel.
Proof.
  unfold lexer_for.
  destruct (first_handling E _ h statement (ctx self)); discriminate.
Qed.

Section Ends_methods.

Variable input : @Lexer LexingContext -> Statement -> gmap nat Token ->
                 Result (@Lexer LexingContext * gmap nat Token * Returned).

(** [BlockLexer.input] ends when the call on the child that takes the
    statement does. *)
Lemma BlockLexer_input_ends self statement h :
  (forall before last,
     lexers self = before ++ [last] -> input last statement h <> OutOfFuel) ->
  (forall new,
     lexer_for E self h statement = Ok new ->
     input new statement h <> OutOfFuel) ->
  BlockLexer_input E input self statement h <> OutOfFuel.
Proof.
  intros Hlast Hnew. unfold BlockLexer_input.
  apply bind_ends.
  - destruct (split_last (lexers self)) as [[before last]|].
    + apply bind_ends; [apply accepts_more_ends|].
      intros [|] _; [discriminate|].
      apply bind_ends; [apply lexer_for_ends | discriminate].
    + apply bind_ends; [apply lexer_for_ends | discriminate].
  - intros [before lexer] Hsel. apply bind_ends.
    + destruct (split_last (lexers self)) as [[before' last]|] eqn:Hsl.
      * apply split_last_Some in Hsl.
        destruct (accepts_more E last h statement) as [[|]| |];
          simpl in Hsel; try discriminate.
        -- injection Hsel as <- <-. by eapply Hlast.
        -- apply bind_Ok in Hsel as (new & Hfor & [= <- <-]). by apply Hnew.
      * apply bind_Ok in Hsel as (new & Hfor & [= <- <-]). by apply Hnew.
    + by intros [[lexer' h'] r] _.
Qed.

Lemma NestedBlockLexer_input_ends self statement h :
  BlockLexer_input E input self statement h <> OutOfFuel ->
  NestedBlockLexer_input E input self statement h <> OutOfFuel.
Proof.
  intros H. unfold NestedBlockLexer_input. apply bind_ends; [exact H|].
  by intros [[self1 h1] r] _.
Qed.

Lemma _handle_name_or_indentation_Ok self statement h self1 statement1 h1 :
  _handle_name_or_indentation self statement h = Ok (self1, statement1, h1) ->
  cls self1 = cls self /\ ctx self1 = ctx self /\ lexers self1 = lexers self.
Proof.
  unfold _handle_name_or_indentation. destruct (negb (_name_seen self)).
  - destruct statement; [discriminate|]. by intros [= <- _ _].
  - destruct (skip_indentation statement h). by intros [= <- _ _].
Qed.

Lemma TestOrKeywordLexer_input_ends self statement h :
  (forall self1 statement1 h1,
     cls self1 = cls self -> ctx self1 = ctx self ->
     lexers self1 = lexers self ->
     BlockLexer_input E input self1 statement1 h1 <> OutOfFuel) ->
  TestOrKeywordLexer_input E input self statement h <> OutOfFuel.
Proof.
  intros H. unfold TestOrKeywordLexer_input. apply bind_ends.
  - unfold _handle_name_or_indentation. destruct (negb (_name_seen self)).
    + destruct statement; discriminate.
    + destruct (skip_indentation statement h). discriminate.
  - intros [[self1 statement1] h1] Hn.
    apply _handle_name_or_indentation_Ok in Hn as (Hc & Hx & Hl).
    destruct statement1; [discriminate|].
    apply bind_ends; [by apply H|]. by intros [[self2 h2] r] _.
Qed.

End Ends_methods.

Lemma input_StatementNode (fuel : nat) (c : StatementClass)
    (sctx : LexingContext) (statements : list Statement) statement h :
  input E (S fuel) (StatementNode c sctx statements) statement h
  = Ok (StatementNode c sctx (statements ++ [statement]), h, RetNone).
Proof. reflexivity. Qed.

Lemma input_statement_lexer_ends (fuel : nat) lexer statement h :
  is_statement_lexer lexer = true ->
  input E (S fuel) lexer statement h <> OutOfFuel.
Proof. destruct lexer; [discriminate | discriminate]. Qed.

Lemma input_statement_lexer_Ok (fuel : nat) lexer statement h lexer' h' r :
  is_statement_lexer lexer = true ->
  input E fuel lexer statement h = Ok (lexer', h', r) ->
  is_statement_lexer lexer' = true.
Proof.
  destruct lexer; [|discriminate]. destruct fuel; [discriminate|].
  by intros _ [= <- _ _].
Qed.

(** An [InlineIfLexer] makes statement lexers only. *)
Lemma InlineIfLexer_lexer_for self h statement new :
  cls self = InlineIfLexer ->
  lexer_for E self h statement = Ok new ->
  is_statement_lexer new = true.
Proof.
  intros Hcls Hfor. apply lexer_for_Ok in Hfor as (c & Hin & _ & ->).
  rewrite Hcls in Hin. simpl in Hin.
  repeat (destruct Hin as [<- | Hin]; [reflexivity|]). destruct Hin.
Qed.

Lemma forallb_snoc {A : Type} (p : A -> bool) (l : list A) (x : A) :
  forallb p (l ++ [x]) = forallb p l && p x.
Proof. rewrite forallb_app. simpl. by rewrite andb_true_r. Qed.

Lemma InlineIfLexer_BlockLexer_input (fuel : nat) self statement h :
  cls self = InlineIfLexer ->
  forallb is_statement_lexer (lexers self) = true ->
  BlockLexer_input E (input E (S fuel)) self statement h <> OutOfFuel
  /\ forall self' h' r,
       BlockLexer_input E (input E (S fuel)) self statement h
         = Ok (self', h', r) ->
       cls self' = InlineIfLexer
       /\ forallb is_statement_lexer (lexers self') = true.
Proof.
  intros Hcls Hall. split.
  - apply BlockLexer_input_ends.
    + intros before last Hl. apply input_statement_lexer_ends.
      rewrite Hl, forallb_snoc in Hall. by apply andb_true_iff in Hall as [_ ?].
    + intros new Hfor. apply input_statement_lexer_ends.
      by eapply InlineIfLexer_lexer_for.
  - intros self' h' r Hok.
    apply BlockLexer_input_Ok in Hok
      as (_ & Hc & _ & _ & _ & before & child & child' & r' & Hl & Hi & Hcase).
    split; [congruence|]. rewrite Hl, forallb_snoc.
    destruct Hcase as [[Hl0 _] | (Hl0 & _ & Hfor)].
    + rewrite Hl0, forallb_snoc in Hall.
      apply andb_true_iff in Hall as [Hb Hc0]. rewrite Hb. simpl.
      by eapply input_statement_lexer_Ok.
    + rewrite <- Hl0, Hall. simpl.
      eapply input_statement_lexer_Ok; [|exact Hi].
      by eapply InlineIfLexer_lexer_for.
Qed.

Lemma InlineIfLexer_run_split (fuel : nat) (events : list SplitEvent) self h :
  cls self = InlineIfLexer ->
  forallb is_statement_lexer (lexers self) = true ->
  run_split E (input E (S fuel)) events self h <> OutOfFuel
  /\ forall self' h',
       run_split E (input E (S fuel)) events self h = Ok (self', h') ->
       forallb is_statement_lexer (lexers self') = true.
Proof.
  revert self h. induction events as [|ev events IH]; intros self h Hcls Hall.
  - cbn [run_split]. split; [discriminate|]. by intros ? ? [= <- <-].
  - destruct ev as [t | t | [|t part]]; cbn [run_split]; try by apply IH.
    destruct (InlineIfLexer_BlockLexer_input fuel self (t :: part) h Hcls Hall)
      as [Hends Hinv].
    split.
    + apply bind_ends; [exact Hends|]. intros [[self1 h1] r] Hok.
      destruct (Hinv _ _ _ Hok) as [Hc1 Hall1]. by apply IH.
    + intros self' h' Hok.
      apply bind_Ok in Hok as ([[self1 h1] r] & Hok1 & Hok2).
      destruct (Hinv _ _ _ Hok1) as [Hc1 Hall1].
      exact (proj2 (IH self1 h1 Hc1 Hall1) _ _ Hok2).
Qed.

(** Two units of fuel are enough for an [InlineIfLexer]. *)
Lemma InlineIfLexer_input_ends (fuel : nat) self statement h :
  cls self = InlineIfLexer ->
  forallb is_statement_lexer (lexers self) = true ->
  input E (S (S fuel)) (BlockNode self) statement h <> OutOfFuel.
Proof.
  intros Hcls Hall. cbn [input]. rewrite Hcls.
  change (resolve defines_input InlineIfLexer) with (Some InlineIfLexer).
  apply bind_ends; [|by intros [[? ?] ?] _].
  unfold InlineIfLexer_input. apply bind_ends; [|by intros [? ?] _].
  by apply InlineIfLexer_run_split.
Qed.

(** One step of [input] on an instance of a class of this file. *)
Lemma input_S (fuel : nat) self statement h :
  input E (S fuel) (BlockNode self) statement h
  = do '(self', h', r) <-
      match resolve defines_input (cls self) with
      | Some TestOrKeywordLexer =>
          TestOrKeywordLexer_input E (input E fuel) self statement h
      | Some NestedBlockLexer =>
          NestedBlockLexer_input E (input E fuel) self statement h
      | Some InlineIfLexer =>
          InlineIfLexer_input E (input E fuel) self statement h
      | _ => BlockLexer_input E (input E fuel) self statement h
      end;
    Ok (BlockNode self', h', r).
Proof. reflexivity. Qed.

Ltac scan_classes H :=
  try unfold lexer_for in H;
  match type of H with
  | context [lexer_classes ?c] =>
      let l := eval cbv in (lexer_classes c) in
      change (lexer_classes c) with l in H
  end;
  cbn [first_handling] in H.

(** The statement a nested block lexer is constructed for goes to its
    header lexer, or, in an [IfLexer], to an [InlineIfLexer] when that
    class handles it too. *)
Lemma nested_lexer_for_first self h statement new :
  cls self = ForLexer \/ cls self = WhileLexer
  \/ cls self = TryLexer \/ cls self = IfLexer ->
  handles E (Blk (cls self)) h statement (ctx self) = true ->
  lexer_for E self h statement = Ok new ->
  (exists c, new = StatementNode c (ctx self) []
             /\ (c = ForHeaderLexer \/ c = WhileHeaderLexer
                 \/ c = TryHeaderLexer \/ c = IfHeaderLexer))
  \/ (cls self = IfLexer
      /\ new = construct E (Blk InlineIfLexer) (ctx self)).
Proof.
  intros Hcls Hh Hfor. unfold lexer_for in Hfor.
  destruct Hcls as [Hc | [Hc | [Hc | Hc]]]; rewrite Hc in Hh, Hfor;
    scan_classes Hfor.
  - change (handles E (Stmt ForHeaderLexer) h statement (ctx self))
      with (handles E (Blk ForLexer) h statement (ctx self)) in Hfor.
    rewrite Hh in Hfor. injection Hfor as <-. left. eauto 10.
  - change (handles E (Stmt WhileHeaderLexer) h statement (ctx self))
      with (handles E (Blk WhileLexer) h statement (ctx self)) in Hfor.
    rewrite Hh in Hfor. injection Hfor as <-. left. eauto 10.
  - change (handles E (Stmt TryHeaderLexer) h statement (ctx self))
      with (handles E (Blk TryLexer) h statement (ctx self)) in Hfor.
    rewrite Hh in Hfor. injection Hfor as <-. left. eauto 10.
  - change (handles E (Stmt IfHeaderLexer) h statement (ctx self))
      with (handles E (Blk IfLexer) h statement (ctx self)) in Hfor.
    rewrite Hh in Hfor.
    destruct (handles E (Blk InlineIfLexer) h statement (ctx self));
      injection Hfor as <-; [right; by split | left; eauto 10].
Qed.

Lemma construct_Blk (c : BlockClass) (ctx0 : LexingContext) :
  exists self, construct E (Blk c) ctx0 = BlockNode self
               /\ cls self = c /\ lexers self = []
               /\ _block_level self = 0%Z /\ _name_seen self = false
               /\ ((c <> TestCaseLexer /\ c <> KeywordLexer) ->
                   ctx self = ctx0).
Proof.
  eexists. split; [reflexivity|]. repeat split.
  intros [Ht Hk]. destruct c; simpl; first [reflexivity | by destruct Ht | by destruct Hk].
Qed.

Lemma fresh_InlineIfLexer_ends (fuel : nat) (ctx0 : LexingContext)
    statement h :
  input E (S (S fuel)) (construct E (Blk InlineIfLexer) ctx0) statement h
  <> OutOfFuel.
Proof. by apply InlineIfLexer_input_ends. Qed.

(** Three units of fuel are enough for a nested block lexer on the
    statement it is constructed for. *)
Lemma fresh_nested_handled_ends (fuel : nat) (c : BlockClass)
    (ctx0 : LexingContext) statement h :
  c = ForLexer \/ c = WhileLexer \/ c = TryLexer \/ c = IfLexer ->
  handles E (Blk c) h statement ctx0 = true ->
  input E (S (S (S fuel))) (construct E (Blk c) ctx0) statement h
  <> OutOfFuel.
Proof.
  intros Hc Hh.
  destruct (construct_Blk c ctx0) as (self & -> & Hcls & Hl & _ & _ & Hctx).
  assert (Hx : ctx self = ctx0)
    by (apply Hctx; destruct Hc as [-> | [-> | [-> | ->]]]; by split).
  rewrite input_S.
  assert (Hres : resolve defines_input (cls self) = Some NestedBlockLexer)
    by (rewrite Hcls; destruct Hc as [-> | [-> | [-> | ->]]]; reflexivity).
  rewrite Hres. apply bind_ends; [|by intros [[? ?] ?] _].
  apply NestedBlockLexer_input_ends, BlockLexer_input_ends.
  - intros before last Hl'. rewrite Hl in Hl'. by destruct before.
  - intros new Hfor.
    apply nested_lexer_for_first in Hfor
      as [(k & -> & _) | (_ & ->)]; [done | | by rewrite Hcls | by rewrite Hcls, Hx].
    apply fresh_InlineIfLexer_ends.
Qed.

Lemma lexer_classes_rank (b : BlockClass) (k : Class) :
  In k (lexer_classes b) ->
  rank_handled k <= 5
  /\ (b <> ForLexer -> b <> WhileLexer -> b <> TryLexer -> b <> IfLexer ->
      rank_handled k < rank_handled (Blk b)).
Proof.
  intros Hin. destruct b;
    match type of Hin with
    | In _ ?x => let l := eval cbv in x in change x with l in Hin
    end;
    simpl in Hin;
    repeat (destruct Hin as [<- | Hin];
            [split; [simpl; lia | intros; first [done | simpl; lia]]|]);
    destruct Hin.
Qed.

(** A new instance of a class that handles the statement ends within the
    rank of the class. *)
Lemma fresh_handled_ends (fuel : nat) (c : Class) (ctx0 : LexingContext)
    statement h :
  handles E c h statement ctx0 = true ->
  rank_handled c <= fuel ->
  input E fuel (construct E c ctx0) statement h <> OutOfFuel.
Proof.
  revert c ctx0 statement h.
  induction fuel as [|fuel IH]; intros c ctx0 statement h Hh Hrank.
  { destruct c as [k | []]; simpl in Hrank; lia. }
  destruct c as [k | b]; [discriminate|].
  destruct (decide (b = InlineIfLexer)) as [-> | Hinline].
  { destruct fuel as [|fuel]; [simpl in Hrank; lia|].
    apply fresh_InlineIfLexer_ends. }
  destruct (decide (b = ForLexer \/ b = WhileLexer \/ b = TryLexer
                    \/ b = IfLexer)) as [Hnested | Hnested].
  { destruct fuel as [|[|fuel]];
      try (destruct Hnested as [-> | [-> | [-> | ->]]]; simpl in Hrank; lia).
    by apply fresh_nested_handled_ends. }
  destruct (construct_Blk b ctx0) as (self & -> & Hcls & Hl & _ & _ & _).
  assert (Hnew : forall self1 statement1 h1,
             cls self1 = cls self -> lexers self1 = lexers self ->
             BlockLexer_input E (input E fuel) self1 statement1 h1
             <> OutOfFuel).
  { intros self1 statement1 h1 Hc1 Hl1. apply BlockLexer_input_ends.
    - intros before last Hl'. rewrite Hl1, Hl in Hl'. by destruct before.
    - intros new Hfor. apply lexer_for_Ok in Hfor as (k & Hin & Hk & ->).
      apply IH; [exact Hk|]. rewrite Hc1, Hcls in Hin.
      apply lexer_classes_rank in Hin as [_ Hlt].
      assert (rank_handled k < rank_handled (Blk b)); [|lia].
      apply Hlt; intros ->; apply Hnested; auto. }
  rewrite input_S. apply bind_ends; [|by intros [[? ?] ?] _].
  destruct (resolve defines_input (cls self)) as [[]|] eqn:Hres;
    try (by apply Hnew).
  - apply TestOrKeywordLexer_input_ends. intros; by apply Hnew.
  - apply NestedBlockLexer_input_ends. by apply Hnew.
  - rewrite Hcls in Hres. destruct b; try discriminate. by destruct Hinline.
Qed.

Lemma height_snoc (before : list (@Lexer LexingContext)) last :
  height last <= list_max (map height (before ++ [last])).
Proof.
  rewrite map_app, list_max_app. simpl. lia.
Qed.

Lemma well_formed_snoc self (before : list (@Lexer LexingContext)) last :
  well_formed (BlockNode self) = true -> lexers self = before ++ [last] ->
  well_formed last = true.
Proof.
  simpl. intros Hwf Hl. apply andb_true_iff in Hwf as [Hwf _].
  rewrite Hl, forallb_snoc in Hwf. by apply andb_true_iff in Hwf as [_ ?].
Qed.

(** With [enough_fuel], [input] on a well formed lexer returns or raises. *)
Lemma input_ends (n : nat) lexer :
  well_formed lexer = true -> height lexer <= n ->
  forall (fuel : nat) statement h,
    n + 5 <= fuel -> input E fuel lexer statement h <> OutOfFuel.
Proof.
  revert lexer. induction n as [|n IH]; intros lexer Hwf Hheight fuel
    statement h Hfuel.
  { destruct lexer as [c sctx sts | self]; [|simpl in Hheight; lia].
    destruct fuel; [lia | discriminate]. }
  destruct lexer as [c sctx sts | self].
  { destruct fuel; [lia | discriminate]. }
  destruct fuel as [|fuel]; [lia|].
  assert (Hblock : forall self1 statement1 h1,
             cls self1 = cls self -> ctx self1 = ctx self ->
             lexers self1 = lexers self ->
             BlockLexer_input E (input E fuel) self1 statement1 h1
             <> OutOfFuel).
  { intros self1 statement1 h1 Hc1 Hx1 Hl1. apply BlockLexer_input_ends.
    - intros before last Hl'. rewrite Hl1 in Hl'. apply IH; [| |lia].
      + by eapply well_formed_snoc.
      + simpl in Hheight. rewrite Hl' in Hheight.
        pose proof (height_snoc before last). lia.
    - intros new Hfor. apply lexer_for_Ok in Hfor as (k & Hin & Hk & ->).
      apply fresh_handled_ends; [exact Hk|].
      apply lexer_classes_rank in Hin as [Hle _]. lia. }
  rewrite input_S. apply bind_ends; [|by intros [[? ?] ?] _].
  destruct (resolve defines_input (cls self)) as [[]|] eqn:Hres;
    try (by apply Hblock).
  - apply TestOrKeywordLexer_input_ends. intros; by apply Hblock.
  - apply NestedBlockLexer_input_ends. by apply Hblock.
  - assert (Hcls : cls self = InlineIfLexer).
    { destruct self as [c ? ? ? ?]; simpl in *. by destruct c. }
    assert (Hall : forallb is_statement_lexer (lexers self) = true).
    { simpl in Hwf. apply andb_true_iff in Hwf as [_ Hwf].
      by rewrite decide_True in Hwf. }
    destruct fuel as [|fuel]; [lia|].
    pose proof (InlineIfLexer_input_ends fuel self statement h Hcls Hall)
      as Hends.
    rewrite input_S, Hres in Hends. intros Hout. apply Hends.
    by rewrite Hout.
Qed.

Theorem input_enough_fuel lexer statement h :
  well_formed lexer = true ->
  input E (enough_fuel lexer) lexer statement h <> OutOfFuel.
Proof. intros Hwf. by apply (input_ends (height lexer)). Qed.

(** ** The trees that [input] builds are well formed *)

Lemma well_formed_ext self self1 :
  cls self1 = cls self -> lexers self1 = lexers self ->
  well_formed (BlockNode self1) = well_formed (BlockNode self).
Proof. intros Hc Hl. simpl. by rewrite Hc, Hl. Qed.

Lemma construct_well_formed (c : Class) (ctx0 : LexingContext) :
  well_formed (construct E c ctx0) = true.
Proof. destruct c as [k | b]; [reflexivity|]. simpl. by destruct (decide _). Qed.

Section Well_formed_methods.

Variable input : @Lexer LexingContext -> Statement -> gmap nat Token ->
                 Result (@Lexer LexingContext * gmap nat Token * Returned).

Hypothesis input_well_formed :
  forall lexer statement h lexer' h' r,
    input lexer statement h = Ok (lexer', h', r) ->
    well_formed lexer = true -> well_formed lexer' = true.

Hypothesis input_statement_lexer :
  forall lexer statement h lexer' h' r,
    input lexer statement h = Ok (lexer', h', r) ->
    is_statement_lexer lexer = true -> is_statement_lexer lexer' = true.

Lemma BlockLexer_input_well_formed self statement h self' h' r :
  BlockLexer_input E input self statement h = Ok (self', h', r) ->
  well_formed (BlockNode self) = true -> well_formed (BlockNode self') = true.
Proof.
  intros Hok Hwf.
  apply BlockLexer_input_Ok in Hok
    as (_ & Hc & _ & _ & _ & before & child & child' & r' & Hl & Hi & Hcase).
  simpl in Hwf |- *. apply andb_true_iff in Hwf as [Hwf Hinl].
  rewrite Hc, Hl, !forallb_snoc.
  assert (Hparts : forallb well_formed before = true
                   /\ well_formed child = true
                   /\ (cls self = InlineIfLexer ->
                       forallb is_statement_lexer before = true
                       /\ is_statement_lexer child = true)).
  { destruct Hcase as [[Hl0 _] | (Hl0 & _ & Hfor)].
    - rewrite Hl0, !forallb_snoc in Hwf, Hinl.
      apply andb_true_iff in Hwf as [Hb Hc0]. repeat split; try done.
      + rewrite decide_True in Hinl by done.
        by apply andb_true_iff in Hinl as [? _].
      + rewrite decide_True in Hinl by done.
        by apply andb_true_iff in Hinl as [_ ?].
    - rewrite <- Hl0. repeat split; try done.
      + apply lexer_for_Ok in Hfor as (k & _ & _ & ->).
        apply construct_well_formed.
      + by rewrite decide_True in Hinl.
      + by eapply InlineIfLexer_lexer_for. }
  destruct Hparts as (Hb & Hc0 & Hstmt).
  rewrite Hb, (input_well_formed _ _ _ _ _ _ Hi Hc0). simpl.
  destruct (decide (cls self = InlineIfLexer)) as [Hcls|]; [|reflexivity].
  destruct (Hstmt Hcls) as [Hsb Hsc].
  by rewrite Hsb, (input_statement_lexer _ _ _ _ _ _ Hi Hsc).
Qed.

Lemma run_split_well_formed (events : list SplitEvent) self h self' h' :
  run_split E input events self h = Ok (self', h') ->
  well_formed (BlockNode self) = true -> well_formed (BlockNode self') = true.
Proof.
  revert self h. induction events as [|ev events IH]; intros self h; simpl.
  - by intros [= <- <-].
  - destruct ev as [t | t | [|t part]]; try apply IH.
    intros Hok Hwf. apply bind_Ok in Hok as ([[self1 h1] r1] & H1 & H2).
    apply (IH _ _ H2). by eapply BlockLexer_input_well_formed.
Qed.

End Well_formed_methods.

Lemma input_well_formed (fuel : nat) lexer statement h lexer' h' r :
  input E fuel lexer statement h = Ok (lexer', h', r) ->
  well_formed lexer = true -> well_formed lexer' = true.
Proof.
  revert lexer statement h lexer' h' r.
  induction fuel as [|fuel IH]; intros lexer statement h lexer' h' r;
    [discriminate|].
  destruct lexer as [c sctx sts | self]; [by intros [= <- _ _]|].
  rewrite input_S. intros Hok Hwf.
  apply bind_Ok in Hok as ([[self1 h1] r1] & Hm & [= <- _ _]).
  assert (Hstmt : forall lexer statement h lexer' h' r,
             input E fuel lexer statement h = Ok (lexer', h', r) ->
             is_statement_lexer lexer = true ->
             is_statement_lexer lexer' = true).
  { intros ? ? ? ? ? ? Hi Hs. by eapply input_statement_lexer_Ok. }
  destruct (resolve defines_input (cls self)) as [[]|] eqn:Hres;
    try (by eapply (BlockLexer_input_well_formed _ IH Hstmt)).
  - unfold TestOrKeywordLexer_input in Hm.
    apply bind_Ok in Hm as ([[self2 st2] h2] & Hn & Hm).
    apply _handle_name_or_indentation_Ok in Hn as (Hc & _ & Hl).
    rewrite <- (well_formed_ext _ _ Hc Hl) in Hwf.
    destruct st2 as [|t st2]; [by injection Hm as <- _ _|].
    apply bind_Ok in Hm as ([[self3 h3] r3] & Hb & [= <- _ _]).
    by eapply (BlockLexer_input_well_formed _ IH Hstmt).
  - unfold NestedBlockLexer_input in Hm.
    apply bind_Ok in Hm as ([[self2 h2] r2] & Hb & Hm).
    apply (BlockLexer_input_well_formed _ IH Hstmt) in Hb; [|exact Hwf].
    cbv beta iota zeta in Hm.
    destruct (is_block_header _), (is_end _); by injection Hm as <- _ _.
  - unfold InlineIfLexer_input in Hm.
    apply bind_Ok in Hm as ([self2 h2] & Hr & [= <- _ _]).
    by eapply (run_split_well_formed _ IH Hstmt).
Qed.

(** ** BlockLexer.input *)

(** C1. [BlockLexer.input] hands the statement to the last child when
    there is one and it accepts more. Otherwise it takes the first class of
    [lexer_classes] that handles the statement, constructs it with the
    composite's context, appends it and hands the statement to it. Whenever
    the call returns, one child has run [input], it is the last child of
    the result, the children before it are those the composite had, and the
    list has grown by one child at most. A composite that does not
    override [input] does exactly this. *)
Theorem BlockLexer_input_dispatch
    (child_input : Lexer -> Statement -> gmap nat Token ->
             Result (Lexer * gmap nat Token * Returned))
    self statement h :
  (forall before last,
     lexers self = before ++ [last] ->
     accepts_more E last h statement = Ok true ->
     BlockLexer_input E child_input self statement h
     = do '(last', h', _) <- child_input last statement h;
       Ok (with_lexers self (before ++ [last']), h', RetLastChild))
  /\ (forall skipped c rest,
        lexers self = []
        \/ (exists before last,
              lexers self = before ++ [last]
              /\ accepts_more E last h statement = Ok false) ->
        lexer_classes (cls self) = skipped ++ c :: rest ->
        Forall (fun k => handles E k h statement (ctx self) = false) skipped ->
        handles E c h statement (ctx self) = true ->
        BlockLexer_input E child_input self statement h
        = do '(new, h', _) <- child_input (construct E c (ctx self)) statement h;
          Ok (with_lexers self (lexers self ++ [new]), h', RetLastChild))
  /\ (forall self' h' r,
        BlockLexer_input E child_input self statement h = Ok (self', h', r) ->
        r = RetLastChild
        /\ exists before child child' r',
             lexers self' = before ++ [child']
             /\ child_input child statement h = Ok (child', h', r')
             /\ length (lexers self') <= S (length (lexers self))
             /\ ((lexers self = before ++ [child]
                  /\ accepts_more E child h statement = Ok true)
                 \/ (lexers self = before
                     /\ lexer_for E self h statement = Ok child)))
  /\ (forall fuel,
        resolve defines_input (cls self) = Some BlockLexer ->
        input E (S fuel) (BlockNode self) statement h
        = do '(self', h', r) <-
            BlockLexer_input E (input E fuel) self statement h;
          Ok (BlockNode self', h', r)).
Proof.
  split; [|split; [|split]].
  - intros before last Hl Hacc. unfold BlockLexer_input.
    rewrite Hl, split_last_snoc. simpl. rewrite Hacc. reflexivity.
  - intros skipped c rest Hreach Hcl Hsk Hc.
    assert (Hfor : lexer_for E self h statement
                   = Ok (construct E c (ctx self))).
    { unfold lexer_for.
      assert (Hf : first_handling E (lexer_classes (cls self)) h statement
                     (ctx self) = Some c)
        by (apply first_handling_Some; eauto).
      by rewrite Hf. }
    unfold BlockLexer_input.
    destruct Hreach as [Hnil | (before & last & Hl & Hacc)].
    + rewrite Hnil. simpl. rewrite Hfor. reflexivity.
    + rewrite Hl at 1. rewrite split_last_snoc. simpl. rewrite Hacc. simpl.
      rewrite Hfor. reflexivity.
  - intros self' h' r Hok. unfold BlockLexer_input in Hok.
    destruct (split_last (lexers self)) as [[before last]|] eqn:Hsl.
    + apply split_last_Some in Hsl.
      destruct (accepts_more E last h statement) as [[|]| |] eqn:Hacc;
        simpl in Hok; try discriminate.
      * destruct (child_input last statement h) as [[[last' h1] r1]| |] eqn:Hi;
          simpl in Hok; try discriminate.
        injection Hok as <- <- <-. split; [reflexivity|].
        exists before, last, last', r1. simpl.
        repeat split; [done | | by left].
        rewrite Hsl, !length_app. simpl. lia.
      * destruct (lexer_for E self h statement) as [new| |] eqn:Hfor;
          simpl in Hok; try discriminate.
        destruct (child_input new statement h) as [[[new' h1] r1]| |] eqn:Hi;
          simpl in Hok; try discriminate.
        injection Hok as <- <- <-. split; [reflexivity|].
        exists (lexers self), new, new', r1. simpl.
        repeat split; [done | | by right].
        rewrite length_app. simpl. lia.
    + apply split_last_None in Hsl. simpl in Hok.
      destruct (lexer_for E self h statement) as [new| |] eqn:Hfor;
        simpl in Hok; try discriminate.
      destruct (child_input new statement h) as [[[new' h1] r1]| |] eqn:Hi;
        simpl in Hok; try discriminate.
      injection Hok as <- <- <-. split; [reflexivity|].
      exists (lexers self), new, new', r1. simpl.
      repeat split; [done | | by right].
      rewrite length_app. simpl. lia.
  - intros fuel Hres. simpl. rewrite Hres. reflexivity.
Qed.

(** ** The name of a test case or keyword *)

Lemma deref_update_eq (f : Token -> Token) (t : TokenRef) h :
  deref (update f t h) t = f (deref h t).
Proof. unfold deref, update. by rewrite lookup_insert_eq. Qed.

Lemma deref_update_ne (f : Token -> Token) (t t' : TokenRef) h :
  t' <> t -> deref (update f t h) t' = deref h t'.
Proof. intros Hne. unfold deref, update. by rewrite lookup_insert_ne. Qed.

(** C7. On the first statement a test case or keyword lexer gets, the
    first token leaves the statement and gets the name type of the class,
    its text and every other token stay as they are, an end of statement
    is requested after it exactly when more tokens follow on the statement,
    and the tokens that follow go through [BlockLexer.input] as a body
    statement (nothing is dispatched when none follows). *)
Theorem TestOrKeywordLexer_name_token self (token : TokenRef)
    (rest : Statement) h (fuel : nat) :
  cls self = TestCaseLexer \/ cls self = KeywordLexer ->
  _name_seen self = false ->
  let named := update (set_type (Some (name_type (cls self)))) token h in
  let h2 := match rest with
            | [] => named
            | _ :: _ => update set_add_eos_after token named
            end in
  _handle_name_or_indentation self (token :: rest) h
    = Ok (with_name_seen self true, rest, h2)
  /\ type (deref h2 token)
     = Some (if decide (cls self = TestCaseLexer)
             then TESTCASE_NAME else KEYWORD_NAME)
  /\ value (deref h2 token) = value (deref h token)
  /\ (rest <> [] -> _add_eos_after (deref h2 token) = true)
  /\ (rest = [] ->
      _add_eos_after (deref h2 token) = _add_eos_after (deref h token))
  /\ _add_eos_before (deref h2 token) = _add_eos_before (deref h token)
  /\ (forall t, t <> token -> deref h2 t = deref h t)
  /\ input E (S fuel) (BlockNode self) (token :: rest) h
     = match rest with
       | [] => Ok (BlockNode (with_name_seen self true), h2, RetNone)
       | _ :: _ =>
           do '(self', h', _) <-
             BlockLexer_input E (input E fuel) (with_name_seen self true)
                              rest h2;
           Ok (BlockNode self', h', RetNone)
       end.
Proof.
  intros Hcls Hseen named h2.
  assert (Hname : _handle_name_or_indentation self (token :: rest) h
                  = Ok (with_name_seen self true, rest, h2)).
  { unfold _handle_name_or_indentation. rewrite Hseen. simpl.
    subst h2 named. by destruct rest. }
  split; [exact Hname|].
  assert (Hty : name_type (cls self)
                = if decide (cls self = TestCaseLexer)
                  then TESTCASE_NAME else KEYWORD_NAME).
  { destruct Hcls as [-> | ->]; reflexivity. }
  repeat split.
  - subst h2 named. rewrite <- Hty.
    destruct rest; rewrite ?deref_update_eq; reflexivity.
  - subst h2 named. destruct rest; rewrite ?deref_update_eq; reflexivity.
  - intros Hrest. subst h2 named. destruct rest; [done|].
    by rewrite deref_update_eq.
  - intros ->. subst h2 named. by rewrite deref_update_eq.
  - subst h2 named. destruct rest; rewrite ?deref_update_eq; reflexivity.
  - intros t Hne. subst h2 named.
    destruct rest; rewrite ?deref_update_ne by done; reflexivity.
  - simpl. unfold TestOrKeywordLexer_input.
    assert (Hres : resolve defines_input (cls self) = Some TestOrKeywordLexer)
      by (destruct Hcls as [-> | ->]; reflexivity).
    rewrite Hres, Hname. simpl. destruct rest as [|t rest']; simpl.
    + reflexivity.
    + destruct (BlockLexer_input E (input E fuel) (with_name_seen self true)
                  (t :: rest') h2) as [[[self1 h1] r1]| |]; reflexivity.
Qed.

(** ** The block level of a nested block lexer *)

Lemma nested_resolve_input (c : BlockClass) :
  c = ForLexer \/ c = WhileLexer \/ c = TryLexer \/ c = IfLexer ->
  resolve defines_input c = Some NestedBlockLexer
  /\ resolve defines_accepts_more c = Some NestedBlockLexer.
Proof. intros [-> | [-> | [-> | ->]]]; by split. Qed.

Lemma is_block_header_not_end lexer :
  is_block_header (Some lexer) = true -> is_end (Some lexer) = false.
Proof.
  destruct lexer as [c sctx sts | self]; [|discriminate].
  destruct c; simpl; first [discriminate | reflexivity].
Qed.

(** What composite dispatch keeps true of a nested block lexer. *)
Lemma Dispatched_invariant self :
  Dispatched E self ->
  (cls self = ForLexer \/ cls self = WhileLexer
   \/ cls self = TryLexer \/ cls self = IfLexer)
  /\ (0 <= _block_level self)%Z
  /\ well_formed (BlockNode self) = true.
Proof.
  induction 1 as [c ctx0 statement h fuel self' h' r Hc Hh Hok
                 | self statement h fuel self' h' r _ IH Hacc Hok].
  - destruct (construct_Blk c ctx0) as (self & Heq & Hcls & Hl & Hlvl & _ & Hctx).
    assert (Hx : ctx self = ctx0)
      by (apply Hctx; destruct Hc as [-> | [-> | [-> | ->]]]; by split).
    pose proof (construct_well_formed (Blk c) ctx0) as Hwf.
    rewrite Heq in Hok, Hwf.
    pose proof (input_well_formed _ _ _ _ _ _ _ Hok Hwf) as Hwf'.
    pose proof Hok as Hok'.
    apply input_BlockNode_Ok in Hok' as (self2 & [= <-] & Hc2 & _).
    split; [by rewrite Hc2, Hcls|]. split; [|exact Hwf'].
    apply NestedBlockLexer_input_Ok in Hok
      as (self2 & before & child & child' & r' & fuel' & [= <-] & -> & Hl'
          & Hi & Hcase & Hlevel);
      [|rewrite Hcls; by apply nested_resolve_input].
    rewrite Hlevel, Hlvl.
    destruct Hcase as [[Hl0 _] | (_ & _ & Hfor)].
    { rewrite Hl in Hl0. by destruct before. }
    apply nested_lexer_for_first in Hfor
      as [(k & -> & Hk) | (_ & ->)];
      [ | | by rewrite Hcls | by rewrite Hcls, Hx ].
    + destruct fuel' as [|fuel']; [discriminate|].
      rewrite input_StatementNode in Hi. injection Hi as <- _ _.
      destruct Hk as [-> | [-> | [-> | ->]]]; simpl; lia.
    + apply input_BlockNode_Ok in Hi as (inline & -> & _). simpl. lia.
  - destruct IH as (Hcls & Hlvl & Hwf).
    pose proof (input_well_formed _ _ _ _ _ _ _ Hok Hwf) as Hwf'.
    pose proof Hok as Hok'.
    apply input_BlockNode_Ok in Hok' as (self2 & [= <-] & Hc2 & _).
    split; [by rewrite Hc2|]. split; [|exact Hwf'].
    apply NestedBlockLexer_input_Ok in Hok
      as (self2 & before & child & child' & r' & fuel' & [= <-] & -> & _
          & _ & _ & Hlevel);
      [|by apply nested_resolve_input].
    simpl in Hacc.
    rewrite (proj2 (nested_resolve_input _ Hcls)) in Hacc.
    injection Hacc as Hpos. apply Z.ltb_lt in Hpos.
    rewrite Hlevel.
    destruct (is_block_header (Some child')), (is_end (Some child')); lia.
Qed.

(** C2. A nested block lexer starts at block level zero. Each call of its
    [input] that returns has changed the level by plus one exactly when
    the child that took the statement is a FOR, IF, TRY or WHILE header
    lexer and by minus one exactly when it is an END lexer (a child is
    never both). [accepts_more] is true exactly while the level is above
    zero. Under composite dispatch the level is never negative, every call
    of [input] ends when it has [enough_fuel], and once the level is zero
    [accepts_more] is false for every statement, so that the lexer gets no
    statement any more and stays as it is. *)
Theorem NestedBlockLexer_block_level :
  (forall (c : BlockClass) (ctx0 : LexingContext),
     c = ForLexer \/ c = WhileLexer \/ c = TryLexer \/ c = IfLexer ->
     exists self, construct E (Blk c) ctx0 = BlockNode self
                  /\ _block_level self = 0%Z)
  /\ (forall (fuel : nat) self statement h lexer' h' r,
        cls self = ForLexer \/ cls self = WhileLexer
        \/ cls self = TryLexer \/ cls self = IfLexer ->
        input E fuel (BlockNode self) statement h = Ok (lexer', h', r) ->
        exists self' before child child' r' fuel',
          lexer' = BlockNode self'
          /\ lexers self' = before ++ [child']
          /\ input E fuel' child statement h = Ok (child', h', r')
          /\ (lexers self = before ++ [child] \/ lexers self = before)
          /\ _block_level self'
             = (_block_level self
                + (if is_block_header (Some child') then 1 else 0)
                - (if is_end (Some child') then 1 else 0))%Z)
  /\ (forall lexer,
        is_block_header (Some lexer) = true -> is_end (Some lexer) = false)
  /\ (forall self h statement,
        cls self = ForLexer \/ cls self = WhileLexer
        \/ cls self = TryLexer \/ cls self = IfLexer ->
        accepts_more E (BlockNode self) h statement
        = Ok (0 <? _block_level self)%Z)
  /\ (forall self, Dispatched E self -> (0 <= _block_level self)%Z)
  /\ (forall self statement h,
        Dispatched E self ->
        input E (enough_fuel (BlockNode self)) (BlockNode self) statement h
        <> OutOfFuel)
  /\ (forall self,
        Dispatched E self -> _block_level self = 0%Z ->
        forall h statement,
          accepts_more E (BlockNode self) h statement = Ok false).
Proof.
  assert (Hacc : forall self h statement,
             cls self = ForLexer \/ cls self = WhileLexer
             \/ cls self = TryLexer \/ cls self = IfLexer ->
             accepts_more E (BlockNode self) h statement
             = Ok (0 <? _block_level self)%Z).
  { intros self h statement Hcls. simpl.
    by rewrite (proj2 (nested_resolve_input _ Hcls)). }
  split; [|split; [|split; [|split; [|split; [|split]]]]].
  - intros c ctx0 Hc.
    destruct (construct_Blk c ctx0) as (self & Heq & _ & _ & Hlvl & _).
    eauto.
  - intros fuel self statement h lexer' h' r Hcls Hok.
    apply NestedBlockLexer_input_Ok in Hok
      as (self' & before & child & child' & r' & fuel' & -> & _ & Hl & Hi
          & Hcase & Hlevel);
      [|by apply nested_resolve_input].
    exists self', before, child, child', r', fuel'.
    repeat split; try done.
    destruct Hcase as [[? _] | [? _]]; auto.
  - exact is_block_header_not_end.
  - exact Hacc.
  - intros self Hd. by apply Dispatched_invariant in Hd as (_ & ? & _).
  - intros self statement h Hd.
    apply Dispatched_invariant in Hd as (_ & _ & Hwf).
    by apply input_enough_fuel.
  - intros self Hd Hzero h statement.
    apply Dispatched_invariant in Hd as (Hcls & _ & _).
    rewrite (Hacc _ _ _ Hcls), Hzero. reflexivity.
Qed.

(** ** InlineIfLexer.handles *)

(** C8. [InlineIfLexer.handles] is false for every statement of two tokens
    or fewer, whatever their texts, and it is true only for a statement of
    more than two tokens that [InlineIfHeaderLexer.handles] accepts. *)
Theorem InlineIfLexer_handles_more_than_two_tokens h statement
    (ctx0 : LexingContext) :
  (length statement <= 2 ->
   handles E (Blk InlineIfLexer) h statement ctx0 = false)
  /\ (handles E (Blk InlineIfLexer) h statement ctx0 = true <->
      2 < length statement
      /\ statement_handles E InlineIfHeaderLexer h statement ctx0 = true).
Proof.
  unfold handles.
  destruct (Nat.leb_spec (length statement) 2) as [Hle|Hgt].
  - split; [reflexivity|]. split; [discriminate|]. intros [Hlt _]. lia.
  - split; [lia|]. split; [by split | by intros [_ ?]].
Qed.

(** ** lexer_for without a matching class *)

(** C3. When no class of the composite's list handles the statement,
    [lexer_for] raises the [TypeError] that carries the name of the
    composite's class and the statement, and class names tell the classes
    apart. [BlockLexer.input] raises the same error whenever it comes to
    ask [lexer_for], that is when there is no child or the last child does
    not accept more; so does [input] on a composite that passes the
    statement on as it is. It returns normally only when the last child
    accepted the statement and took it. *)
Theorem lexer_for_no_class_raises self h statement :
  Forall (fun c => handles E c h statement (ctx self) = false)
         (lexer_classes (cls self)) ->
  lexer_for E self h statement
    = Raise (TypeError (__name__ (cls self)) statement)
  /\ (forall c1 c2 : BlockClass, __name__ c1 = __name__ c2 -> c1 = c2)
  /\ (forall input,
        lexers self = []
        \/ (exists before last,
              lexers self = before ++ [last]
              /\ accepts_more E last h statement = Ok false) ->
        BlockLexer_input E input self statement h
          = Raise (TypeError (__name__ (cls self)) statement))
  /\ (forall fuel,
        lexers self = []
        \/ (exists before last,
              lexers self = before ++ [last]
              /\ accepts_more E last h statement = Ok false) ->
        resolve defines_input (cls self) = Some BlockLexer
        \/ resolve defines_input (cls self) = Some NestedBlockLexer ->
        input E (S fuel) (BlockNode self) statement h
          = Raise (TypeError (__name__ (cls self)) statement))
  /\ (forall input self' h' r,
        BlockLexer_input E input self statement h = Ok (self', h', r) ->
        exists before last last' r',
          lexers self = before ++ [last]
          /\ accepts_more E last h statement = Ok true
          /\ input last statement h = Ok (last', h', r')
          /\ lexers self' = before ++ [last']).
Proof.
  intros Hnone.
  assert (Hfor : lexer_for E self h statement
                 = Raise (TypeError (__name__ (cls self)) statement)).
  { unfold lexer_for. apply first_handling_None in Hnone. by rewrite Hnone. }
  assert (Hin : forall input,
             lexers self = []
             \/ (exists before last,
                   lexers self = before ++ [last]
                   /\ accepts_more E last h statement = Ok false) ->
             BlockLexer_input E input self statement h
             = Raise (TypeError (__name__ (cls self)) statement)).
  { intros input [Hnil | (before & last & Hl & Hacc)]; unfold BlockLexer_input.
    - rewrite Hnil. simpl. by rewrite Hfor.
    - rewrite Hl, split_last_snoc. simpl. rewrite Hacc. simpl.
      rewrite <- Hl. by rewrite Hfor. }
  split; [exact Hfor|]. split; [exact __name___inj|].
  split; [exact Hin|]. split.
  - intros fuel Hreach Hcls. simpl.
    destruct Hcls as [-> | ->].
    + by rewrite (Hin _ Hreach).
    + unfold NestedBlockLexer_input. by rewrite (Hin _ Hreach).
  - intros input self' h' r Hok. unfold BlockLexer_input in Hok.
    destruct (split_last (lexers self)) as [[before last]|] eqn:Hsl.
    + apply split_last_Some in Hsl.
      destruct (accepts_more E last h statement) as [[|]| |] eqn:Hacc;
        simpl in Hok; try discriminate.
      * destruct (input last statement h) as [[[last' h1] r1]| |] eqn:Hi;
          simpl in Hok; try discriminate.
        injection Hok as <- <- <-.
        exists before, last, last', r1. by repeat split.
      * rewrite Hfor in Hok. discriminate.
    + simpl in Hok. rewrite Hfor in Hok. discriminate.
Qed.

(** ** Unknown section headers *)

(** A section lexer stops at a statement that starts with a star. *)
Lemma section_accepts_more lexer h (t : TokenRef) (rest : Statement) :
  isinstance lexer (Blk SectionLexer) = true ->
  accepts_more E lexer h (t :: rest)
    = Ok (negb (startswith_star (value (deref h t)))).
Proof.
  destruct lexer as [c sctx sts | b]; simpl; [discriminate|].
  destruct b as [c ctx0 ls ns lvl]; simpl.
  destruct c; simpl; first [discriminate | reflexivity].
Qed.

(** C4. A statement that starts with a star and that no section predicate
    of the context recognises is handled by [ErrorSectionLexer], whose
    [handles] is "the statement is not empty and its first text starts with
    a star": the scan of [FileLexer] picks it, [FileLexer.input] opens an
    error section for the statement after the sections it holds, and the
    section classifies what it gets as header or as comment. The scan of
    [FileLexer] raises no error for any statement at all, since
    [ImplicitCommentSectionLexer] handles everything. *)
Theorem FileLexer_unknown_header_opens_error_section self h
    (t : TokenRef) (rest : Statement) :
  cls self = FileLexer ->
  startswith_star (value (deref h t)) = true ->
  setting_section E (ctx self) h (t :: rest) = false ->
  variable_section E (ctx self) h (t :: rest) = false ->
  test_case_section E (ctx self) h (t :: rest) = false ->
  task_section E (ctx self) h (t :: rest) = false ->
  keyword_section E (ctx self) h (t :: rest) = false ->
  comment_section E (ctx self) h (t :: rest) = false ->
  (forall h' statement' ctx',
     handles E (Blk ErrorSectionLexer) h' statement' ctx' = true <->
     exists t' rest', statement' = t' :: rest'
                      /\ startswith_star (value (deref h' t')) = true)
  /\ lexer_for E self h (t :: rest)
     = Ok (construct E (Blk ErrorSectionLexer) (ctx self))
  /\ lexer_classes ErrorSectionLexer
     = [Stmt ErrorSectionHeaderLexer; Stmt CommentLexer]
  /\ (forall h' statement' ctx',
        handles E (Blk ImplicitCommentSectionLexer) h' statement' ctx' = true)
  /\ (forall h' statement', exists lexer,
        lexer_for E self h' statement' = Ok lexer)
  /\ (forall input,
        Forall (fun child => isinstance child (Blk SectionLexer) = true)
               (lexers self) ->
        BlockLexer_input E input self (t :: rest) h
        = do '(section, h', _) <-
            input (construct E (Blk ErrorSectionLexer) (ctx self)) (t :: rest) h;
          Ok (with_lexers self (lexers self ++ [section]), h', RetLastChild)).
Proof.
  intros Hcls Hstar Hset Hvar Htest Htask Hkw Hcom.
  assert (Hfor : lexer_for E self h (t :: rest)
                 = Ok (construct E (Blk ErrorSectionLexer) (ctx self))).
  { unfold lexer_for. rewrite Hcls. simpl.
    by rewrite Hset, Hvar, Htest, Htask, Hkw, Hcom, Hstar. }
  split; [|split; [exact Hfor | split; [reflexivity | split; [reflexivity|split]]]].
  - intros h' statement' ctx'. simpl. destruct statement' as [|t' rest'].
    + split; [discriminate|]. intros (? & ? & ? & _). discriminate.
    + split; [eauto|]. by intros (? & ? & [= <- <-] & ?).
  - intros h' statement'. unfold lexer_for. rewrite Hcls. simpl.
    repeat match goal with
           | |- context [if ?b then _ else _] => destruct b
           end; eauto.
  - intros input Hsections. unfold BlockLexer_input.
    destruct (split_last (lexers self)) as [[before last]|] eqn:Hsl.
    + apply split_last_Some in Hsl. rewrite Hsl in Hsections.
      apply Forall_app in Hsections as [_ Hlast].
      apply Forall_inv in Hlast.
      rewrite (section_accepts_more _ _ _ _ Hlast), Hstar. simpl.
      rewrite Hfor. reflexivity.
    + simpl. rewrite Hfor. reflexivity.
Qed.

(** ** The inline IF splitter *)

Lemma split_loop_app h (last_token : TokenRef) (pre post : list TokenRef)
    (st : Statement * bool) :
  split_loop E h last_token (pre ++ post) st
  = split_events E h last_token pre st
    ++ split_loop E h last_token post (split_state E h last_token pre st).
Proof.
  revert st. induction pre as [|t pre IH]; intros st; simpl; [reflexivity|].
  destruct (split_step E h last_token st t) as [events st'] eqn:Hstep.
  simpl. rewrite IH, app_assoc. reflexivity.
Qed.

Lemma last_app_cons {A : Type} (pre l : list A) (x d : A) :
  List.last (pre ++ x :: l) d = List.last (x :: l) d.
Proof.
  induction pre as [|y pre IH]; [reflexivity|].
  rewrite <- app_comm_cons, <- IH.
  destruct (pre ++ x :: l) eqn:Hp; [by destruct pre | reflexivity].
Qed.

Lemma last_middle (pre post : list TokenRef) (token : TokenRef) :
  NoDup (pre ++ token :: post) ->
  (is_not token (List.last (pre ++ token :: post) 0) = true <-> post <> []).
Proof.
  intros Hnd. unfold is_not.
  rewrite last_app_cons. destruct post as [|x post].
  - simpl. rewrite Nat.eqb_refl. split; [discriminate | done].
  - split; [done|]. intros _. apply negb_true_iff, Nat.eqb_neq.
    apply NoDup_app in Hnd as (_ & _ & Hnd).
    apply NoDup_cons in Hnd as [Hnotin _].
    intros Heq. apply Hnotin. rewrite Heq.
    change (List.last (token :: x :: post) 0) with (List.last (x :: post) 0).
    apply list_elem_of_In.
    clear. revert x. induction post as [|y post IH]; intros x.
    + left. reflexivity.
    + right. apply (IH y).
Qed.

(** ** Priority lexing *)

Lemma flat_map_filter {A B : Type} (p : A -> bool) (f : A -> list B)
    (l : list A) :
  flat_map (fun x => if p x then f x else []) l = flat_map f (List.filter p l).
Proof.
  induction l as [|x l IH]; simpl; [reflexivity|].
  rewrite IH. destruct (p x); reflexivity.
Qed.

Lemma lex_with_priority self (priority : Class) :
  flat_map (fun child => if isinstance child priority then lex child else [])
           (lexers self)
  ++ flat_map (fun child => if negb (isinstance child priority)
                            then lex child else []) (lexers self)
  = priority_first priority (lexers self).
Proof.
  unfold priority_first.
  rewrite (flat_map_filter (fun child => isinstance child priority)).
  rewrite (flat_map_filter (fun child => negb (isinstance child priority))).
  reflexivity.
Qed.

(** The instances of [SettingSectionLexer] are the setting sections and,
    through [class KeywordSectionLexer(SettingSectionLexer)], the keyword
    sections. *)
Lemma isinstance_SettingSectionLexer lexer :
  isinstance lexer (Blk SettingSectionLexer) = true <->
  exists self, lexer = BlockNode self
               /\ (cls self = SettingSectionLexer
                   \/ cls self = KeywordSectionLexer).
Proof.
  destruct lexer as [c sctx sts | b]; simpl.
  - split; [discriminate|]. intros (? & ? & _). discriminate.
  - split.
    + intros H. exists b. split; [reflexivity|].
      destruct b as [c ? ? ? ?]; simpl in *.
      destruct c; simpl in H; try discriminate; auto.
    + intros (self & [= <-] & [Hc | Hc]); rewrite Hc; reflexivity.
Qed.

(** The instances of [TestOrKeywordSettingLexer] are the statement lexers
    of that class. *)
Lemma isinstance_TestOrKeywordSettingLexer lexer :
  isinstance lexer (Stmt TestOrKeywordSettingLexer) = true <->
  exists sctx statements,
    lexer = StatementNode TestOrKeywordSettingLexer sctx statements.
Proof.
  destruct lexer as [c sctx sts | b]; simpl.
  - split.
    + intros H. apply bool_decide_eq_true in H. subst c. eauto.
    + intros (? & ? & [= -> _ _]). reflexivity.
  - split; [discriminate|]. intros (? & ? & ?). discriminate.
Qed.

(** C5. [FileLexer.lex] calls [lex] on the children that are instances of
    [SettingSectionLexer], in the order of the list, and then on the other
    children, in the order of the list; [TestCaseLexer.lex] does the same
    with the children that are [TestOrKeywordSettingLexer]s. So when a
    test case holds a setting after another child, say a keyword call, the
    setting is lexed before everything that child lexes. *)
Theorem priority_lexing_File_and_TestCase self :
  (cls self = FileLexer ->
   lex (BlockNode self) = priority_first (Blk SettingSectionLexer) (lexers self))
  /\ (cls self = TestCaseLexer ->
      lex (BlockNode self)
      = priority_first (Stmt TestOrKeywordSettingLexer) (lexers self))
  /\ (cls self = TestCaseLexer ->
      forall before other between sctx statements after,
        lexers self
        = before ++ other :: between
          ++ StatementNode TestOrKeywordSettingLexer sctx statements :: after ->
        isinstance other (Stmt TestOrKeywordSettingLexer) = false ->
        exists t1 t2 t3,
          lex (BlockNode self)
          = t1 ++ Lex TestOrKeywordSettingLexer sctx statements :: t2
            ++ lex other ++ t3).
Proof.
  assert (Hfile : cls self = FileLexer ->
                  lex (BlockNode self)
                  = priority_first (Blk SettingSectionLexer) (lexers self)).
  { intros Hcls. rewrite <- lex_with_priority. simpl. rewrite Hcls.
    reflexivity. }
  assert (Htest : cls self = TestCaseLexer ->
                  lex (BlockNode self)
                  = priority_first (Stmt TestOrKeywordSettingLexer)
                                   (lexers self)).
  { intros Hcls. rewrite <- lex_with_priority. simpl. rewrite Hcls.
    reflexivity. }
  split; [exact Hfile | split; [exact Htest|]].
  intros Hcls before other between sctx statements after Hl Hother.
  rewrite (Htest Hcls), Hl. unfold priority_first.
  rewrite !List.filter_app. simpl. rewrite Hother. simpl.
  rewrite !List.filter_app. simpl.
  rewrite !flat_map_app. simpl. rewrite ?flat_map_app.
  set (prio := fun child : Lexer =>
                 isinstance child (Stmt TestOrKeywordSettingLexer)).
  set (rest := fun child : Lexer =>
                 negb (isinstance child (Stmt TestOrKeywordSettingLexer))).
  exists (flat_map lex (List.filter prio before)
          ++ flat_map lex (List.filter prio between)),
    (flat_map lex (List.filter prio after)
     ++ flat_map lex (List.filter rest before)),
    (flat_map lex (List.filter rest between)
     ++ flat_map lex (List.filter rest after)).
  simpl. rewrite <- !app_assoc. simpl. reflexivity.
Qed.

(** ** KeywordLexer.lex *)

(** C6, as amended. [KeywordLexer] does not override [lex]: it calls [lex]
    on its children in the order of the list, settings included, and so do
    all the composites but [FileLexer] and [TestCaseLexer]. *)
Theorem KeywordLexer_lex_in_order self :
  cls self <> FileLexer -> cls self <> TestCaseLexer ->
  resolve defines_lex KeywordLexer = Some BlockLexer
  /\ lex (BlockNode self) = flat_map lex (lexers self).
Proof.
  intros Hfile Htest. split; [reflexivity|].
  simpl. destruct self as [c ? ? ? ?]; simpl in *.
  destruct c; simpl; first [reflexivity | by destruct Hfile | by destruct Htest].
Qed.

(** ** Inline IF inside a nested block *)

(** C10. [InlineIfLexer.input] hands back the receiver, which is still an
    [InlineIfLexer]; an [InlineIfLexer] is neither a block header nor an
    END, and it accepts no further statement. So when the child that took
    the statement in a nested block lexer is an [InlineIfLexer] (or any
    composite of this file), the block level of the nested block lexer is
    what it was, and a composite whose last child is an [InlineIfLexer]
    gives the next statement to a new child and leaves that one as it
    is. *)
Theorem InlineIfLexer_keeps_block_level :
  (forall (fuel : nat) inline statement h lexer' h' r,
     cls inline = InlineIfLexer ->
     input E fuel (BlockNode inline) statement h = Ok (lexer', h', r) ->
     r = RetSelf
     /\ exists inline', lexer' = BlockNode inline'
                        /\ cls inline' = InlineIfLexer)
  /\ (forall inline,
        cls inline = InlineIfLexer ->
        is_block_header (Some (BlockNode inline)) = false
        /\ is_end (Some (BlockNode inline)) = false
        /\ forall h statement,
             accepts_more E (BlockNode inline) h statement = Ok false)
  /\ (forall (fuel : nat) nested statement h nested' h' r before child,
        resolve defines_input (cls nested) = Some NestedBlockLexer ->
        input E fuel (BlockNode nested) statement h
          = Ok (BlockNode nested', h', r) ->
        lexers nested' = before ++ [BlockNode child] ->
        _block_level nested' = _block_level nested)
  /\ (forall input parent before inline statement h parent' h' r,
        cls inline = InlineIfLexer ->
        lexers parent = before ++ [BlockNode inline] ->
        BlockLexer_input E input parent statement h = Ok (parent', h', r) ->
        exists new, lexers parent' = before ++ [BlockNode inline; new]).
Proof.
  assert (Hacc : forall inline h statement,
             cls inline = InlineIfLexer ->
             accepts_more E (BlockNode inline) h statement = Ok false).
  { intros inline h statement Hcls. simpl. by rewrite Hcls. }
  split; [|split; [|split]].
  - intros fuel inline statement h lexer' h' r Hcls Hok.
    apply input_BlockNode_Ok in Hok as (inline' & -> & Hc & _ & ->).
    rewrite Hcls. split; [reflexivity|]. exists inline'. split; congruence.
  - intros inline Hcls. repeat split. intros h statement. by apply Hacc.
  - intros fuel nested statement h nested' h' r before child Hres Hok Hl.
    apply NestedBlockLexer_input_Ok in Hok
      as (self' & before' & c & c' & r' & fuel' & [= <-] & _ & Hl' & _ & _ & Hlvl);
      [|exact Hres].
    rewrite Hl in Hl'. apply app_inj_tail in Hl' as [_ <-].
    rewrite Hlvl. simpl. lia.
  - intros input parent before inline statement h parent' h' r Hcls Hl Hok.
    apply BlockLexer_input_Ok in Hok
      as (_ & _ & _ & _ & _ & before' & c & c' & r' & Hl' & _ & Hcase).
    destruct Hcase as [[Hl2 Hacc2] | (Hl2 & _ & _)].
    + rewrite Hl in Hl2. apply app_inj_tail in Hl2 as [_ <-].
      rewrite (Hacc _ _ _ Hcls) in Hacc2. discriminate.
    + exists c'. rewrite Hl', <- Hl2, Hl, <- app_assoc. reflexivity.
Qed.

(** * Further properties *)

(** ** The parts and the markers of [_split] *)

Lemma yielded_app (events1 events2 : list SplitEvent) :
  yielded (events1 ++ events2) = yielded events1 ++ yielded events2.
Proof.
  induction events1 as [|[t | t | part] events1 IH]; simpl; by rewrite ?IH.
Qed.

Lemma split_loop_concat h (last_token : TokenRef) (tokens : list TokenRef)
    (current : Statement) (expect_condition : bool) :
  concat (yielded (split_loop E h last_token tokens
                     (current, expect_condition)))
  = current ++ tokens.
Proof.
  revert current expect_condition.
  induction tokens as [|token tokens IH]; intros current expect_condition.
  - simpl. by rewrite !app_nil_r.
  - cbn [split_loop]. unfold split_step.
    destruct expect_condition;
      [|destruct (String.eqb (value (deref h token)) "IF");
        [|destruct (String.eqb (normalize_whitespace E
                                  (value (deref h token))) "ELSE IF");
          [|destruct (String.eqb (value (deref h token)) "ELSE")]]];
      try destruct (is_not token last_token);
      rewrite ?yielded_app, ?concat_app, ?IH; simpl;
      rewrite ?IH, ?app_nil_r, <- ?app_assoc; reflexivity.
Qed.

(** X1. The parts that [_split] yields, put end to end, are the statement:
    splitting an inline IF loses no token, repeats none and keeps their
    order, whatever the texts are. The same holds of the parts that are
    dispatched, since only empty parts are skipped. *)
Theorem InlineIfLexer_split_partitions h statement :
  concat (yielded (_split E h statement)) = statement
  /\ concat (dispatched_parts (_split E h statement)) = statement.
Proof.
  assert (Hall : concat (yielded (_split E h statement)) = statement)
    by apply split_loop_concat.
  split; [exact Hall|].
  rewrite <- Hall at 2. unfold dispatched_parts.
  generalize (yielded (_split E h statement)) as parts.
  induction parts as [|part parts IH]; [reflexivity|].
  destruct part; simpl; by rewrite IH.
Qed.

Lemma split_loop_markers h (last_token : TokenRef) (tokens : list TokenRef)
    (st : Statement * bool) (event : SplitEvent) :
  In event (split_loop E h last_token tokens st) ->
  match event with
  | AddEosBefore token =>
      In token tokens
      /\ (value (deref h token) = "ELSE"
          \/ normalize_whitespace E (value (deref h token)) = "ELSE IF")
  | AddEosAfter token => In token tokens /\ token <> last_token
  | Yield _ => True
  end.
Proof.
  revert st. induction tokens as [|token tokens IH]; intros [current expect].
  - simpl. intros [<- | []]. exact I.
  - cbn [split_loop]. unfold split_step.
    assert (Hrest : forall st',
               In event (split_loop E h last_token tokens st') ->
               match event with
               | AddEosBefore token0 =>
                   In token0 (token :: tokens)
                   /\ (value (deref h token0) = "ELSE"
                       \/ normalize_whitespace E (value (deref h token0))
                          = "ELSE IF")
               | AddEosAfter token0 =>
                   In token0 (token :: tokens) /\ token0 <> last_token
               | Yield _ => True
               end).
    { intros st' Hin. apply IH in Hin. destruct event; try done;
        destruct Hin; split; try done; by right. }
    assert (Hafter : forall events,
               In event ((if is_not token last_token
                          then [AddEosAfter token] else []) ++ events) ->
               (event = AddEosAfter token /\ token <> last_token)
               \/ In event events).
    { intros events Hin. unfold is_not in Hin.
      destruct (Nat.eqb_spec token last_token) as [Heq | Hne]; simpl in Hin.
      - by right.
      - destruct Hin as [<- | Hin]; [by left | by right]. }
    destruct expect.
    { intros Hin. rewrite <- app_assoc in Hin.
      apply Hafter in Hin as [[-> Hne] | Hin]; [split; [by left | done]|].
      destruct Hin as [<- | Hin]; [exact I | by eapply Hrest]. }
    destruct (String.eqb (value (deref h token)) "IF").
    { simpl. apply Hrest. }
    destruct (String.eqb_spec
                (normalize_whitespace E (value (deref h token))) "ELSE IF")
      as [Hn | _].
    { intros [<- | [<- | Hin]];
        [split; [by left | by right] | exact I | by eapply Hrest]. }
    destruct (String.eqb_spec (value (deref h token)) "ELSE") as [Hv | _].
    { intros Hin. rewrite <- app_assoc in Hin.
      destruct Hin as [<- | Hin]; [split; [by left | by left]|].
      rewrite <- app_assoc in Hin.
      apply Hafter in Hin as [[-> Hne] | Hin]; [split; [by left | done]|].
      destruct Hin as [<- | [<- | Hin]];
        [exact I | exact I | by eapply Hrest]. }
    simpl. apply Hrest.
Qed.

(** X2. [_split] asks for markers on tokens of the statement only. It asks
    for a marker before a token only when the text of the token is ELSE or
    normalises to ELSE IF, and it never asks for a marker after the token
    that is last in the statement. *)
Theorem InlineIfLexer_split_markers h statement :
  (forall token,
     In (AddEosBefore token) (_split E h statement) ->
     In token statement
     /\ (value (deref h token) = "ELSE"
         \/ normalize_whitespace E (value (deref h token)) = "ELSE IF"))
  /\ (forall token,
        In (AddEosAfter token) (_split E h statement) ->
        In token statement /\ token <> List.last statement 0).
Proof.
  split; intros token Hin; exact (split_loop_markers _ _ _ _ _ Hin).
Qed.

(** ** The types a call of [input] sets *)

Lemma retypes_taken_only_refl h : retypes_taken_only h h.
Proof. intros t. split; [done | by left]. Qed.

Lemma retypes_taken_only_trans h h1 h2 :
  retypes_taken_only h h1 -> retypes_taken_only h1 h2 ->
  retypes_taken_only h h2.
Proof.
  intros H1 H2 t. destruct (H1 t) as [Hv1 Ht1], (H2 t) as [Hv2 Ht2].
  split; [congruence|].
  destruct Ht2 as [Heq | [Hname | [Hblank Hnone]]].
  - rewrite Heq. destruct Ht1 as [? | [Hname | [Hblank Hnone]]];
      [by left | right; left | right; right].
    + destruct Hname as [c Hc]. exists c. congruence.
    + split; congruence.
  - right. by left.
  - right. right. split; congruence.
Qed.

Lemma retypes_taken_only_flag (f : Token -> Token) (t : TokenRef) h :
  (forall tk, value (f tk) = value tk /\ type (f tk) = type tk) ->
  retypes_taken_only h (update f t h).
Proof.
  intros Hf t'. destruct (decide (t' = t)) as [-> | Hne].
  - rewrite deref_update_eq. destruct (Hf (deref h t)) as [-> ->].
    split; [done | by left].
  - rewrite deref_update_ne by done. split; [done | by left].
Qed.

Lemma truthy_false (s : string) : truthy s = false -> s = "".
Proof. by destruct s. Qed.

Lemma truthy_true (s : string) : truthy s = true -> s <> "".
Proof. by destruct s. Qed.

Lemma value_update_set_type (ty : option TokenType) (t t' : TokenRef) h :
  value (deref (update (set_type ty) t h) t') = value (deref h t').
Proof.
  destruct (decide (t' = t)) as [-> | Hne].
  - by rewrite deref_update_eq.
  - by rewrite deref_update_ne.
Qed.

(** What the loop over the blank cells does: it takes the leading tokens
    with an empty text off the statement and clears their types. *)
Lemma skip_indentation_spec statement h rest h' :
  skip_indentation statement h = (rest, h') ->
  exists blanks,
    statement = blanks ++ rest
    /\ Forall (fun t => value (deref h t) = "") blanks
    /\ match rest with
       | [] => True
       | t :: _ => value (deref h t) <> ""
       end
    /\ (forall t, In t blanks -> deref h' t = set_type None (deref h t))
    /\ (forall t, ~ In t blanks -> deref h' t = deref h t).
Proof.
  revert h. induction statement as [|t statement IH]; intros h; simpl.
  - intros [= <- <-]. exists [].
    split; [done | split; [constructor | split; [done | by split]]].
  - destruct (truthy (value (deref h t))) eqn:Htruthy.
    + intros [= <- <-]. exists [].
      split; [done | split; [constructor | split; [|by split]]].
      by apply truthy_true.
    + apply truthy_false in Htruthy. intros Hskip.
      apply IH in Hskip as (blanks & -> & Hblanks & Hhead & Hin & Hout).
      exists (t :: blanks). split; [done|]. split; [|split; [|split]].
      * constructor; [done|]. eapply Forall_impl; [exact Hblanks|].
        intros t'. simpl. by rewrite value_update_set_type.
      * destruct rest as [|t' rest]; [done|].
        by rewrite value_update_set_type in Hhead.
      * intros t' Ht'.
        destruct (in_dec Nat.eq_dec t' blanks) as [Hb | Hb].
        -- rewrite (Hin t' Hb). destruct (decide (t' = t)) as [-> | Hne].
           ++ by rewrite deref_update_eq.
           ++ by rewrite deref_update_ne.
        -- rewrite (Hout t' Hb). destruct Ht' as [<- | Ht']; [|done].
           by rewrite deref_update_eq.
      * intros t' Ht'. rewrite Hout by (intros Hb; apply Ht'; by right).
        apply deref_update_ne. intros ->. apply Ht'. by left.
Qed.

Lemma skip_indentation_retypes statement h rest h' :
  skip_indentation statement h = (rest, h') ->
  retypes_taken_only h h'
  /\ exists blanks,
       statement = blanks ++ rest /\ Forall (taken_off h h') blanks.
Proof.
  intros Hskip.
  apply skip_indentation_spec in Hskip
    as (blanks & -> & Hblanks & _ & Hin & Hout).
  assert (Hblank : forall t, In t blanks -> value (deref h t) = "").
  { intros t Ht. apply list_elem_of_In in Ht.
    by apply (proj1 (Forall_forall _ _) Hblanks). }
  split.
  - intros t. unfold taken_off.
    destruct (in_dec Nat.eq_dec t blanks) as [Hb | Hb].
    + rewrite (Hin t Hb). split; [done|]. right. right. split; [auto | done].
    + rewrite (Hout t Hb). split; [done | by left].
  - exists blanks. split; [done|]. apply Forall_forall. intros t Ht.
    apply list_elem_of_In in Ht. unfold taken_off. rewrite (Hin t Ht).
    right. split; [auto | done].
Qed.

Lemma _handle_name_or_indentation_retypes self statement h self1 rest h1 :
  _handle_name_or_indentation self statement h = Ok (self1, rest, h1) ->
  retypes_taken_only h h1
  /\ exists taken, statement = taken ++ rest /\ Forall (taken_off h h1) taken.
Proof.
  unfold _handle_name_or_indentation. destruct (negb (_name_seen self)).
  - destruct statement as [|token rest0]; [discriminate|].
    intros [= _ <- <-].
    set (named := update (set_type (Some (name_type (cls self)))) token h).
    assert (Hnamed : retypes_taken_only h named).
    { intros t. unfold named, taken_off.
      destruct (decide (t = token)) as [-> | Hne].
      - rewrite deref_update_eq. split; [done|]. right. left. by eexists.
      - rewrite deref_update_ne by done. split; [done | by left]. }
    assert (Htype : forall h2,
               h2 = named \/ h2 = update set_add_eos_after token named ->
               type (deref h2 token) = Some (name_type (cls self))).
    { intros h2 [-> | ->]; unfold named; by rewrite ?deref_update_eq. }
    split.
    + destruct rest0; [exact Hnamed|].
      eapply retypes_taken_only_trans; [exact Hnamed|].
      by apply retypes_taken_only_flag.
    + exists [token]. split; [done|]. constructor; [|constructor].
      left. exists (cls self). destruct rest0; apply Htype; auto.
  - destruct (skip_indentation statement h) as [rest0 h0] eqn:Hskip.
    intros [= _ <- <-]. by apply skip_indentation_retypes.
Qed.

Lemma taken_off_later h h1 h2 (t : TokenRef) :
  retypes_taken_only h h1 -> retypes_taken_only h1 h2 ->
  taken_off h h1 t -> taken_off h h2 t.
Proof.
  intros H1 H2 Ht. destruct (H1 t) as [Hv1 _], (H2 t) as [Hv2 Ht2].
  destruct Ht2 as [Heq | [Hname | [Hblank Hnone]]].
  - destruct Ht as [[c Hc] | [Hb Hn]].
    + left. exists c. congruence.
    + right. split; congruence.
  - by left.
  - right. split; congruence.
Qed.

Lemma taken_off_earlier h h1 h2 (t : TokenRef) :
  retypes_taken_only h h1 -> taken_off h1 h2 t -> taken_off h h2 t.
Proof.
  intros H1 [Hname | [Hblank Hnone]]; [by left|].
  right. destruct (H1 t) as [Hv1 _]. split; congruence.
Qed.

Section Retypes_methods.

Variable input : @Lexer LexingContext -> Statement -> gmap nat Token ->
                 Result (@Lexer LexingContext * gmap nat Token * Returned).

Hypothesis input_retypes :
  forall lexer statement h lexer' h' r,
    input lexer statement h = Ok (lexer', h', r) -> retypes_taken_only h h'.

Lemma BlockLexer_input_retypes self statement h self' h' r :
  BlockLexer_input E input self statement h = Ok (self', h', r) ->
  retypes_taken_only h h'.
Proof.
  intros Hok. apply BlockLexer_input_Ok in Hok
    as (_ & _ & _ & _ & _ & before & child & child' & r' & _ & Hi & _).
  by eapply input_retypes.
Qed.

Lemma run_split_retypes (events : list SplitEvent) self h self' h' :
  run_split E input events self h = Ok (self', h') ->
  retypes_taken_only h h'.
Proof.
  revert self h. induction events as [|event events IH]; intros self h; simpl.
  - intros [= <- <-]. apply retypes_taken_only_refl.
  - destruct event as [token | token | [|token part]].
    + intros Hok. eapply retypes_taken_only_trans; [|by eapply IH].
      by apply retypes_taken_only_flag.
    + intros Hok. eapply retypes_taken_only_trans; [|by eapply IH].
      by apply retypes_taken_only_flag.
    + apply IH.
    + intros Hok. apply bind_Ok in Hok as ([[self1 h1] r1] & H1 & H2).
      eapply retypes_taken_only_trans; [|by eapply IH].
      by eapply BlockLexer_input_retypes.
Qed.

End Retypes_methods.

Lemma input_retypes (fuel : nat) lexer statement h lexer' h' r :
  input E fuel lexer statement h = Ok (lexer', h', r) ->
  retypes_taken_only h h'.
Proof.
  revert lexer statement h lexer' h' r.
  induction fuel as [|fuel IH]; intros lexer statement h lexer' h' r;
    [discriminate|].
  destruct lexer as [c sctx sts | self].
  { intros [= _ <- _]. apply retypes_taken_only_refl. }
  rewrite input_S. intros Hok.
  apply bind_Ok in Hok as ([[self1 h1] r1] & Hm & [= _ <- _]).
  destruct (resolve defines_input (cls self)) as [[]|] eqn:Hres;
    try (by eapply (BlockLexer_input_retypes _ IH)).
  - unfold TestOrKeywordLexer_input in Hm.
    apply bind_Ok in Hm as ([[self2 st2] h2] & Hn & Hm).
    apply _handle_name_or_indentation_retypes in Hn as [Hr _].
    destruct st2 as [|t st2]; [by injection Hm as _ <- _|].
    apply bind_Ok in Hm as ([[self3 h3] r3] & Hb & [= _ <- _]).
    eapply retypes_taken_only_trans; [exact Hr|].
    by eapply (BlockLexer_input_retypes _ IH).
  - unfold NestedBlockLexer_input in Hm.
    apply bind_Ok in Hm as ([[self2 h2] r2] & Hb & Hm).
    cbv beta iota zeta in Hm.
    assert (h1 = h2) as ->
        by (destruct (is_block_header _), (is_end _); by injection Hm).
    by eapply (BlockLexer_input_retypes _ IH).
  - unfold InlineIfLexer_input in Hm.
    apply bind_Ok in Hm as ([self2 h2] & Hr & [= _ <- _]).
    by eapply (run_split_retypes _ IH).
Qed.


(** ** The tokens a call of [input] touches *)

Lemma touches_only_refl statement h : touches_only statement h h.
Proof. by split. Qed.

Lemma touches_only_trans statement h h1 h2 :
  touches_only statement h h1 -> touches_only statement h1 h2 ->
  touches_only statement h h2.
Proof.
  intros [Hv1 Hf1] [Hv2 Hf2]. split.
  - intros t. by rewrite Hv2, Hv1.
  - intros t Hnot. by rewrite (Hf2 t Hnot), (Hf1 t Hnot).
Qed.

Lemma touches_only_subset (statement1 statement2 : Statement) h h' :
  (forall t, In t statement1 -> In t statement2) ->
  touches_only statement1 h h' -> touches_only statement2 h h'.
Proof.
  intros Hsub [Hv Hf]. split; [exact Hv|]. intros t Hnot. apply Hf. auto.
Qed.

Lemma touches_only_update (f : Token -> Token) (t : TokenRef) statement h :
  (forall tk, value (f tk) = value tk) -> In t statement ->
  touches_only statement h (update f t h).
Proof.
  intros Hf Hin. split.
  - intros t'. destruct (decide (t' = t)) as [-> | Hne].
    + by rewrite deref_update_eq, Hf.
    + by rewrite deref_update_ne.
  - intros t' Hnot. apply deref_update_ne. intros ->. by apply Hnot.
Qed.

Lemma skip_indentation_touches statement h rest h' :
  skip_indentation statement h = (rest, h') ->
  touches_only statement h h' /\ (forall t, In t rest -> In t statement).
Proof.
  revert h. induction statement as [|t statement IH]; intros h; simpl.
  - intros [= <- <-]. split; [apply touches_only_refl | done].
  - destruct (truthy (value (deref h t))).
    + intros [= <- <-]. split; [apply touches_only_refl | done].
    + intros Hskip. apply IH in Hskip as [Ht Hsub]. split.
      * eapply touches_only_trans.
        -- apply (touches_only_update (set_type None) t); [done | by left].
        -- eapply touches_only_subset; [|exact Ht]. intros; by right.
      * intros t' Hin. right. by apply Hsub.
Qed.

Lemma _handle_name_or_indentation_touches self statement h self1 rest h1 :
  _handle_name_or_indentation self statement h = Ok (self1, rest, h1) ->
  touches_only statement h h1 /\ (forall t, In t rest -> In t statement).
Proof.
  unfold _handle_name_or_indentation. destruct (negb (_name_seen self)).
  - destruct statement as [|token rest0]; [discriminate|].
    intros [= _ <- <-]. split; [|intros; by right].
    destruct rest0.
    + apply touches_only_update; [done | by left].
    + apply touches_only_trans
        with (h1 := update (set_type (Some (name_type (cls self)))) token h);
        apply touches_only_update; first [done | by left].
  - destruct (skip_indentation statement h) as [rest0 h0] eqn:Hskip.
    intros [= _ <- <-]. by apply skip_indentation_touches.
Qed.

Section Touches_methods.

Variable input : @Lexer LexingContext -> Statement -> gmap nat Token ->
                 Result (@Lexer LexingContext * gmap nat Token * Returned).

Hypothesis input_touches :
  forall lexer statement h lexer' h' r,
    input lexer statement h = Ok (lexer', h', r) ->
    touches_only statement h h'.

Lemma BlockLexer_input_touches self statement h self' h' r :
  BlockLexer_input E input self statement h = Ok (self', h', r) ->
  touches_only statement h h'.
Proof.
  intros Hok. apply BlockLexer_input_Ok in Hok
    as (_ & _ & _ & _ & _ & before & child & child' & r' & _ & Hi & _).
  by eapply input_touches.
Qed.

Lemma run_split_touches (events : list SplitEvent) statement self h self' h' :
  (forall token, In (AddEosBefore token) events -> In token statement) ->
  (forall token, In (AddEosAfter token) events -> In token statement) ->
  (forall part token, In (Yield part) events -> In token part ->
                      In token statement) ->
  run_split E input events self h = Ok (self', h') ->
  touches_only statement h h'.
Proof.
  revert self h. induction events as [|event events IH];
    intros self h Hbefore Hafter Hparts; simpl.
  - intros [= <- <-]. apply touches_only_refl.
  - assert (IH' : forall self1 h1,
               run_split E input events self1 h1 = Ok (self', h') ->
               touches_only statement h1 h').
    { intros self1 h1. apply IH.
      - intros token Hin. apply Hbefore. by right.
      - intros token Hin. apply Hafter. by right.
      - intros part token Hin. apply Hparts. by right. }
    destruct event as [token | token | [|token part]].
    + intros Hok. eapply touches_only_trans; [|by eapply IH'].
      apply touches_only_update; [done|]. apply Hbefore. by left.
    + intros Hok. eapply touches_only_trans; [|by eapply IH'].
      apply touches_only_update; [done|]. apply Hafter. by left.
    + apply IH'.
    + intros Hok. apply bind_Ok in Hok as ([[self1 h1] r1] & H1 & H2).
      eapply touches_only_trans; [|by eapply IH'].
      eapply touches_only_subset; [|by eapply BlockLexer_input_touches].
      intros t Hin. eapply Hparts; [by left | exact Hin].
Qed.

End Touches_methods.

Lemma In_yielded (events : list SplitEvent) (part : Statement) :
  In (Yield part) events -> In part (yielded events).
Proof.
  induction events as [|[t | t | p] events IH]; simpl; try done.
  - intros [Heq | Hin]; [discriminate | auto].
  - intros [Heq | Hin]; [discriminate | auto].
  - intros [[= ->] | Hin]; [by left | right; auto].
Qed.

Lemma split_parts_in_statement h statement (part : Statement)
    (token : TokenRef) :
  In (Yield part) (_split E h statement) -> In token part ->
  In token statement.
Proof.
  intros Hpart Hin.
  assert (Hc : concat (yielded (_split E h statement)) = statement)
    by apply split_loop_concat.
  rewrite <- Hc. apply in_concat. exists part.
  split; [by apply In_yielded | exact Hin].
Qed.

(** X3. A call of [input] that returns has changed the text of no token,
    and it has left every token outside the statement exactly as it was:
    types and markers are set on tokens of the statement only. The only
    types it sets are the name type of a test case or keyword, and no type
    at all on a token whose text is empty. *)
Theorem input_touches_only_the_statement (fuel : nat) lexer statement h
    lexer' h' r :
  input E fuel lexer statement h = Ok (lexer', h', r) ->
  (forall t, value (deref h' t) = value (deref h t))
  /\ (forall t, ~ In t statement -> deref h' t = deref h t)
  /\ (forall t,
        type (deref h' t) = type (deref h t)
        \/ (exists c, type (deref h' t) = Some (name_type c))
        \/ (value (deref h t) = "" /\ type (deref h' t) = None)).
Proof.
  intros Hok.
  assert (Htypes : forall t,
             type (deref h' t) = type (deref h t)
             \/ (exists c, type (deref h' t) = Some (name_type c))
             \/ (value (deref h t) = "" /\ type (deref h' t) = None)).
  { intros t. by destruct (input_retypes _ _ _ _ _ _ _ Hok t) as [_ Ht]. }
  cut (touches_only statement h h').
  { intros [Hv Hf]. by repeat split. }
  clear Htypes. revert Hok.
  revert lexer statement h lexer' h' r.
  induction fuel as [|fuel IH]; intros lexer statement h lexer' h' r;
    [discriminate|].
  destruct lexer as [c sctx sts | self].
  { intros [= _ <- _]. apply touches_only_refl. }
  rewrite input_S. intros Hok.
  apply bind_Ok in Hok as ([[self1 h1] r1] & Hm & [= _ <- _]).
  destruct (resolve defines_input (cls self)) as [[]|] eqn:Hres;
    try (by eapply (BlockLexer_input_touches _ IH)).
  - unfold TestOrKeywordLexer_input in Hm.
    apply bind_Ok in Hm as ([[self2 st2] h2] & Hn & Hm).
    apply _handle_name_or_indentation_touches in Hn as [Ht Hsub].
    destruct st2 as [|t st2]; [by injection Hm as _ <- _|].
    apply bind_Ok in Hm as ([[self3 h3] r3] & Hb & [= _ <- _]).
    eapply touches_only_trans; [exact Ht|].
    eapply touches_only_subset; [exact Hsub|].
    by eapply (BlockLexer_input_touches _ IH).
  - unfold NestedBlockLexer_input in Hm.
    apply bind_Ok in Hm as ([[self2 h2] r2] & Hb & Hm).
    cbv beta iota zeta in Hm.
    assert (h1 = h2) as ->
        by (destruct (is_block_header _), (is_end _); by injection Hm).
    by eapply (BlockLexer_input_touches _ IH).
  - unfold InlineIfLexer_input in Hm.
    apply bind_Ok in Hm as ([self2 h2] & Hr & [= _ <- _]).
    eapply (run_split_touches _ IH); [| | |exact Hr].
    + intros token Hin. by apply (split_loop_markers _ _ _ _ _ Hin).
    + intros token Hin. by apply (split_loop_markers _ _ _ _ _ Hin).
    + intros part token. apply split_parts_in_statement.
Qed.

(** ** The tokens the lexers own *)

Lemma flat_map_snoc {A B : Type} (f : A -> list B) (l : list A) (x : A) :
  flat_map f (l ++ [x]) = flat_map f l ++ f x.
Proof. rewrite flat_map_app. simpl. by rewrite app_nil_r. Qed.

Lemma tokens_of_construct (c : Class) (ctx0 : LexingContext) :
  tokens_of (construct E c ctx0) = [].
Proof. by destruct c. Qed.

Lemma tokens_of_ext self self1 :
  lexers self1 = lexers self ->
  tokens_of (BlockNode self1) = tokens_of (BlockNode self).
Proof. intros Hl. simpl. by rewrite Hl. Qed.

Section Tokens_methods.

Variable input : @Lexer LexingContext -> Statement -> gmap nat Token ->
                 Result (@Lexer LexingContext * gmap nat Token * Returned).

Hypothesis input_tokens :
  forall lexer statement h lexer' h' r,
    well_formed lexer = true ->
    input lexer statement h = Ok (lexer', h', r) ->
    exists dropped kept,
      statement = dropped ++ kept
      /\ tokens_of lexer' = tokens_of lexer ++ kept
      /\ Forall (taken_off h h') dropped.

Hypothesis input_statement_node :
  forall c sctx statements statement h lexer' h' r,
    input (StatementNode c sctx statements) statement h = Ok (lexer', h', r) ->
    lexer' = StatementNode c sctx (statements ++ [statement]).

Lemma BlockLexer_input_tokens self statement h self' h' r :
  well_formed (BlockNode self) = true ->
  BlockLexer_input E input self statement h = Ok (self', h', r) ->
  exists dropped kept,
    statement = dropped ++ kept
    /\ tokens_of (BlockNode self') = tokens_of (BlockNode self) ++ kept
    /\ Forall (taken_off h h') dropped.
Proof.
  intros Hwf Hok.
  apply BlockLexer_input_Ok in Hok
    as (_ & _ & _ & _ & _ & before & child & child' & r' & Hl & Hi & Hcase).
  assert (Hchild : well_formed child = true
                   /\ tokens_of (BlockNode self)
                      = flat_map tokens_of before ++ tokens_of child).
  { destruct Hcase as [[Hl0 _] | (Hl0 & _ & Hfor)].
    - split; [by eapply well_formed_snoc|].
      simpl. by rewrite Hl0, flat_map_snoc.
    - apply lexer_for_Ok in Hfor as (k & _ & _ & ->).
      split; [apply construct_well_formed|].
      simpl. by rewrite tokens_of_construct, app_nil_r, Hl0. }
  destruct Hchild as [Hwfc Htok].
  destruct (input_tokens _ _ _ _ _ _ Hwfc Hi)
    as (dropped & kept & Hs & Hk & Hd).
  exists dropped, kept. split; [exact Hs|]. split; [|exact Hd].
  simpl tokens_of at 1. rewrite Hl, flat_map_snoc, Hk, Htok.
  by rewrite app_assoc.
Qed.

Lemma InlineIfLexer_BlockLexer_input_tokens self (part : Statement) h
    self' h' r :
  cls self = InlineIfLexer ->
  forallb is_statement_lexer (lexers self) = true ->
  BlockLexer_input E input self part h = Ok (self', h', r) ->
  tokens_of (BlockNode self') = tokens_of (BlockNode self) ++ part
  /\ cls self' = InlineIfLexer
  /\ forallb is_statement_lexer (lexers self') = true.
Proof.
  intros Hcls Hall Hok.
  apply BlockLexer_input_Ok in Hok
    as (_ & Hc & _ & _ & _ & before & child & child' & r' & Hl & Hi & Hcase).
  assert (Hchild : is_statement_lexer child = true
                   /\ forallb is_statement_lexer before = true
                   /\ tokens_of (BlockNode self)
                      = flat_map tokens_of before ++ tokens_of child).
  { destruct Hcase as [[Hl0 _] | (Hl0 & _ & Hfor)].
    - rewrite Hl0, forallb_snoc in Hall.
      apply andb_true_iff in Hall as [Hb Hchild].
      repeat split; try done. simpl. by rewrite Hl0, flat_map_snoc.
    - split; [by eapply InlineIfLexer_lexer_for|].
      split; [by rewrite <- Hl0|].
      apply lexer_for_Ok in Hfor as (k & _ & _ & ->).
      simpl. by rewrite tokens_of_construct, app_nil_r, Hl0. }
  destruct Hchild as (Hstmt & Hbefore & Htok).
  destruct child as [c sctx sts|]; [|discriminate].
  apply input_statement_node in Hi as ->.
  split; [|split; [congruence|]].
  - simpl tokens_of at 1. rewrite Hl, flat_map_snoc, Htok. simpl.
    by rewrite concat_app, <- app_assoc; simpl; rewrite app_nil_r.
  - by rewrite Hl, forallb_snoc, Hbefore.
Qed.

Lemma InlineIfLexer_run_split_tokens (events : list SplitEvent) self h
    self' h' :
  cls self = InlineIfLexer ->
  forallb is_statement_lexer (lexers self) = true ->
  run_split E input events self h = Ok (self', h') ->
  tokens_of (BlockNode self')
  = tokens_of (BlockNode self) ++ concat (yielded events).
Proof.
  revert self h. induction events as [|event events IH];
    intros self h Hcls Hall; simpl run_split.
  - intros [= <- <-]. simpl. by rewrite app_nil_r.
  - destruct event as [token | token | [|token part]];
      try (by apply IH).
    intros Hok. apply bind_Ok in Hok as ([[self1 h1] r1] & H1 & H2).
    apply InlineIfLexer_BlockLexer_input_tokens in H1
      as (Htok & Hc1 & Hall1); [|done|done].
    rewrite (IH _ _ Hc1 Hall1 H2), Htok. simpl yielded. simpl concat.
    by rewrite <- app_assoc.
Qed.

End Tokens_methods.

(** X4. When a call of [input] on a well formed lexer returns, the tokens
    that the statement lexers of the tree own are those they owned
    before, followed by the statement without a leading run of its
    tokens. Each token of that run was taken off by a test case or keyword
    lexer: it got a name type, or it is a blank cell whose type was
    cleared. So no token is repeated, moved or taken from elsewhere, and
    no token with a text is lost unless it names a test case or keyword. *)
Theorem input_appends_the_statement (fuel : nat) lexer statement h
    lexer' h' r :
  well_formed lexer = true ->
  input E fuel lexer statement h = Ok (lexer', h', r) ->
  exists dropped kept,
    statement = dropped ++ kept
    /\ tokens_of lexer' = tokens_of lexer ++ kept
    /\ Forall (fun t =>
                 (exists c, type (deref h' t) = Some (name_type c))
                 \/ (value (deref h t) = "" /\ type (deref h' t) = None))
              dropped.
Proof.
  change (well_formed lexer = true ->
          input E fuel lexer statement h = Ok (lexer', h', r) ->
          exists dropped kept,
            statement = dropped ++ kept
            /\ tokens_of lexer' = tokens_of lexer ++ kept
            /\ Forall (taken_off h h') dropped).
  revert lexer statement h lexer' h' r.
  induction fuel as [|fuel IH]; intros lexer statement h lexer' h' r Hwf;
    [discriminate|].
  assert (Hleaf : forall c sctx statements statement h lexer' h' r,
             input E fuel (StatementNode c sctx statements) statement h
             = Ok (lexer', h', r) ->
             lexer' = StatementNode c sctx (statements ++ [statement])).
  { intros c sctx sts s0 h0 l0 h0' r0. destruct fuel; [discriminate|].
    by intros [= <- _ _]. }
  destruct lexer as [c sctx sts | self].
  { intros [= <- _ _]. exists [], statement. split; [done|].
    split; [|constructor].
    simpl. by rewrite concat_app; simpl; rewrite app_nil_r. }
  rewrite input_S. intros Hok.
  apply bind_Ok in Hok as ([[self1 h1] r1] & Hm & [= <- <- _]).
  destruct (resolve defines_input (cls self)) as [[]|] eqn:Hres;
    try (by eapply (BlockLexer_input_tokens _ IH)).
  - unfold TestOrKeywordLexer_input in Hm.
    apply bind_Ok in Hm as ([[self2 st2] h2] & Hn & Hm).
    pose proof Hn as Hn'.
    apply _handle_name_or_indentation_retypes in Hn'
      as (Hr & taken & -> & Htaken).
    apply _handle_name_or_indentation_Ok in Hn as (Hc & _ & Hl).
    destruct st2 as [|t st2].
    + injection Hm as <- <- _. exists taken, [].
      split; [done|]. split; [|exact Htaken].
      by rewrite (tokens_of_ext _ _ Hl), app_nil_r.
    + apply bind_Ok in Hm as ([[self3 h3] r3] & Hb & [= <- <- _]).
      rewrite <- (well_formed_ext _ _ Hc Hl) in Hwf.
      pose proof (BlockLexer_input_retypes _ (input_retypes fuel) _ _ _ _ _ _
                    Hb) as Hr'.
      apply (BlockLexer_input_tokens _ IH) in Hb
        as (dropped & kept & Hs & Hk & Hd); [|exact Hwf].
      exists (taken ++ dropped), kept.
      split; [by rewrite Hs, app_assoc|].
      split; [by rewrite Hk, (tokens_of_ext _ _ Hl)|].
      apply Forall_app. split.
      * eapply Forall_impl; [exact Htaken|]. intros t0.
        by apply taken_off_later.
      * eapply Forall_impl; [exact Hd|]. intros t0.
        by apply taken_off_earlier.
  - unfold NestedBlockLexer_input in Hm.
    apply bind_Ok in Hm as ([[self2 h2] r2] & Hb & Hm).
    apply (BlockLexer_input_tokens _ IH) in Hb
      as (dropped & kept & Hs & Hk & Hd); [|exact Hwf].
    cbv beta iota zeta in Hm.
    assert (Heq : h1 = h2
                  /\ tokens_of (BlockNode self1) = tokens_of (BlockNode self2)).
    { destruct (is_block_header _), (is_end _); by injection Hm as <- <- _. }
    destruct Heq as [-> Htk].
    exists dropped, kept. split; [exact Hs|]. split; [|exact Hd].
    by rewrite Htk.
  - unfold InlineIfLexer_input in Hm.
    apply bind_Ok in Hm as ([self2 h2] & Hr & [= <- <- _]).
    assert (Hcls : cls self = InlineIfLexer).
    { destruct self as [c ? ? ? ?]; simpl in *. by destruct c. }
    assert (Hall : forallb is_statement_lexer (lexers self) = true).
    { simpl in Hwf. apply andb_true_iff in Hwf as [_ Hwf].
      by rewrite decide_True in Hwf. }
    exists [], statement. split; [done|]. split; [|constructor].
    rewrite (InlineIfLexer_run_split_tokens _ Hleaf _ _ _ _ _ Hcls Hall Hr).
    f_equal. apply split_loop_concat.
Qed.

(** ** The children of a composite *)

Lemma appended_to_refl {A : Type} (l : list A) : appended_to l l.
Proof.
  split; [|done]. destruct l as [|x l] using rev_ind.
  - by exists [].
  - exists [x]. by rewrite removelast_last.
Qed.

Lemma appended_to_snoc {A : Type} (before : list A) (x y : A) :
  appended_to (before ++ [x]) (before ++ [y]).
Proof.
  split; [|by rewrite !length_app]. exists [y]. by rewrite removelast_last.
Qed.

Lemma appended_to_new {A : Type} (l : list A) (y : A) :
  appended_to l (l ++ [y]).
Proof.
  split; [|rewrite length_app; lia]. destruct l as [|x l] using rev_ind.
  - by exists [y].
  - exists [x; y]. by rewrite removelast_last, <- app_assoc.
Qed.

Lemma appended_to_trans {A : Type} (l l1 l2 : list A) :
  appended_to l l1 -> appended_to l1 l2 -> appended_to l l2.
Proof.
  intros [[rest1 H1] Hlen1] [[rest2 H2] Hlen2]. split; [|lia].
  destruct rest1 as [|x rest1] using rev_ind.
  - rewrite app_nil_r in H1. subst l1.
    destruct l as [|x l] using rev_ind; [by exists l2|].
    rewrite removelast_last, length_app in Hlen1. simpl in Hlen1. lia.
  - rewrite H2, H1, app_assoc, removelast_last.
    exists (rest1 ++ rest2). by rewrite app_assoc.
Qed.

(** X5. The children of a composite are append only: when a call of
    [input] returns, every child but the one that was last is what and
    where it was, and no child has been removed. This holds for every
    class, also for [InlineIfLexer], which dispatches several parts. *)
Theorem input_children_append_only (fuel : nat) self statement h
    lexer' h' r :
  input E fuel (BlockNode self) statement h = Ok (lexer', h', r) ->
  exists self',
    lexer' = BlockNode self'
    /\ (exists rest, lexers self' = removelast (lexers self) ++ rest)
    /\ length (lexers self) <= length (lexers self').
Proof.
  destruct fuel as [|fuel]; [discriminate|].
  rewrite input_S. intros Hok.
  apply bind_Ok in Hok as ([[self1 h1] r1] & Hm & [= <- _ _]).
  exists self1. split; [reflexivity|].
  change (appended_to (lexers self) (lexers self1)).
  assert (Hblock : forall self0 statement0 h0 self2 h2 r2,
             BlockLexer_input E (input E fuel) self0 statement0 h0
             = Ok (self2, h2, r2) ->
             appended_to (lexers self0) (lexers self2)).
  { intros self0 statement0 h0 self2 h2 r2 Hb.
    apply BlockLexer_input_Ok in Hb
      as (_ & _ & _ & _ & _ & before & child & child' & r' & Hl & _ & Hcase).
    rewrite Hl. destruct Hcase as [[-> _] | (-> & _)].
    - apply appended_to_snoc.
    - apply appended_to_new. }
  destruct (resolve defines_input (cls self)) as [[]|] eqn:Hres;
    try (by eapply Hblock).
  - unfold TestOrKeywordLexer_input in Hm.
    apply bind_Ok in Hm as ([[self2 st2] h2] & Hn & Hm).
    apply _handle_name_or_indentation_Ok in Hn as (_ & _ & Hl).
    rewrite <- Hl. destruct st2 as [|t st2].
    + injection Hm as <- _ _. apply appended_to_refl.
    + apply bind_Ok in Hm as ([[self3 h3] r3] & Hb & [= <- _ _]).
      by eapply Hblock.
  - unfold NestedBlockLexer_input in Hm.
    apply bind_Ok in Hm as ([[self2 h2] r2] & Hb & Hm).
    apply Hblock in Hb. cbv beta iota zeta in Hm.
    destruct (is_block_header _), (is_end _); by injection Hm as <- _ _.
  - unfold InlineIfLexer_input in Hm.
    apply bind_Ok in Hm as ([self2 h2] & Hr & [= <- _ _]).
    clear Hres. revert Hr. generalize (_split E h statement) as events.
    intros events. revert self h.
    induction events as [|event events IH]; intros self h0; simpl.
    + intros [= <- _]. apply appended_to_refl.
    + destruct event as [token | token | [|token part]]; try apply IH.
      intros Hok. apply bind_Ok in Hok as ([[self3 h3] r3] & H1 & H2).
      eapply appended_to_trans; [by eapply Hblock | by eapply IH].
Qed.

(** X6. A call of [input] never changes the class or the context of the
    lexer it is called on. It leaves [_name_seen] alone except in a test
    case or keyword lexer, which has seen its name whenever the call
    returns, and it leaves [_block_level] alone except in a nested block
    lexer. *)
Theorem input_keeps_class_and_context (fuel : nat) self statement h
    lexer' h' r :
  input E fuel (BlockNode self) statement h = Ok (lexer', h', r) ->
  exists self',
    lexer' = BlockNode self'
    /\ cls self' = cls self /\ ctx self' = ctx self
    /\ (if decide (resolve defines_input (cls self) = Some TestOrKeywordLexer)
        then _name_seen self' = true
        else _name_seen self' = _name_seen self)
    /\ (resolve defines_input (cls self) <> Some NestedBlockLexer ->
        _block_level self' = _block_level self).
Proof.
  destruct fuel as [|fuel]; [discriminate|].
  rewrite input_S. intros Hok.
  apply bind_Ok in Hok as ([[self1 h1] r1] & Hm & [= <- _ _]).
  exists self1. split; [reflexivity|].
  destruct (resolve defines_input (cls self)) as [[]|] eqn:Hres;
    try (apply BlockLexer_input_Ok in Hm as (_ & Hc & Hx & Hn & Hb & _);
         rewrite decide_False by discriminate; by repeat split).
  - rewrite decide_True by reflexivity.
    unfold TestOrKeywordLexer_input in Hm.
    apply bind_Ok in Hm as ([[self2 st2] h2] & Hn & Hm).
    assert (Hself2 : cls self2 = cls self /\ ctx self2 = ctx self
                     /\ _name_seen self2 = true
                     /\ _block_level self2 = _block_level self).
    { unfold _handle_name_or_indentation in Hn.
      destruct (_name_seen self) eqn:Hseen; simpl in Hn.
      - destruct (skip_indentation statement h).
        injection Hn as <- _ _. by repeat split.
      - destruct statement; [discriminate|].
        injection Hn as <- _ _. by repeat split. }
    destruct Hself2 as (Hc2 & Hx2 & Hn2 & Hb2).
    destruct st2 as [|t st2].
    + injection Hm as <- _ _. by repeat split.
    + apply bind_Ok in Hm as ([[self3 h3] r3] & Hb & [= <- _ _]).
      apply BlockLexer_input_Ok in Hb as (_ & Hc & Hx & Hn' & Hb' & _).
      repeat split; congruence.
  - rewrite decide_False by discriminate.
    unfold NestedBlockLexer_input in Hm.
    apply bind_Ok in Hm as ([[self2 h2] r2] & Hb & Hm).
    apply BlockLexer_input_Ok in Hb as (_ & Hc & Hx & Hn & _).
    cbv beta iota zeta in Hm.
    destruct (is_block_header _), (is_end _); injection Hm as <- _ _;
      by repeat split.
  - rewrite decide_False by discriminate.
    unfold InlineIfLexer_input in Hm.
    apply bind_Ok in Hm as ([self2 h2] & Hr & [= <- _ _]).
    apply run_split_Ok in Hr as (Hc & Hx & Hn & Hb). by repeat split.
Qed.

(** ** Whole documents *)

Lemma FileLexer_input_sections (fuel : nat) file statement h lexer' h' r :
  cls file = FileLexer ->
  Forall (fun child => isinstance child (Blk SectionLexer) = true)
         (lexers file) ->
  input E fuel (BlockNode file) statement h = Ok (lexer', h', r) ->
  exists file',
    lexer' = BlockNode file' /\ cls file' = FileLexer
    /\ Forall (fun child => isinstance child (Blk SectionLexer) = true)
              (lexers file').
Proof.
  intros Hcls Hsections Hok.
  destruct fuel as [|fuel]; [discriminate|].
  rewrite input_S, Hcls in Hok.
  change (resolve defines_input FileLexer) with (Some BlockLexer) in Hok.
  apply bind_Ok in Hok as ([[file' h1] r1] & Hm & [= <- _ _]).
  exists file'. split; [reflexivity|].
  apply BlockLexer_input_Ok in Hm
    as (_ & Hc & _ & _ & _ & before & child & child' & r' & Hl & Hi & Hcase).
  split; [congruence|]. rewrite Hl. apply Forall_app.
  assert (Hchild : Forall (fun child => isinstance child (Blk SectionLexer)
                                        = true) before
                   /\ isinstance child (Blk SectionLexer) = true).
  { destruct Hcase as [[Hl0 _] | (Hl0 & _ & Hfor)].
    - rewrite Hl0 in Hsections. apply Forall_app in Hsections as [Hb Hlast].
      split; [exact Hb | by apply Forall_inv in Hlast].
    - split; [by rewrite <- Hl0|].
      apply lexer_for_Ok in Hfor as (k & Hin & _ & ->).
      rewrite Hcls in Hin. simpl in Hin.
      repeat (destruct Hin as [<- | Hin]; [reflexivity|]). destruct Hin. }
  destruct Hchild as [Hbefore Hsection].
  split; [exact Hbefore|]. constructor; [|constructor].
  destruct child as [|self0]; [discriminate|].
  apply input_BlockNode_Ok in Hi as (self0' & -> & Hc0 & _).
  simpl in *. by rewrite Hc0.
Qed.

(** X7. Whatever statements a new file lexer is fed, as long as the calls
    return, the tree it builds is well formed (the children of every
    [InlineIfLexer] are statement lexers) and the children of the file
    lexer are section lexers, each of which stops accepting at the next
    statement that starts with a star. *)
Theorem feed_file_builds_sections (fuel : nat) (ctx0 : LexingContext)
    (statements : list Statement) h lexer' h' :
  feed E fuel (construct E (Blk FileLexer) ctx0) statements h
    = Ok (lexer', h') ->
  exists file,
    lexer' = BlockNode file /\ cls file = FileLexer
    /\ well_formed lexer' = true
    /\ Forall (fun child => isinstance child (Blk SectionLexer) = true)
              (lexers file).
Proof.
  destruct (construct_Blk FileLexer ctx0) as (file0 & Heq & Hcls & Hl & _).
  pose proof (construct_well_formed (Blk FileLexer) ctx0) as Hwf.
  rewrite Heq in Hwf |- *.
  assert (Hsections : Forall (fun child => isinstance child (Blk SectionLexer)
                                           = true) (lexers file0))
    by (rewrite Hl; constructor).
  clear Heq Hl. revert file0 h Hcls Hwf Hsections.
  induction statements as [|statement statements IH];
    intros file0 h Hcls Hwf Hsections; simpl.
  - intros [= <- <-]. by exists file0.
  - intros Hok. apply bind_Ok in Hok as ([[lexer1 h1] r1] & H1 & H2).
    pose proof (input_well_formed _ _ _ _ _ _ _ H1 Hwf) as Hwf1.
    apply FileLexer_input_sections in H1
      as (file1 & -> & Hcls1 & Hsections1); [|done|done].
    by apply (IH file1 h1).
Qed.

(** X8. The calls of [input] nest at most five deeper than the tree of a
    well formed lexer is high: with that much fuel the call returns or
    raises, and more fuel gives the same result. *)
Theorem input_nests_to_bounded_depth (fuel : nat) lexer statement h :
  well_formed lexer = true ->
  enough_fuel lexer <= fuel ->
  input E (enough_fuel lexer) lexer statement h <> OutOfFuel
  /\ input E fuel lexer statement h
     = input E (enough_fuel lexer) lexer statement h.
Proof.
  intros Hwf Hfuel.
  assert (Hends : input E (enough_fuel lexer) lexer statement h <> OutOfFuel)
    by (by apply (input_ends (height lexer))).
  split; [exact Hends|].
  destruct (input_fuel_mono (enough_fuel lexer) fuel lexer statement h Hfuel)
    as [Hout | Heq]; [by destruct Hends | by symmetry].
Qed.

(** ** Blank cells and empty statements *)

(** X9. Once a test case or keyword lexer has seen its name, a statement
    loses its leading tokens with an empty text, up to the first token
    with a text: exactly these get the type [None], every other token is
    left as it is, and what remains goes through [BlockLexer.input]. When
    nothing remains (the statement is empty or all blank) no child is
    touched and the call returns. *)
Theorem TestOrKeywordLexer_skips_blank_cells (fuel : nat) self statement h :
  resolve defines_input (cls self) = Some TestOrKeywordLexer ->
  _name_seen self = true ->
  exists blanks rest h1,
    statement = blanks ++ rest
    /\ Forall (fun t => value (deref h t) = "") blanks
    /\ match rest with
       | [] => True
       | t :: _ => value (deref h t) <> ""
       end
    /\ (forall t, In t blanks -> deref h1 t = set_type None (deref h t))
    /\ (forall t, ~ In t blanks -> deref h1 t = deref h t)
    /\ input E (S fuel) (BlockNode self) statement h
       = match rest with
         | [] => Ok (BlockNode self, h1, RetNone)
         | _ :: _ =>
             do '(self', h', _) <-
               BlockLexer_input E (input E fuel) self rest h1;
             Ok (BlockNode self', h', RetNone)
         end.
Proof.
  intros Hres Hseen.
  destruct (skip_indentation statement h) as [rest h1] eqn:Hskip.
  pose proof (skip_indentation_spec _ _ _ _ Hskip)
    as (blanks & Hs & Hblanks & Hhead & Hin & Hout).
  exists blanks, rest, h1. repeat split; try done.
  rewrite input_S, Hres. unfold TestOrKeywordLexer_input.
  unfold _handle_name_or_indentation. rewrite Hseen, Hskip. simpl.
  destruct rest as [|t rest]; [reflexivity|].
  destruct (BlockLexer_input E (input E fuel) self (t :: rest) h1)
    as [[[self1 h2] r1]| |]; reflexivity.
Qed.

(** X10. The empty statement. A test case or keyword lexer that has not
    seen its name raises [IndexError] on it, and one that has seen its
    name returns without any change. A composite whose last child is a
    section lexer or a test case or keyword lexer raises [IndexError] on
    it, since that child looks at the first token to say whether it
    accepts more. *)
Theorem empty_statement_behaviour h :
  (forall (fuel : nat) self,
     resolve defines_input (cls self) = Some TestOrKeywordLexer ->
     input E (S fuel) (BlockNode self) [] h
     = if _name_seen self then Ok (BlockNode self, h, RetNone)
       else Raise IndexError)
  /\ (forall input parent before last,
        lexers parent = before ++ [last] ->
        isinstance last (Blk SectionLexer) = true
        \/ isinstance last (Blk TestOrKeywordLexer) = true ->
        accepts_more E last h [] = Raise IndexError
        /\ BlockLexer_input E input parent [] h = Raise IndexError).
Proof.
  split.
  - intros fuel self Hres. rewrite input_S, Hres.
    unfold TestOrKeywordLexer_input, _handle_name_or_indentation.
    by destruct (_name_seen self).
  - intros input parent before last Hl Hlast.
    assert (Hacc : accepts_more E last h [] = Raise IndexError).
    { destruct last as [c sctx sts | [c ctx0 ls ns lvl]];
        [by destruct Hlast|].
      simpl in *.
      destruct c; simpl in *; try reflexivity;
        destruct Hlast; discriminate. }
    split; [exact Hacc|].
    unfold BlockLexer_input. rewrite Hl, split_last_snoc. simpl.
    by rewrite Hacc.
Qed.

(** ** What lex() calls *)

Lemma lex_BlockNode self :
  lex (BlockNode self)
  = match resolve defines_lex (cls self) with
    | Some FileLexer => priority_first (Blk SettingSectionLexer) (lexers self)
    | Some TestCaseLexer =>
        priority_first (Stmt TestOrKeywordSettingLexer) (lexers self)
    | _ => flat_map lex (lexers self)
    end.
Proof.
  destruct (resolve defines_lex (cls self)) as [[]|] eqn:Hres;
    simpl; rewrite Hres; try reflexivity; apply lex_with_priority.
Qed.

Lemma priority_first_Permutation (priority : Class)
    (children : list (@Lexer LexingContext)) :
  Permutation (priority_first priority children) (flat_map lex children).
Proof.
  unfold priority_first. induction children as [|child children IH];
    simpl; [constructor|].
  destruct (isinstance child priority); simpl.
  - rewrite <- app_assoc. by apply Permutation_app_head.
  - rewrite <- IH. apply Permutation_app_swap_app.
Qed.

Lemma flat_map_Permutation {A B : Type} (f g : A -> list B) (l : list A) :
  Forall (fun x => Permutation (f x) (g x)) l ->
  Permutation (flat_map f l) (flat_map g l).
Proof.
  induction 1 as [|x l Hx _ IH]; simpl; [constructor|].
  by apply Permutation_app.
Qed.

(** X11. [lex()] calls [lex] once on each statement lexer of the tree:
    the calls are the statement lexers in the order of the tree, up to
    the reordering of priority lexing. Nothing is lexed twice and nothing
    is left out, at any depth. *)
Theorem lex_calls_each_statement_lexer_once lexer :
  Permutation (lex lexer) (leaves lexer)
  /\ length (lex lexer) = length (leaves lexer).
Proof.
  assert (Hperm : forall n lexer0,
             height lexer0 <= n -> Permutation (lex lexer0) (leaves lexer0)).
  { clear lexer. induction n as [|n IH]; intros lexer0 Hheight.
    - destruct lexer0 as [c sctx sts | self]; [reflexivity|].
      simpl in Hheight. lia.
    - destruct lexer0 as [c sctx sts | self]; [reflexivity|].
      assert (Hchildren : Forall (fun child => Permutation (lex child)
                                                           (leaves child))
                                 (lexers self)).
      { simpl in Hheight. apply Forall_forall. intros child Hin.
        apply IH. apply list_elem_of_In in Hin.
        assert (Hle : height child <= list_max (map height (lexers self))).
        { apply (proj1 (Forall_forall _ _)
                   (proj1 (list_max_le _ _) (le_n _))).
          apply list_elem_of_In, in_map, Hin. }
        lia. }
      rewrite lex_BlockNode.
      change (leaves (BlockNode self)) with (flat_map leaves (lexers self)).
      destruct (resolve defines_lex (cls self)) as [[]|];
        rewrite ?priority_first_Permutation;
        by apply flat_map_Permutation. }
  split; [by apply (Hperm (height lexer))|].
  apply Permutation_length. by apply (Hperm (height lexer)).
Qed.

(** ** How a nested block closes *)

(** X12. Under composite dispatch a nested block lexer is at block level
    zero, and so accepts nothing more, only after an END: its last child
    is then an [EndLexer]. The one other case is an IF lexer whose first
    statement went to an [InlineIfLexer]; it holds that child alone. *)
Theorem NestedBlockLexer_closes_on_END self :
  Dispatched E self ->
  _block_level self = 0%Z ->
  (exists before sctx statements,
     lexers self = before ++ [StatementNode EndLexer sctx statements])
  \/ (cls self = IfLexer
      /\ exists inline, lexers self = [BlockNode inline]
                        /\ cls inline = InlineIfLexer).
Proof.
  intros Hd. destruct Hd as [c ctx0 statement h fuel self' h' r Hc Hh Hok
                            | self statement h fuel self' h' r Hd Hacc Hok].
  - destruct (construct_Blk c ctx0) as (self & Heq & Hcls & Hl & Hlvl & _ & Hctx).
    assert (Hx : ctx self = ctx0)
      by (apply Hctx; destruct Hc as [-> | [-> | [-> | ->]]]; by split).
    rewrite Heq in Hok.
    pose proof Hok as Hok'.
    apply input_BlockNode_Ok in Hok' as (self2 & [= <-] & Hcls' & _).
    apply NestedBlockLexer_input_Ok in Hok
      as (self2 & before & child & child' & r' & fuel' & [= <-] & -> & Hl'
          & Hi & Hcase & Hlevel);
      [|rewrite Hcls; by apply nested_resolve_input].
    destruct Hcase as [[Hl0 _] | (Hl0 & _ & Hfor)].
    { rewrite Hl in Hl0. by destruct before. }
    rewrite Hl in Hl0. subst before.
    apply nested_lexer_for_first in Hfor
      as [(k & -> & Hk) | (Hif & ->)];
      [ | | by rewrite Hcls | by rewrite Hcls, Hx ].
    + destruct fuel' as [|fuel']; [discriminate|].
      rewrite input_StatementNode in Hi. injection Hi as <- _ _.
      intros Hzero. rewrite Hlevel, Hlvl in Hzero.
      destruct Hk as [-> | [-> | [-> | ->]]]; simpl in Hzero; lia.
    + intros _. right.
      apply input_BlockNode_Ok in Hi as (inline & -> & Hci & _).
      split; [congruence|]. exists inline. split; [exact Hl'|].
      by rewrite Hci.
  - intros Hzero. left.
    apply Dispatched_invariant in Hd as (Hcls & _ & _).
    simpl in Hacc. rewrite (proj2 (nested_resolve_input _ Hcls)) in Hacc.
    injection Hacc as Hpos. apply Z.ltb_lt in Hpos.
    apply NestedBlockLexer_input_Ok in Hok
      as (self2 & before & child & child' & r' & fuel' & [= <-] & -> & Hl'
          & _ & _ & Hlevel);
      [|by apply nested_resolve_input].
    rewrite Hlevel in Hzero.
    destruct (is_end (Some child')) eqn:Hend.
    + destruct child' as [k sctx sts | ?]; [|discriminate].
      simpl in Hend. apply bool_decide_eq_true in Hend as ->.
      by exists before, sctx, sts.
    + destruct (is_block_header (Some child')); lia.
Qed.

(** ** The catch-all classes *)

Lemma last_occurrence {A : Type} (l l1 l2 l3 : list A) (x : A) :
  NoDup l -> l = l1 ++ x :: l2 -> l = l3 ++ [x] -> l2 = [].
Proof.
  intros Hnd H1 H3. destruct l2 as [|y l2] using rev_ind; [reflexivity|].
  exfalso. clear IHl2.
  rewrite H1 in H3.
  change (l1 ++ x :: l2 ++ [y]) with (l1 ++ (x :: l2) ++ [y]) in H3.
  rewrite app_assoc in H3. apply app_inj_tail in H3 as [_ ->].
  rewrite H1 in Hnd. apply NoDup_app in Hnd as (_ & _ & Hnd).
  apply NoDup_cons in Hnd as [Hnotin _]. apply Hnotin.
  apply list_elem_of_In, in_or_app. right. by left.
Qed.

Lemma lexer_classes_NoDup (b : BlockClass) : NoDup (lexer_classes b).
Proof. destruct b; apply (bool_decide_unpack _); vm_compute; exact I. Qed.

(** X13. The catch-all classes come last. A composite makes a
    [KeywordCallLexer] for a statement only when no other class of its
    list handles the statement, and the file lexer opens an implicit
    comment section only when no other section class handles it: the
    catch-all never takes a statement from a more specific class. *)
Theorem catch_all_classes_come_last self h statement new :
  lexer_for E self h statement = Ok new ->
  ((exists sctx statements,
      new = StatementNode KeywordCallLexer sctx statements) ->
   forall c, In c (lexer_classes (cls self)) ->
             c <> Stmt KeywordCallLexer ->
             handles E c h statement (ctx self) = false)
  /\ ((exists section, new = BlockNode section
                       /\ cls section = ImplicitCommentSectionLexer) ->
      forall c, In c (lexer_classes (cls self)) ->
                c <> Blk ImplicitCommentSectionLexer ->
                handles E c h statement (ctx self) = false).
Proof.
  unfold lexer_for.
  destruct (first_handling E (lexer_classes (cls self)) h statement
              (ctx self)) as [k|] eqn:Hfirst; [|discriminate].
  intros [= <-].
  apply first_handling_Some in Hfirst as (skipped & rest & Hl & Hsk & _).
  assert (Hlast : forall x,
             k = x ->
             (exists front, lexer_classes (cls self) = front ++ [x]) ->
             forall c, In c (lexer_classes (cls self)) -> c <> x ->
                       handles E c h statement (ctx self) = false).
  { intros x -> [front Hfront] c Hin Hne.
    pose proof (last_occurrence _ _ _ _ _ (lexer_classes_NoDup _) Hl Hfront)
      as ->.
    rewrite Hl in Hin. apply in_app_or in Hin as [Hin | [<- | []]];
      [|done].
    apply list_elem_of_In in Hin.
    by apply (proj1 (Forall_forall _ _) Hsk). }
  split.
  - intros (sctx & sts & Hnew). apply Hlast.
    + destruct k as [k | b]; [by injection Hnew as -> _ _ | discriminate].
    + assert (Hin : In k (lexer_classes (cls self)))
        by (rewrite Hl; apply in_or_app; right; by left).
      assert (Hk : k = Stmt KeywordCallLexer)
        by (destruct k as [k | b]; [by injection Hnew as -> _ _ | discriminate]).
      rewrite Hk in Hin. clear -Hin.
      destruct (cls self);
        match type of Hin with
        | In _ ?x => let l := eval cbv in x in change x with l in Hin |- *
        end;
        simpl in Hin; try (by destruct Hin);
        match goal with
        | |- exists front, ?l = _ =>
            exists (removelast l); reflexivity
        | _ => idtac
        end;
        repeat (destruct Hin as [Hin | Hin]; [discriminate|]);
        destruct Hin.
  - intros (section & Hnew & Hsection). apply Hlast.
    + destruct k as [k | b]; [discriminate|].
      simpl in Hnew. injection Hnew as <-. simpl in Hsection. by subst b.
    + assert (Hin : In k (lexer_classes (cls self)))
        by (rewrite Hl; apply in_or_app; right; by left).
      assert (Hk : k = Blk ImplicitCommentSectionLexer).
      { destruct k as [k | b]; [discriminate|].
        simpl in Hnew. injection Hnew as <-. simpl in Hsection. by subst b. }
      rewrite Hk in Hin. clear -Hin.
      destruct (cls self);
        match type of Hin with
        | In _ ?x => let l := eval cbv in x in change x with l in Hin |- *
        end;
        simpl in Hin; try (by destruct Hin);
        match goal with
        | |- exists front, ?l = _ =>
            exists (removelast l); reflexivity
        | _ => idtac
        end;
        repeat (destruct Hin as [Hin | Hin]; [discriminate|]);
        destruct Hin.
Qed.


(** ** Keyword sections at file level *)

(** X14. [KeywordSectionLexer] is declared as a subclass of
    [SettingSectionLexer], so priority lexing at file level takes the
    keyword sections together with the setting sections: a keyword section
    is lexed before every section of another kind, also before one that
    comes earlier in the file. *)
Theorem FileLexer_lexes_keyword_sections_first (file : Block) :
  cls file = FileLexer ->
  forall before other between (section : Block) after,
    lexers file = before ++ other :: between ++ BlockNode section :: after ->
    cls section = KeywordSectionLexer \/ cls section = SettingSectionLexer ->
    isinstance other (Blk SettingSectionLexer) = false ->
    exists t1 t2 t3,
      lex (BlockNode file)
      = t1 ++ lex (BlockNode section) ++ t2 ++ lex other ++ t3.
Proof.
  intros Hcls before other between section after Hl Hsection Hother.
  assert (Hprio : isinstance (BlockNode section) (Blk SettingSectionLexer)
                  = true).
  { simpl. by destruct Hsection as [-> | ->]. }
  rewrite lex_BlockNode, Hcls.
  change (resolve defines_lex FileLexer) with (Some FileLexer).
  cbv beta iota. unfold priority_first. rewrite Hl.
  rewrite !List.filter_app. cbn [List.filter]. rewrite Hother. cbn [negb].
  rewrite !List.filter_app. cbn [List.filter]. rewrite Hprio. cbn [negb].
  rewrite !flat_map_app. cbn [flat_map]. rewrite ?flat_map_app.
  set (prio := fun child : Lexer =>
                 isinstance child (Blk SettingSectionLexer)).
  set (rest := fun child : Lexer =>
                 negb (isinstance child (Blk SettingSectionLexer))).
  exists (flat_map lex (List.filter prio before)
          ++ flat_map lex (List.filter prio between)),
    (flat_map lex (List.filter prio after)
     ++ flat_map lex (List.filter rest before)),
    (flat_map lex (List.filter rest between)
     ++ flat_map lex (List.filter rest after)).
  by rewrite <- !app_assoc.
Qed.

(** ** The children of an inline IF *)

Lemma InlineIfLexer_run_split_children (fuel : nat)
    (events : list SplitEvent) self h self' h' :
  (forall c sctx statements h0 statement0,
     statement_accepts_more E c sctx statements h0 statement0 = false) ->
  cls self = InlineIfLexer ->
  forallb is_statement_lexer (lexers self) = true ->
  run_split E (input E fuel) events self h = Ok (self', h') ->
  exists classes,
    lexers self'
    = lexers self
      ++ zip_with (fun c part => StatementNode c (ctx self) [part])
                  classes (dispatched_parts events)
    /\ length classes = length (dispatched_parts events)
    /\ Forall (fun c => In (Stmt c) (lexer_classes InlineIfLexer)) classes.
Proof.
  intros Hnomore. revert self h.
  induction events as [|event events IH]; intros self h Hcls Hall;
    cbn [run_split].
  - intros [= <- <-]. exists []. simpl. by rewrite app_nil_r.
  - destruct event as [token | token | [|token part]]; try (by apply IH).
    intros Hok. apply bind_Ok in Hok as ([[self1 h1] r1] & H1 & H2).
    apply BlockLexer_input_Ok in H1
      as (_ & Hc1 & Hx1 & _ & _ & before & child & child' & r' & Hl1 & Hi
          & Hcase).
    destruct Hcase as [[Hl0 Hacc] | (Hl0 & _ & Hfor)].
    { rewrite Hl0, forallb_snoc in Hall.
      apply andb_true_iff in Hall as [_ Hchild].
      destruct child as [c sctx sts|]; [|discriminate].
      simpl in Hacc. by rewrite Hnomore in Hacc. }
    apply lexer_for_Ok in Hfor as (k & Hin & _ & ->).
    rewrite Hcls in Hin.
    assert (Hk : exists c, k = Stmt c).
    { simpl in Hin.
      repeat (destruct Hin as [<- | Hin]; [by eexists|]). destruct Hin. }
    destruct Hk as [c ->].
    destruct fuel as [|fuel]; [discriminate|].
    cbn [construct] in Hi. rewrite input_StatementNode in Hi.
    injection Hi as <- _ _. subst before.
    assert (Hall1 : forallb is_statement_lexer (lexers self1) = true)
      by (by rewrite Hl1, forallb_snoc, Hall).
    destruct (IH self1 h1 (eq_trans Hc1 Hcls) Hall1 H2)
      as (classes & Hl' & Hlen & Hclasses).
    exists (c :: classes).
    split; [|split; [simpl; by rewrite Hlen | by constructor]].
    rewrite Hl', Hl1, Hx1, <- app_assoc. reflexivity.
Qed.

(** X15. When the statement lexers accept no second statement (as a
    statement lexer for one line does), an [InlineIfLexer] gives every
    part of the split that is not empty a statement lexer of its own: its
    new children are these parts, one each and in order, under classes of
    its list. *)
Theorem InlineIfLexer_one_child_per_part (fuel : nat) self statement h
    lexer' h' r :
  (forall c sctx statements h0 statement0,
     statement_accepts_more E c sctx statements h0 statement0 = false) ->
  cls self = InlineIfLexer ->
  forallb is_statement_lexer (lexers self) = true ->
  input E fuel (BlockNode self) statement h = Ok (lexer', h', r) ->
  exists self' classes,
    lexer' = BlockNode self'
    /\ lexers self'
       = lexers self
         ++ zip_with (fun c part => StatementNode c (ctx self) [part])
                     classes (dispatched_parts (_split E h statement))
    /\ length classes = length (dispatched_parts (_split E h statement))
    /\ Forall (fun c => In (Stmt c) (lexer_classes InlineIfLexer)) classes
    /\ concat (dispatched_parts (_split E h statement)) = statement.
Proof.
  intros Hnomore Hcls Hall Hok.
  destruct fuel as [|fuel]; [discriminate|].
  rewrite input_S, Hcls in Hok.
  change (resolve defines_input InlineIfLexer) with (Some InlineIfLexer)
    in Hok.
  apply bind_Ok in Hok as ([[self1 h1] r1] & Hm & [= <- _ _]).
  unfold InlineIfLexer_input in Hm.
  apply bind_Ok in Hm as ([self2 h2] & Hr & [= <- _ _]).
  destruct (InlineIfLexer_run_split_children _ _ _ _ _ _ Hnomore Hcls Hall Hr)
    as (classes & Hl & Hlen & Hclasses).
  exists self2, classes. repeat split; try done.
  transitivity (concat (yielded (_split E h statement)));
    [|apply split_loop_concat].
  unfold dispatched_parts.
  generalize (yielded (_split E h statement)) as parts.
  induction parts as [|part parts IH]; [reflexivity|].
  destruct part; simpl; by rewrite IH.
Qed.

(** ** The block level and the children *)

Lemma nested_level_step (fuel : nat) self statement h lexer' h' r :
  (forall c sctx statements h0 statement0,
     statement_accepts_more E c sctx statements h0 statement0 = false) ->
  cls self = ForLexer \/ cls self = WhileLexer
  \/ cls self = TryLexer \/ cls self = IfLexer ->
  _block_level self
  = (Z.of_nat (length (List.filter (fun child => is_block_header (Some child))
                                   (lexers self)))
     - Z.of_nat (length (List.filter (fun child => is_end (Some child))
                                     (lexers self))))%Z ->
  input E fuel (BlockNode self) statement h = Ok (lexer', h', r) ->
  exists self',
    lexer' = BlockNode self' /\ cls self' = cls self
    /\ _block_level self'
       = (Z.of_nat (length (List.filter
                              (fun child => is_block_header (Some child))
                              (lexers self')))
          - Z.of_nat (length (List.filter (fun child => is_end (Some child))
                                          (lexers self'))))%Z.
Proof.
  intros Hnomore Hcls Hinv Hok.
  pose proof Hok as Hok'.
  apply input_BlockNode_Ok in Hok' as (self0 & -> & Hcls' & _).
  apply NestedBlockLexer_input_Ok in Hok
    as (self' & before & child & child' & r' & fuel' & [= <-] & -> & Hl
        & Hi & Hcase & Hlevel);
    [|by apply nested_resolve_input].
  exists self0. split; [reflexivity|]. split; [exact Hcls'|].
  rewrite Hlevel, Hinv, Hl, !List.filter_app, !length_app.
  destruct Hcase as [[Hl0 Hacc] | (Hl0 & _)].
  - rewrite Hl0, !List.filter_app, !length_app.
    destruct child as [c sctx sts | block].
    { simpl in Hacc. by rewrite Hnomore in Hacc. }
    apply input_BlockNode_Ok in Hi as (block' & -> & _).
    simpl. lia.
  - rewrite Hl0. cbn [List.filter].
    destruct (is_block_header (Some child')), (is_end (Some child'));
      simpl; lia.
Qed.

(** X16. When the statement lexers accept no second statement, the block
    level of a nested block lexer is the number of its children that are
    FOR, IF, TRY or WHILE headers minus the number of its children that
    are ENDs, whatever statements it has been given since it was
    constructed. *)
Theorem NestedBlockLexer_level_counts_children (fuel : nat) (c : BlockClass)
    (ctx0 : LexingContext) (statements : list Statement) h lexer' h' :
  (forall k sctx sts h0 statement0,
     statement_accepts_more E k sctx sts h0 statement0 = false) ->
  c = ForLexer \/ c = WhileLexer \/ c = TryLexer \/ c = IfLexer ->
  feed E fuel (construct E (Blk c) ctx0) statements h = Ok (lexer', h') ->
  exists self,
    lexer' = BlockNode self
    /\ _block_level self
       = (Z.of_nat (length (List.filter
                              (fun child => is_block_header (Some child))
                              (lexers self)))
          - Z.of_nat (length (List.filter (fun child => is_end (Some child))
                                          (lexers self))))%Z.
Proof.
  intros Hnomore Hc.
  destruct (construct_Blk c ctx0) as (self0 & -> & Hcls & Hl & Hlvl & _).
  assert (Hinv : _block_level self0
                 = (Z.of_nat (length (List.filter
                                        (fun child =>
                                           is_block_header (Some child))
                                        (lexers self0)))
                    - Z.of_nat (length (List.filter
                                          (fun child => is_end (Some child))
                                          (lexers self0))))%Z)
    by (by rewrite Hl, Hlvl).
  assert (Hnested : cls self0 = ForLexer \/ cls self0 = WhileLexer
                    \/ cls self0 = TryLexer \/ cls self0 = IfLexer)
    by (by rewrite Hcls).
  clear Hcls Hl Hlvl. revert self0 h Hinv Hnested.
  induction statements as [|statement statements IH];
    intros self0 h Hinv Hnested; simpl.
  - intros [= <- <-]. by exists self0.
  - intros Hok. apply bind_Ok in Hok as ([[lexer1 h1] r1] & H1 & H2).
    apply nested_level_step in H1 as (self1 & -> & Hcls1 & Hinv1);
      [|done|done|done].
    apply (IH self1 h1 Hinv1); [|exact H2]. by rewrite Hcls1.
Qed.

(** * The inline IF splitter and the token store *)

(** ** Markers are never taken back *)

Lemma keeps_markers_refl h : keeps_markers h h.
Proof. by intros t. Qed.

Lemma keeps_markers_trans h h1 h2 :
  keeps_markers h h1 -> keeps_markers h1 h2 -> keeps_markers h h2.
Proof.
  intros H1 H2 t. destruct (H1 t) as [Hb1 Ha1], (H2 t) as [Hb2 Ha2].
  split; auto.
Qed.

Lemma keeps_markers_update (f : Token -> Token) (t : TokenRef) h :
  (forall tk,
     (_add_eos_before tk = true -> _add_eos_before (f tk) = true)
     /\ (_add_eos_after tk = true -> _add_eos_after (f tk) = true)) ->
  keeps_markers h (update f t h).
Proof.
  intros Hf t'. destruct (decide (t' = t)) as [-> | Hne].
  - rewrite deref_update_eq. apply Hf.
  - rewrite deref_update_ne by done. by split.
Qed.

Lemma skip_indentation_keeps_markers statement h rest h' :
  skip_indentation statement h = (rest, h') -> keeps_markers h h'.
Proof.
  revert h. induction statement as [|t statement IH]; intros h; simpl.
  - intros [= _ <-]. apply keeps_markers_refl.
  - destruct (truthy (value (deref h t))).
    + intros [= _ <-]. apply keeps_markers_refl.
    + intros Hskip. eapply keeps_markers_trans; [|by eapply IH].
      by apply keeps_markers_update.
Qed.

Lemma _handle_name_or_indentation_keeps_markers self statement h self1 rest
    h1 :
  _handle_name_or_indentation self statement h = Ok (self1, rest, h1) ->
  keeps_markers h h1.
Proof.
  unfold _handle_name_or_indentation. destruct (negb (_name_seen self)).
  - destruct statement as [|token rest0]; [discriminate|].
    intros [= _ _ <-]. destruct rest0.
    + by apply keeps_markers_update.
    + eapply keeps_markers_trans; by apply keeps_markers_update.
  - destruct (skip_indentation statement h) as [rest0 h0] eqn:Hskip.
    intros [= _ _ <-]. by eapply skip_indentation_keeps_markers.
Qed.

Section Markers_methods.

Variable input : @Lexer LexingContext -> Statement -> gmap nat Token ->
                 Result (@Lexer LexingContext * gmap nat Token * Returned).

Hypothesis input_keeps_markers :
  forall lexer statement h lexer' h' r,
    input lexer statement h = Ok (lexer', h', r) -> keeps_markers h h'.

Lemma BlockLexer_input_keeps_markers self statement h self' h' r :
  BlockLexer_input E input self statement h = Ok (self', h', r) ->
  keeps_markers h h'.
Proof.
  intros Hok. apply BlockLexer_input_Ok in Hok
    as (_ & _ & _ & _ & _ & before & child & child' & r' & _ & Hi & _).
  by eapply input_keeps_markers.
Qed.

(** The markers that the generator asks for are set in the store when the
    loop over its parts is over, whatever the children did meanwhile. *)
Lemma run_split_sets_markers (events : list SplitEvent) self h self' h' :
  run_split E input events self h = Ok (self', h') ->
  keeps_markers h h'
  /\ (forall t, In (AddEosBefore t) events ->
                _add_eos_before (deref h' t) = true)
  /\ (forall t, In (AddEosAfter t) events ->
                _add_eos_after (deref h' t) = true).
Proof.
  revert self h. induction events as [|event events IH]; intros self h;
    cbn [run_split].
  - intros [= _ <-]. split; [apply keeps_markers_refl|]. by split.
  - destruct event as [token | token | [|token part]].
    + intros Hok. apply IH in Hok as (Hk & Hb & Ha). split; [|split].
      * eapply keeps_markers_trans; [|exact Hk].
        by apply keeps_markers_update.
      * intros t [[= <-] | Hin]; [|by apply Hb].
        apply (proj1 (Hk token)). by rewrite deref_update_eq.
      * intros t [[=] | Hin]. by apply Ha.
    + intros Hok. apply IH in Hok as (Hk & Hb & Ha). split; [|split].
      * eapply keeps_markers_trans; [|exact Hk].
        by apply keeps_markers_update.
      * intros t [[=] | Hin]. by apply Hb.
      * intros t [[= <-] | Hin]; [|by apply Ha].
        apply (proj2 (Hk token)). by rewrite deref_update_eq.
    + intros Hok. apply IH in Hok as (Hk & Hb & Ha).
      split; [exact Hk|]. split.
      * intros t [[=] | Hin]. by apply Hb.
      * intros t [[=] | Hin]. by apply Ha.
    + intros Hok. apply bind_Ok in Hok as ([[self1 h1] r1] & H1 & H2).
      apply IH in H2 as (Hk & Hb & Ha). split; [|split].
      * eapply keeps_markers_trans; [|exact Hk].
        by eapply BlockLexer_input_keeps_markers.
      * intros t [[=] | Hin]. by apply Hb.
      * intros t [[=] | Hin]. by apply Ha.
Qed.

End Markers_methods.

Lemma input_keeps_markers (fuel : nat) lexer statement h lexer' h' r :
  input E fuel lexer statement h = Ok (lexer', h', r) -> keeps_markers h h'.
Proof.
  revert lexer statement h lexer' h' r.
  induction fuel as [|fuel IH]; intros lexer statement h lexer' h' r;
    [discriminate|].
  destruct lexer as [c sctx sts | self].
  { intros [= _ <- _]. apply keeps_markers_refl. }
  rewrite input_S. intros Hok.
  apply bind_Ok in Hok as ([[self1 h1] r1] & Hm & [= _ <- _]).
  destruct (resolve defines_input (cls self)) as [[]|] eqn:Hres;
    try (by eapply (BlockLexer_input_keeps_markers _ IH)).
  - unfold TestOrKeywordLexer_input in Hm.
    apply bind_Ok in Hm as ([[self2 st2] h2] & Hn & Hm).
    apply _handle_name_or_indentation_keeps_markers in Hn.
    destruct st2 as [|t st2]; [by injection Hm as _ <- _|].
    apply bind_Ok in Hm as ([[self3 h3] r3] & Hb & [= _ <- _]).
    eapply keeps_markers_trans; [exact Hn|].
    by eapply (BlockLexer_input_keeps_markers _ IH).
  - unfold NestedBlockLexer_input in Hm.
    apply bind_Ok in Hm as ([[self2 h2] r2] & Hb & Hm).
    cbv beta iota zeta in Hm.
    assert (h1 = h2) as ->
        by (destruct (is_block_header _), (is_end _); by injection Hm).
    by eapply (BlockLexer_input_keeps_markers _ IH).
  - unfold InlineIfLexer_input in Hm.
    apply bind_Ok in Hm as ([self2 h2] & Hr & [= _ <- _]).
    by eapply (run_split_sets_markers _ IH).
Qed.

(** ** The store of an inline IF whose children are statement lexers *)

(** The children of such an [InlineIfLexer] record their parts and leave
    the store alone. *)
Lemma InlineIfLexer_BlockLexer_input_store (fuel : nat) self statement h
    self' h' r :
  cls self = InlineIfLexer ->
  forallb is_statement_lexer (lexers self) = true ->
  BlockLexer_input E (input E fuel) self statement h = Ok (self', h', r) ->
  h' = h /\ cls self' = InlineIfLexer
  /\ forallb is_statement_lexer (lexers self') = true.
Proof.
  intros Hcls Hall Hok. destruct fuel as [|fuel].
  { apply BlockLexer_input_Ok in Hok
      as (_ & _ & _ & _ & _ & before & child & child' & r' & _ & Hi & _).
    discriminate. }
  split;
    [|exact (proj2 (InlineIfLexer_BlockLexer_input fuel self statement h
                      Hcls Hall) _ _ _ Hok)].
  apply BlockLexer_input_Ok in Hok
    as (_ & _ & _ & _ & _ & before & child & child' & r' & _ & Hi & Hcase).
  assert (Hchild : is_statement_lexer child = true).
  { destruct Hcase as [[Hl0 _] | (_ & _ & Hfor)].
    - rewrite Hl0, forallb_snoc in Hall.
      by apply andb_true_iff in Hall as [_ ?].
    - by eapply InlineIfLexer_lexer_for. }
  destruct child as [c sctx sts|]; [|discriminate].
  rewrite input_StatementNode in Hi. by injection Hi as _ <- _.
Qed.

(** So a marker the generator did not ask for is as it was. *)
Lemma InlineIfLexer_run_split_unrequested (fuel : nat)
    (events : list SplitEvent) self h self' h' (t : TokenRef) :
  cls self = InlineIfLexer ->
  forallb is_statement_lexer (lexers self) = true ->
  run_split E (input E fuel) events self h = Ok (self', h') ->
  (~ In (AddEosBefore t) events ->
   _add_eos_before (deref h' t) = _add_eos_before (deref h t))
  /\ (~ In (AddEosAfter t) events ->
      _add_eos_after (deref h' t) = _add_eos_after (deref h t)).
Proof.
  revert self h. induction events as [|event events IH];
    intros self h Hcls Hall; cbn [run_split].
  - intros [= _ <-]. by split.
  - destruct event as [token | token | [|token part]].
    + intros Hok. destruct (IH _ _ Hcls Hall Hok) as [Hb Ha]. split.
      * intros Hnot. rewrite Hb by (intros Hin; apply Hnot; by right).
        rewrite deref_update_ne; [done|]. intros ->. apply Hnot. by left.
      * intros Hnot. rewrite Ha by (intros Hin; apply Hnot; by right).
        destruct (decide (t = token)) as [-> | Hne].
        -- by rewrite deref_update_eq.
        -- by rewrite deref_update_ne.
    + intros Hok. destruct (IH _ _ Hcls Hall Hok) as [Hb Ha]. split.
      * intros Hnot. rewrite Hb by (intros Hin; apply Hnot; by right).
        destruct (decide (t = token)) as [-> | Hne].
        -- by rewrite deref_update_eq.
        -- by rewrite deref_update_ne.
      * intros Hnot. rewrite Ha by (intros Hin; apply Hnot; by right).
        rewrite deref_update_ne; [done|]. intros ->. apply Hnot. by left.
    + intros Hok. destruct (IH _ _ Hcls Hall Hok) as [Hb Ha].
      split; intros Hnot; [apply Hb | apply Ha]; intros Hin; apply Hnot;
        by right.
    + intros Hok. apply bind_Ok in Hok as ([[self1 h1] r1] & H1 & H2).
      apply InlineIfLexer_BlockLexer_input_store in H1
        as (-> & Hc1 & Hall1); [|done..].
      destruct (IH _ _ Hc1 Hall1 H2) as [Hb Ha].
      split; intros Hnot; [apply Hb | apply Ha]; intros Hin; apply Hnot;
        by right.
Qed.

(** [InlineIfLexer.input] is the loop over the parts of [_split]. *)
Lemma InlineIfLexer_input_Ok (fuel : nat) self statement h lexer' h' r :
  cls self = InlineIfLexer ->
  input E fuel (BlockNode self) statement h = Ok (lexer', h', r) ->
  exists self',
    lexer' = BlockNode self'
    /\ run_split E (input E (pred fuel)) (_split E h statement) self h
       = Ok (self', h').
Proof.
  intros Hcls Hok. destruct fuel as [|fuel]; [discriminate|].
  rewrite input_S, Hcls in Hok.
  change (resolve defines_input InlineIfLexer) with (Some InlineIfLexer)
    in Hok.
  apply bind_Ok in Hok as ([[self1 h1] r1] & Hm & [= <- <- _]).
  unfold InlineIfLexer_input in Hm.
  apply bind_Ok in Hm as ([self2 h2] & Hr & [= <- <- _]).
  by exists self2.
Qed.

Lemma dispatched_parts_app (events1 events2 : list SplitEvent) :
  dispatched_parts (events1 ++ events2)
  = dispatched_parts events1 ++ dispatched_parts events2.
Proof. unfold dispatched_parts. by rewrite yielded_app, List.filter_app. Qed.

Lemma dispatched_parts_else (events1 events2 : list SplitEvent)
    (token last_token : TokenRef) (current : Statement) :
  dispatched_parts
    (events1 ++ [AddEosBefore token]
       ++ (if is_not token last_token then [AddEosAfter token] else [])
       ++ [Yield current; Yield [token]] ++ events2)
  = dispatched_parts events1 ++ dispatched_parts [Yield current]
    ++ [token] :: dispatched_parts events2.
Proof.
  rewrite dispatched_parts_app. f_equal.
  destruct (is_not token last_token), current; reflexivity.
Qed.

Lemma dispatched_parts_else_if (events1 events2 : list SplitEvent)
    (token condition last_token : TokenRef) (current : Statement) :
  dispatched_parts
    (events1 ++ [AddEosBefore token; Yield current]
       ++ (if is_not condition last_token then [AddEosAfter condition] else [])
       ++ [Yield [token; condition]] ++ events2)
  = dispatched_parts events1 ++ dispatched_parts [Yield current]
    ++ [token; condition] :: dispatched_parts events2.
Proof.
  rewrite dispatched_parts_app. f_equal.
  destruct (is_not condition last_token), current; reflexivity.
Qed.

(** ** ELSE and ELSE IF in an inline IF *)

(** C9. Take a token of the statement that the loop of [_split] meets
    while it is not waiting for a condition, [current] being the part
    gathered so far.

    If its text is ELSE (and white space normalisation does not turn that
    into ELSE IF), the generator requests a marker before it, requests one
    after it exactly when it is not the last token of the statement,
    yields [current], yields the part made of the token alone, and goes on
    with an empty part. When [InlineIfLexer.input] has returned, the token
    in the store has [_add_eos_before] set, and [_add_eos_after] set when
    tokens follow it; when none follows, [_add_eos_after] is what it was
    (the children being statement lexers, which write no marker), and the
    new children are, in order, those of the parts yielded before, of
    [current] when it is not empty, of the part made of the token alone,
    and of the parts yielded after.

    If its normalised text is ELSE IF (and it is not the text IF itself,
    which is looked at first), the generator requests a marker before it,
    yields [current] and goes on with a part that starts with the token,
    the next token being taken as the condition that closes this part.
    When [InlineIfLexer.input] has returned, the token in the store has
    [_add_eos_before] set, the condition has [_add_eos_after] set when
    tokens follow it and unchanged when none does, and the part of the
    token and the condition has a child of its own after the one of
    [current]. *)
Theorem InlineIfLexer_split_else h (pre post : list TokenRef)
    (token : TokenRef) (current : Statement) :
  let statement := pre ++ token :: post in
  let last_token := List.last statement 0 in
  let events_before := split_events E h last_token pre ([], false) in
  NoDup statement ->
  split_state E h last_token pre ([], false) = (current, false) ->
  (value (deref h token) = "ELSE" ->
   normalize_whitespace E "ELSE" <> "ELSE IF" ->
   _split E h statement
   = events_before
     ++ [AddEosBefore token]
     ++ (if is_not token last_token then [AddEosAfter token] else [])
     ++ [Yield current; Yield [token]]
     ++ split_loop E h last_token post ([], false)
   /\ forall (fuel : nat) self lexer' h' r,
        cls self = InlineIfLexer ->
        input E fuel (BlockNode self) statement h = Ok (lexer', h', r) ->
        _add_eos_before (deref h' token) = true
        /\ (post <> [] -> _add_eos_after (deref h' token) = true)
        /\ (forallb is_statement_lexer (lexers self) = true ->
            (post = [] ->
             _add_eos_after (deref h' token)
             = _add_eos_after (deref h token))
            /\ ((forall c sctx statements h0 statement0,
                   statement_accepts_more E c sctx statements h0 statement0
                   = false) ->
                exists self' classes,
                  let parts :=
                    dispatched_parts events_before
                    ++ dispatched_parts [Yield current]
                    ++ [token]
                       :: dispatched_parts
                            (split_loop E h last_token post ([], false)) in
                  lexer' = BlockNode self'
                  /\ lexers self'
                     = lexers self
                       ++ zip_with
                            (fun c part => StatementNode c (ctx self) [part])
                            classes parts
                  /\ length classes = length parts)))
  /\ (is_not token last_token = true <-> post <> [])
  /\ (normalize_whitespace E (value (deref h token)) = "ELSE IF" ->
      value (deref h token) <> "IF" ->
      (_split E h statement
       = events_before
         ++ [AddEosBefore token; Yield current]
         ++ split_loop E h last_token post ([token], true)
       /\ forall condition post',
            post = condition :: post' ->
            split_loop E h last_token post ([token], true)
            = (if is_not condition last_token
               then [AddEosAfter condition] else [])
              ++ [Yield [token; condition]]
              ++ split_loop E h last_token post' ([], false))
      /\ forall (fuel : nat) self lexer' h' r,
           cls self = InlineIfLexer ->
           input E fuel (BlockNode self) statement h = Ok (lexer', h', r) ->
           _add_eos_before (deref h' token) = true
           /\ forall condition post',
                post = condition :: post' ->
                (post' <> [] -> _add_eos_after (deref h' condition) = true)
                /\ (forallb is_statement_lexer (lexers self) = true ->
                    (post' = [] ->
                     _add_eos_after (deref h' condition)
                     = _add_eos_after (deref h condition))
                    /\ ((forall c sctx statements h0 statement0,
                           statement_accepts_more E c sctx statements h0
                                                  statement0 = false) ->
                        exists self' classes,
                          let parts :=
                            dispatched_parts events_before
                            ++ dispatched_parts [Yield current]
                            ++ [token; condition]
                               :: dispatched_parts
                                    (split_loop E h last_token post'
                                                ([], false)) in
                          lexer' = BlockNode self'
                          /\ lexers self'
                             = lexers self
                               ++ zip_with
                                    (fun c part =>
                                       StatementNode c (ctx self) [part])
                                    classes parts
                          /\ length classes = length parts))).
Proof.
  intros statement last_token events_before Hnd Hstate.
  assert (Hlast : is_not token last_token = true <-> post <> [])
    by (apply last_middle; exact Hnd).
  split; [|split; [exact Hlast|]].
  - intros Hvalue Hnorm.
    assert (Hev : _split E h statement
                  = events_before
                    ++ [AddEosBefore token]
                    ++ (if is_not token last_token
                        then [AddEosAfter token] else [])
                    ++ [Yield current; Yield [token]]
                    ++ split_loop E h last_token post ([], false)).
    { unfold _split. fold statement. fold last_token.
      unfold statement at 1. rewrite split_loop_app, Hstate. f_equal.
      simpl. unfold split_step. rewrite Hvalue. simpl.
      destruct (String.eqb_spec (normalize_whitespace E "ELSE") "ELSE IF")
        as [Heq|_]; [by destruct Hnorm|].
      simpl. rewrite <- !app_assoc. reflexivity. }
    split; [exact Hev|].
    intros fuel self lexer' h' r Hcls Hok.
    destruct (InlineIfLexer_input_Ok _ _ _ _ _ _ _ Hcls Hok)
      as (self' & -> & Hr).
    destruct (run_split_sets_markers _ (input_keeps_markers (pred fuel))
                _ _ _ _ _ Hr) as (_ & Hb & Ha).
    split; [|split].
    + apply Hb. rewrite Hev. apply in_or_app. right. by left.
    + intros Hpost. apply Ha. rewrite Hev. apply Hlast in Hpost.
      rewrite Hpost. apply in_or_app. right. right. by left.
    + intros Hall. split.
      * intros Hpost.
        apply (proj2 (InlineIfLexer_run_split_unrequested
                        _ _ _ _ _ _ token Hcls Hall Hr)).
        unfold _split. intros Hin.
        apply split_loop_markers in Hin as [_ Hne]. apply Hne.
        unfold statement. rewrite Hpost, last_app_cons. reflexivity.
      * intros Hnomore.
        destruct (InlineIfLexer_run_split_children _ _ _ _ _ _ Hnomore Hcls
                    Hall Hr) as (classes & Hl & Hlen & _).
        exists self', classes. intros parts. subst parts.
        split; [done|].
        rewrite Hev, dispatched_parts_else in Hl, Hlen. by split.
  - intros Hnorm Hvalue.
    assert (Hev : _split E h statement
                  = events_before
                    ++ [AddEosBefore token; Yield current]
                    ++ split_loop E h last_token post ([token], true)).
    { unfold _split. fold statement. fold last_token.
      unfold statement at 1. rewrite split_loop_app, Hstate. f_equal.
      simpl. unfold split_step.
      destruct (String.eqb_spec (value (deref h token)) "IF") as [Heq|_];
        [by destruct Hvalue|].
      rewrite Hnorm. reflexivity. }
    assert (Hcond : forall condition post',
               post = condition :: post' ->
               split_loop E h last_token post ([token], true)
               = (if is_not condition last_token
                  then [AddEosAfter condition] else [])
                 ++ [Yield [token; condition]]
                 ++ split_loop E h last_token post' ([], false)).
    { intros condition post' Hpost. rewrite Hpost. simpl.
      destruct (is_not condition last_token); reflexivity. }
    split; [split; [exact Hev | exact Hcond]|].
    intros fuel self lexer' h' r Hcls Hok.
    destruct (InlineIfLexer_input_Ok _ _ _ _ _ _ _ Hcls Hok)
      as (self' & -> & Hr).
    destruct (run_split_sets_markers _ (input_keeps_markers (pred fuel))
                _ _ _ _ _ Hr) as (_ & Hb & Ha).
    split.
    + apply Hb. rewrite Hev. apply in_or_app. right. by left.
    + intros condition post' Hpost.
      assert (Hnot : is_not condition last_token = true <-> post' <> []).
      { unfold last_token, statement. rewrite Hpost.
        replace (pre ++ token :: condition :: post')
          with ((pre ++ [token]) ++ condition :: post')
          by (by rewrite <- app_assoc).
        apply last_middle. rewrite <- app_assoc. simpl. rewrite <- Hpost.
        exact Hnd. }
      specialize (Hcond _ _ Hpost).
      split.
      * intros Hpost'. apply Ha. rewrite Hev, Hcond.
        apply Hnot in Hpost'. rewrite Hpost'.
        apply in_or_app. right. right. right. by left.
      * intros Hall. split.
        -- intros Hpost'.
           apply (proj2 (InlineIfLexer_run_split_unrequested
                           _ _ _ _ _ _ condition Hcls Hall Hr)).
           unfold _split. intros Hin.
           apply split_loop_markers in Hin as [_ Hne]. apply Hne.
           unfold statement.
           rewrite Hpost, Hpost', (last_app_cons pre [condition] token).
           reflexivity.
        -- intros Hnomore.
           destruct (InlineIfLexer_run_split_children _ _ _ _ _ _ Hnomore
                       Hcls Hall Hr) as (classes & Hl & Hlen & _).
           exists self', classes. intros parts. subst parts.
           split; [done|].
           rewrite Hev, Hcond, dispatched_parts_else_if in Hl, Hlen.
           by split.
Qed.

End Properties.

(** * The properties on the sample documents *)

(** The whole sample document goes through the file lexer. *)
Example sample_document_lexes :
  exists file h,
    feed sample_collaborators 6 (BlockNode sample_file) sample_statements
         sample_tokens = Ok (BlockNode file, h)
    /\ firstn 1 (lexers file)
       = [BlockNode (mkBlock TestCaseSectionLexer FileCtx
                       [StatementNode TestCaseSectionHeaderLexer FileCtx [[0]];
                        BlockNode sample_test] false 0)]
    /\ map (fun lexer => match lexer with
                         | BlockNode b => Some (cls b)
                         | StatementNode _ _ _ => None
                         end) (lexers file)
       = [Some TestCaseSectionLexer; Some ErrorSectionLexer;
          Some KeywordSectionLexer].
Proof. eexists _, _. split; [vm_compute; reflexivity|]. by split. Qed.

(** C1 on the sample: the header lexer of the test case section accepts no
    more, so the section scans its classes for [MyTest  Log  hi], skips
    the header class and constructs a [TestCaseLexer]. *)
Lemma BlockLexer_input_dispatch_witness :
  BlockLexer_input sample_collaborators (input sample_collaborators 5)
                   sample_section [1; 2; 3; 4] sample_tokens
  = do '(new, h', _) <-
      input sample_collaborators 5
            (construct sample_collaborators (Blk TestCaseLexer) FileCtx)
            [1; 2; 3; 4] sample_tokens;
    Ok (with_lexers sample_section (lexers sample_section ++ [new]), h',
        RetLastChild).
Proof.
  apply (proj1 (proj2 (BlockLexer_input_dispatch sample_collaborators
                         (input sample_collaborators 5) sample_section
                         [1; 2; 3; 4] sample_tokens))
           [Stmt TestCaseSectionHeaderLexer] (Blk TestCaseLexer) []).
  - right. exists [], (StatementNode TestCaseSectionHeaderLexer FileCtx [[0]]).
    split; reflexivity.
  - reflexivity.
  - repeat constructor.
  - reflexivity.
Defined.

(** C2 on the sample: the FOR lexer gets its header, a call and END under
    composite dispatch, and then accepts nothing more. *)
Lemma NestedBlockLexer_block_level_witness :
  Dispatched sample_collaborators sample_for_closed
  /\ _block_level sample_for_header = 1%Z
  /\ _block_level sample_for_closed = 0%Z
  /\ accepts_more sample_collaborators (BlockNode sample_for_closed)
                  sample_tokens [15; 16; 17] = Ok false.
Proof.
  assert (Hd : Dispatched sample_collaborators sample_for_closed).
  { apply (Dispatched_next sample_collaborators sample_for_body [14]
             sample_tokens 3 sample_for_closed sample_tokens RetNone).
    - apply (Dispatched_next sample_collaborators sample_for_header
               [11; 12] sample_tokens 3 sample_for_body sample_tokens
               RetNone).
      + apply (Dispatched_first sample_collaborators ForLexer TestCaseCtx
                 [6; 7; 8; 9] sample_tokens 3 sample_for_header
                 sample_tokens RetNone).
        * by left.
        * reflexivity.
        * vm_compute. reflexivity.
      + reflexivity.
      + vm_compute. reflexivity.
    - reflexivity.
    - vm_compute. reflexivity. }
  split; [exact Hd|]. split; [reflexivity|]. split; [reflexivity|].
  apply (proj2 (proj2 (proj2 (proj2 (proj2 (proj2
           (NestedBlockLexer_block_level sample_collaborators)))))));
    [exact Hd | reflexivity].
Defined.

(** C3 on a sample: with collaborators that handle nothing, a comment
    section has no lexer for a statement and says so. *)
Lemma lexer_for_no_class_raises_witness :
  lexer_for deaf_collaborators sample_comment_section sample_tokens [19]
  = Raise (TypeError "CommentSectionLexer" [19])
  /\ input deaf_collaborators 1 (BlockNode sample_comment_section) [19]
           sample_tokens
     = Raise (TypeError "CommentSectionLexer" [19]).
Proof.
  assert (Hnone : Forall (fun c => handles deaf_collaborators c sample_tokens
                                     [19] (ctx sample_comment_section) = false)
                         (lexer_classes (cls sample_comment_section)))
    by (repeat constructor).
  destruct (lexer_for_no_class_raises deaf_collaborators
              sample_comment_section sample_tokens [19] Hnone)
    as (Hfor & _ & _ & Hinput & _).
  split; [exact Hfor|].
  apply (Hinput 0); [by left | by left].
Defined.

(** C4 on the sample: [*** Bogus ***] opens an error section. *)
Lemma FileLexer_unknown_header_witness :
  lexer_for sample_collaborators sample_file sample_tokens [18]
  = Ok (construct sample_collaborators (Blk ErrorSectionLexer) FileCtx).
Proof.
  exact (proj1 (proj2 (FileLexer_unknown_header_opens_error_section
                         sample_collaborators sample_file sample_tokens 18 []
                         eq_refl eq_refl eq_refl eq_refl eq_refl eq_refl
                         eq_refl eq_refl))).
Defined.

(** C5 on the sample: the test case holds a call, a FOR block and then the
    setting [[Tags]  t]; the setting is lexed first. *)
Lemma priority_lexing_witness :
  lex (BlockNode sample_test)
  = [Lex TestOrKeywordSettingLexer TestCaseCtx [[16; 17]];
     Lex KeywordCallLexer TestCaseCtx [[2; 3; 4]];
     Lex ForHeaderLexer TestCaseCtx [[6; 7; 8; 9]];
     Lex KeywordCallLexer TestCaseCtx [[11; 12]];
     Lex EndLexer TestCaseCtx [[14]]].
Proof.
  rewrite (proj1 (proj2 (priority_lexing_File_and_TestCase sample_test))
             eq_refl).
  reflexivity.
Defined.

(** C6 as stated fails on the sample keyword, built from
    [Kw], [Log  hi] and [[Arguments]  ${x}]: its [lex] takes the call
    before the setting, which is not the order of priority lexing. *)
Lemma KeywordLexer_priority_counterexample :
  feed sample_collaborators 3
       (construct sample_collaborators (Blk KeywordLexer) FileCtx)
       keyword_statements keyword_tokens
  = Ok (BlockNode sample_keyword,
        update (set_type None) 4
          (update (set_type None) 1
             (update (set_type (Some KEYWORD_NAME)) 0 keyword_tokens)))
  /\ lex (BlockNode sample_keyword)
     = [Lex KeywordCallLexer KeywordCtx [[2; 3]];
        Lex TestOrKeywordSettingLexer KeywordCtx [[5; 6]]]
  /\ priority_first (Stmt TestOrKeywordSettingLexer) (lexers sample_keyword)
     = [Lex TestOrKeywordSettingLexer KeywordCtx [[5; 6]];
        Lex KeywordCallLexer KeywordCtx [[2; 3]]]
  /\ lex (BlockNode sample_keyword)
     <> priority_first (Stmt TestOrKeywordSettingLexer)
                       (lexers sample_keyword).
Proof.
  split; [vm_compute; reflexivity|].
  split; [reflexivity|]. split; [reflexivity|]. discriminate.
Qed.

(** C6 as amended, on the sample keyword. *)
Lemma KeywordLexer_lex_in_order_witness :
  lex (BlockNode sample_keyword) = flat_map lex (lexers sample_keyword).
Proof.
  apply (KeywordLexer_lex_in_order sample_keyword); discriminate.
Defined.

(** C7 on the sample: [MyTest] becomes the name of the test case and an
    end of statement is requested after it. *)
Lemma TestOrKeywordLexer_name_token_witness :
  _handle_name_or_indentation sample_test_new [1; 2; 3; 4] sample_tokens
  = Ok (with_name_seen sample_test_new true, [2; 3; 4],
        update set_add_eos_after 1
          (update (set_type (Some TESTCASE_NAME)) 1 sample_tokens))
  /\ deref (update set_add_eos_after 1
              (update (set_type (Some TESTCASE_NAME)) 1 sample_tokens)) 1
     = mkToken "MyTest" (Some TESTCASE_NAME) false true.
Proof.
  split.
  - exact (proj1 (TestOrKeywordLexer_name_token sample_collaborators
                    sample_test_new 1 [2; 3; 4] sample_tokens 0
                    (or_introl eq_refl) eq_refl)).
  - vm_compute. reflexivity.
Defined.

(** C8 on a sample: [IF  c] has two tokens. *)
Lemma InlineIfLexer_handles_witness :
  handles sample_collaborators (Blk InlineIfLexer) sample_tokens [23; 24]
          KeywordCtx = false.
Proof.
  apply (proj1 (InlineIfLexer_handles_more_than_two_tokens
                  sample_collaborators sample_tokens [23; 24] KeywordCtx)).
  simpl. lia.
Defined.

Lemma inline_new_input :
  input sample_collaborators 3 (BlockNode inline_new)
        [23; 24; 25; 26; 27; 28; 29; 30] sample_tokens
  = Ok (BlockNode inline_done, inline_done_tokens, RetSelf).
Proof. vm_compute. reflexivity. Qed.

(** C9 on the sample: in [IF c Log  ELSE  IF d Foo  ELSE Bar] the token
    [ELSE] comes when [current] is [Foo], and [ELSE  IF] when it is [Log];
    after [input] both have the marker before them in the store, and
    [ELSE] and the condition [d] the marker after them. *)
Lemma InlineIfLexer_split_else_witness :
  _split sample_collaborators sample_tokens [23; 24; 25; 26; 27; 28; 29; 30]
  = [AddEosAfter 24; Yield [23; 24];
     AddEosBefore 26; Yield [25]; AddEosAfter 27; Yield [26; 27];
     AddEosBefore 29; AddEosAfter 29; Yield [28]; Yield [29];
     Yield [30]]
  /\ _add_eos_before (deref sample_tokens 29) = false
  /\ _add_eos_before (deref inline_done_tokens 29) = true
  /\ _add_eos_after (deref inline_done_tokens 29) = true
  /\ _add_eos_before (deref inline_done_tokens 26) = true
  /\ _add_eos_after (deref inline_done_tokens 27) = true.
Proof.
  assert (Hnd : NoDup ([23; 24; 25; 26; 27; 28] ++ 29 :: [30]))
    by (apply (bool_decide_unpack _); vm_compute; exact I).
  assert (Hnd' : NoDup ([23; 24; 25] ++ 26 :: [27; 28; 29; 30]))
    by (apply (bool_decide_unpack _); vm_compute; exact I).
  assert (Hnorm : normalize_whitespace sample_collaborators "ELSE"
                  <> "ELSE IF") by discriminate.
  assert (Hvalue : value (deref sample_tokens 26) <> "IF")
    by (vm_compute; discriminate).
  destruct (InlineIfLexer_split_else sample_collaborators sample_tokens
              [23; 24; 25; 26; 27; 28] [30] 29 [28] Hnd eq_refl)
    as (Helse & _ & _).
  destruct (Helse eq_refl Hnorm) as [Hev Hstore].
  destruct (Hstore 3 inline_new _ _ _ eq_refl inline_new_input)
    as (Hb & Ha & _).
  destruct (InlineIfLexer_split_else sample_collaborators sample_tokens
              [23; 24; 25] [27; 28; 29; 30] 26 [25] Hnd' eq_refl)
    as (_ & _ & Helseif).
  destruct (Helseif eq_refl Hvalue) as [_ Hstore'].
  destruct (Hstore' 3 inline_new _ _ _ eq_refl inline_new_input)
    as (Hb' & Hcond).
  destruct (Hcond 27 [28; 29; 30] eq_refl) as [Ha' _].
  split; [|split; [|split; [|split; [|split]]]].
  - etransitivity; [exact Hev | vm_compute; reflexivity].
  - vm_compute. reflexivity.
  - exact Hb.
  - apply Ha. discriminate.
  - exact Hb'.
  - apply Ha'. discriminate.
Defined.

(** C10 on a sample: the statement [IF c Log hi] goes to an
    [InlineIfLexer] inside the FOR lexer, whose block level stays 1. *)
Lemma InlineIfLexer_keeps_block_level_witness :
  input sample_collaborators 4 (BlockNode inline_for_header) [4; 5; 6; 7]
        inline_tokens
  = Ok (BlockNode inline_for_after, update set_add_eos_after 5 inline_tokens,
        RetNone)
  /\ _block_level inline_for_after = _block_level inline_for_header.
Proof.
  assert (Hok : input sample_collaborators 4 (BlockNode inline_for_header)
                      [4; 5; 6; 7] inline_tokens
                = Ok (BlockNode inline_for_after,
                      update set_add_eos_after 5 inline_tokens, RetNone))
    by (vm_compute; reflexivity).
  split; [exact Hok|].
  apply (proj1 (proj2 (proj2 (InlineIfLexer_keeps_block_level
                                sample_collaborators)))
           4 inline_for_header [4; 5; 6; 7] inline_tokens inline_for_after
           (update set_add_eos_after 5 inline_tokens) RetNone
           [StatementNode ForHeaderLexer TestCaseCtx [[0; 1; 2; 3]]]
           inline_if eq_refl Hok eq_refl).
Defined.

(** * The further properties on the sample documents *)

Lemma sample_test_first_input :
  input sample_collaborators 4 (BlockNode sample_test_new) [1; 2; 3; 4]
        sample_tokens
  = Ok (BlockNode sample_test_named, named_tokens, RetNone).
Proof. vm_compute. reflexivity. Qed.

Lemma sample_section_input :
  input sample_collaborators 5 (BlockNode sample_section) [1; 2; 3; 4]
        sample_tokens
  = Ok (BlockNode sample_section_after, named_tokens, RetLastChild).
Proof. vm_compute. reflexivity. Qed.

Lemma sample_for_closed_dispatched :
  Dispatched sample_collaborators sample_for_closed.
Proof.
  apply (Dispatched_next sample_collaborators sample_for_body [14]
           sample_tokens 3 sample_for_closed sample_tokens RetNone);
    [|reflexivity | vm_compute; reflexivity].
  apply (Dispatched_next sample_collaborators sample_for_header [11; 12]
           sample_tokens 3 sample_for_body sample_tokens RetNone);
    [|reflexivity | vm_compute; reflexivity].
  apply (Dispatched_first sample_collaborators ForLexer TestCaseCtx
           [6; 7; 8; 9] sample_tokens 3 sample_for_header sample_tokens
           RetNone);
    [by left | reflexivity | vm_compute; reflexivity].
Qed.

(** X2 on the sample: the condition [c] of the inline IF gets a marker
    after it, so it is not the last token of the statement. *)
Lemma InlineIfLexer_split_markers_witness :
  In 24 [23; 24; 25; 26; 27; 28; 29; 30]
  /\ 24 <> List.last [23; 24; 25; 26; 27; 28; 29; 30] 0.
Proof.
  apply (proj2 (InlineIfLexer_split_markers sample_collaborators
                  sample_tokens [23; 24; 25; 26; 27; 28; 29; 30]) 24).
  vm_compute. left. reflexivity.
Defined.

(** X3 on the sample: the name statement of the test case leaves the
    section header alone and keeps the text of the name. *)
Lemma input_touches_only_the_statement_witness :
  deref named_tokens 0 = deref sample_tokens 0
  /\ value (deref named_tokens 1) = value (deref sample_tokens 1).
Proof.
  destruct (input_touches_only_the_statement sample_collaborators 4 _ _ _ _
              _ _ sample_test_first_input) as (Hvalue & Hframe & _).
  split; [|apply Hvalue]. apply Hframe.
  simpl. intros [H | [H | [H | [H | []]]]]; discriminate H.
Defined.

(** X4 on the sample: of [MyTest  Log  hi] the test case keeps all but a
    leading run. *)
Lemma input_appends_the_statement_witness :
  exists dropped kept,
    [1; 2; 3; 4] = dropped ++ kept
    /\ tokens_of (BlockNode sample_test_named)
       = tokens_of (BlockNode sample_test_new) ++ kept.
Proof.
  destruct (input_appends_the_statement sample_collaborators 4
              (BlockNode sample_test_new) [1; 2; 3; 4] sample_tokens
              (BlockNode sample_test_named) named_tokens RetNone
              eq_refl sample_test_first_input)
    as (dropped & kept & Hs & Hk & _).
  exists dropped, kept. by split.
Defined.

(** X5 on the sample: the header of the test case section stays where it
    is when the test case is added. *)
Lemma input_children_append_only_witness :
  exists rest,
    lexers sample_section_after = removelast (lexers sample_section) ++ rest.
Proof.
  destruct (input_children_append_only sample_collaborators 5 _ _ _ _ _ _
              sample_section_input) as (self' & Heq & Hrest & _).
  injection Heq as <-. exact Hrest.
Defined.

(** X6 on the sample: after its first statement the test case lexer has
    seen its name and is still a test case lexer. *)
Lemma input_keeps_class_and_context_witness :
  cls sample_test_named = cls sample_test_new
  /\ _name_seen sample_test_named = true.
Proof.
  destruct (input_keeps_class_and_context sample_collaborators 4 _ _ _ _ _ _
              sample_test_first_input) as (self' & Heq & Hcls & _ & Hseen & _).
  injection Heq as <-. split; [exact Hcls | exact Hseen].
Defined.

(** X7 on the sample document. *)
Lemma feed_file_builds_sections_witness :
  exists lexer' h',
    feed sample_collaborators 6
         (construct sample_collaborators (Blk FileLexer) FileCtx)
         sample_statements sample_tokens = Ok (lexer', h')
    /\ well_formed lexer' = true.
Proof.
  destruct sample_document_lexes as (file & h & Hfeed & _).
  exists (BlockNode file), h. split; [exact Hfeed|].
  destruct (feed_file_builds_sections sample_collaborators 6 FileCtx
              sample_statements sample_tokens _ _ Hfeed)
    as (file' & _ & _ & Hwf & _).
  exact Hwf.
Defined.

(** X8 on the sample: nine units of fuel give what seven give. *)
Lemma input_nests_to_bounded_depth_witness :
  input sample_collaborators 9 (BlockNode sample_test) [15; 16; 17]
        sample_tokens
  = input sample_collaborators (enough_fuel (BlockNode sample_test))
          (BlockNode sample_test) [15; 16; 17] sample_tokens.
Proof.
  apply (proj2 (input_nests_to_bounded_depth sample_collaborators 9
                  (BlockNode sample_test) [15; 16; 17] sample_tokens
                  eq_refl ltac:(vm_compute; lia))).
Defined.

(** X9 on the sample: the blank cell before [Log  x] is taken off. *)
Lemma TestOrKeywordLexer_skips_blank_cells_witness :
  exists blanks rest,
    [10; 11; 12] = blanks ++ rest
    /\ Forall (fun t => value (deref sample_tokens t) = "") blanks
    /\ match rest with
       | [] => True
       | t :: _ => value (deref sample_tokens t) <> ""
       end.
Proof.
  destruct (TestOrKeywordLexer_skips_blank_cells sample_collaborators 3
              sample_test_named [10; 11; 12] sample_tokens eq_refl eq_refl)
    as (blanks & rest & h1 & Hs & Hblanks & Hhead & _).
  exists blanks, rest. by repeat split.
Defined.

(** X10 on the sample: a new test case lexer cannot take its name from an
    empty statement. *)
Lemma empty_statement_behaviour_witness :
  input sample_collaborators 1 (BlockNode sample_test_new) [] sample_tokens
  = Raise IndexError.
Proof.
  exact (proj1 (empty_statement_behaviour sample_collaborators sample_tokens)
           0 sample_test_new eq_refl).
Defined.

(** X12 on the sample: the FOR block closed on its END. *)
Lemma NestedBlockLexer_closes_on_END_witness :
  (exists before sctx statements,
     lexers sample_for_closed
     = before ++ [StatementNode EndLexer sctx statements])
  \/ (cls sample_for_closed = IfLexer
      /\ exists inline, lexers sample_for_closed = [BlockNode inline]
                        /\ cls inline = InlineIfLexer).
Proof.
  exact (NestedBlockLexer_closes_on_END sample_collaborators sample_for_closed
           sample_for_closed_dispatched eq_refl).
Defined.

(** X13 on the sample: [Log  hi] became a keyword call, so it is no
    setting. *)
Lemma catch_all_classes_come_last_witness :
  handles sample_collaborators (Stmt TestOrKeywordSettingLexer) named_tokens
          [2; 3; 4] TestCaseCtx = false.
Proof.
  apply (proj1 (catch_all_classes_come_last sample_collaborators
                  sample_test_named named_tokens [2; 3; 4]
                  (StatementNode KeywordCallLexer TestCaseCtx []) eq_refl)).
  - by eexists _, _.
  - simpl. auto.
  - discriminate.
Defined.

(** X14 on a sample: the keyword section is lexed before the test case
    section that comes first in the file. *)
Lemma FileLexer_lexes_keyword_sections_first_witness :
  exists t1 t2 t3,
    lex (BlockNode sample_file_two)
    = t1 ++ lex (BlockNode sample_keyword_section) ++ t2
      ++ lex (BlockNode sample_section) ++ t3.
Proof.
  exact (FileLexer_lexes_keyword_sections_first sample_file_two eq_refl
           [] (BlockNode sample_section) [] sample_keyword_section []
           eq_refl (or_introl eq_refl) eq_refl).
Defined.

(** X15 on the sample: the inline IF of the keyword gets six children. *)
Lemma InlineIfLexer_one_child_per_part_witness :
  exists classes,
    lexers inline_done
    = lexers inline_new
      ++ zip_with (fun c part => StatementNode c (ctx inline_new) [part])
                  classes
                  (dispatched_parts
                     (_split sample_collaborators sample_tokens
                             [23; 24; 25; 26; 27; 28; 29; 30]))
    /\ length classes = 6.
Proof.
  destruct (InlineIfLexer_one_child_per_part sample_collaborators 3
              inline_new [23; 24; 25; 26; 27; 28; 29; 30] sample_tokens _ _ _
              (fun _ _ _ _ _ => eq_refl) eq_refl eq_refl inline_new_input)
    as (self' & classes & Heq & Hl & Hlen & _).
  injection Heq as <-. exists classes. split; [exact Hl | exact Hlen].
Defined.

(** X16 on the sample: the closed FOR block holds one header and one
    END. *)
Lemma NestedBlockLexer_level_counts_children_witness :
  exists self,
    BlockNode sample_for_closed = BlockNode self
    /\ _block_level self
       = (Z.of_nat (length (List.filter
                              (fun child => is_block_header (Some child))
                              (lexers self)))
          - Z.of_nat (length (List.filter (fun child => is_end (Some child))
                                          (lexers self))))%Z.
Proof.
  apply (NestedBlockLexer_level_counts_children sample_collaborators 3
           ForLexer TestCaseCtx [[6; 7; 8; 9]; [11; 12]; [14]] sample_tokens
           (BlockNode sample_for_closed) sample_tokens
           (fun _ _ _ _ _ => eq_refl)).
  - by left.
  - vm_compute. reflexivity.
Defined.
